(** * Blockchain intelligence: address clustering, entity attribution,
      risk scoring and pattern detection

    A shallow embedding of the JavaScript services of the platform:
    - the clustering service (common-input ownership, change addresses,
      behavioural fallback, combined clustering),
    - the entity attribution service (clusters and single addresses, proposed
      updates of the entity store),
    - the identification orchestrator,
    - the in-memory entity service,
    - the risk scoring service and the pattern detection service,
    followed by the properties proved of them.

    Conventions of the embedding.
    - An [async] function whose body is wrapped in [try { ... } catch] returns
      a [result]: [Ok v] for a resolved promise, [Throw msg] for a rejected
      one, [msg] being the [message] of the [Error].  A function that also
      writes the entity store returns the store next to its result.
    - A JavaScript number is an exact rational ([Q]); the rounding of IEEE
      doubles is not modelled.  A comparison against a square root is written
      on the squares.  Lengths and counters are [nat].
    - Addresses, hashes and identifiers are strings; [value], [gasPrice] and
      [gasUsed] are numbers and [timestamp] is a number of milliseconds.
    - A plain object used as a dictionary is an association list in insertion
      order, which is the order [for ... in], [Object.keys] and
      [Object.entries] follow for keys that are not array indices (cluster
      ids, pattern names).  Where the keys can be array indices (entity ids
      such as ["1"], keys of a map received as argument) the enumeration order
      of ECMAScript is written out ([Obj.for_in_order]).
    - A [Set] is a duplicate-free list in insertion order.
    - The clock ([Date.now()]) and the identifier generator ([uuidv4]) are
      parameters of the functions that read them. *)

From Stdlib Require Import String Ascii List Bool Arith Lia ZArith NArith.
From Stdlib Require Import QArith Qminmax Qround Lqa Permutation Sorted.
From Stdlib Require Import DecimalString DecimalNat DecimalN.
Import ListNotations.
Close Scope Q_scope.
Close Scope Z_scope.
Local Open Scope string_scope.
Local Open Scope list_scope.


(* ================================================================== *)
(** ** Promises that resolve or reject *)

Inductive result (A : Type) : Type :=
| Ok (a : A)
| Throw (message : string).
Arguments Ok {A} a.
Arguments Throw {A} message.

Definition bind {A B} (r : result A) (k : A -> result B) : result B :=
  match r with
  | Ok a => k a
  | Throw m => Throw m
  end.

(** [try { body } catch (error) { throw new Error(prefix + error.message) }] *)
Definition rethrow {A} (prefix : string) (body : result A) : result A :=
  match body with
  | Ok a => Ok a
  | Throw m => Throw (prefix ++ m)
  end.

(** [forEach] with a body that may throw: the first exception ends the loop. *)
Fixpoint foldM {A S} (f : S -> A -> result S) (l : list A) (s : S) : result S :=
  match l with
  | [] => Ok s
  | x :: l' => bind (f s x) (foldM f l')
  end.

(* ================================================================== *)
(** ** Strings, sets and objects of the runtime *)

Definition Address := string.

(** Truthiness of a string: every string but the empty one. *)
Definition truthy (s : string) : bool := negb (String.eqb s "").

(** Decimal rendering of a counter inside a template literal. *)
Definition decimal (n : nat) : string := NilEmpty.string_of_uint (Nat.to_uint n).

Definition includes (l : list string) (a : string) : bool :=
  existsb (String.eqb a) l.

(** [s.toLowerCase()] on the ASCII letters an address is written with. *)
Definition lowerAscii (c : ascii) : ascii :=
  let n := nat_of_ascii c in
  if ((65 <=? n) && (n <=? 90))%nat then ascii_of_nat (n + 32) else c.

Fixpoint toLowerCase (s : string) : string :=
  match s with
  | EmptyString => EmptyString
  | String c s' => String (lowerAscii c) (toLowerCase s')
  end.

Definition Qltb (a b : Q) : bool := negb (Qle_bool b a).

(** A length or a counter used as a number. *)
Definition Qnat (n : nat) : Q := inject_Z (Z.of_nat n).

Module JsSet.
(** [Set] of strings, in insertion order. *)
Definition t := list string.
Definition has (s : t) (a : string) : bool := includes s a.
Definition add (s : t) (a : string) : t := if has s a then s else s ++ [a].
Definition add_all (s : t) (l : list string) : t := fold_left add l s.
(** [new Set(l)] *)
Definition of_list (l : list string) : t := add_all [] l.
Definition size (s : t) : nat := length s.
End JsSet.

Module Obj.
(** Object with string keys, in insertion order. *)
Definition t (V : Type) := list (string * V).

Definition keys {V} (o : t V) : list string := map fst o.
Definition values {V} (o : t V) : list V := map snd o.

Fixpoint get {V} (o : t V) (k : string) : option V :=
  match o with
  | [] => None
  | (k', v) :: o' => if String.eqb k k' then Some v else get o' k
  end.

(** [o[k] = v]: an existing key keeps its place. *)
Fixpoint set {V} (o : t V) (k : string) (v : V) : t V :=
  match o with
  | [] => [(k, v)]
  | (k', v') :: o' =>
      if String.eqb k k' then (k', v) :: o' else (k', v') :: set o' k v
  end.

(** [delete o[k]] *)
Fixpoint delete {V} (o : t V) (k : string) : t V :=
  match o with
  | [] => []
  | (k', v') :: o' =>
      if String.eqb k k' then delete o' k else (k', v') :: delete o' k
  end.

(** In-place update of the value stored at [k], as [o[k].add(x)] or
    [o[k].push(x)] do when [k] is a key of [o]. *)
Fixpoint adjust {V} (f : V -> V) (o : t V) (k : string) : t V :=
  match o with
  | [] => []
  | (k', v') :: o' =>
      if String.eqb k k' then (k', f v') :: o' else (k', v') :: adjust f o' k
  end.

(** The array index a key denotes, if it is the canonical decimal form of
    an integer below [2^32 - 1]. *)
Definition arrayIndex (k : string) : option N :=
  match NilEmpty.uint_of_string k with
  | Some d =>
      let n := N.of_uint d in
      if String.eqb (NilEmpty.string_of_uint (N.to_uint n)) k
         && (n <? 4294967295)%N
      then Some n else None
  | None => None
  end.

Fixpoint insertIndexed {V} (n : N) (e : string * V)
    (l : list (N * (string * V))) : list (N * (string * V)) :=
  match l with
  | [] => [(n, e)]
  | (m, e') :: l' =>
      if (n <? m)%N then (n, e) :: l else (m, e') :: insertIndexed n e l'
  end.

Definition indexedEntries {V} (o : t V) : list (N * (string * V)) :=
  fold_left
    (fun acc e =>
       match arrayIndex (fst e) with
       | Some n => insertIndexed n e acc
       | None => acc
       end)
    o [].

(** The order in which [for (k in o)], [Object.keys], [Object.values] and
    [Object.entries] enumerate the properties of [o]: array indices in
    ascending numeric order, then the other keys in insertion order. *)
Definition for_in_order {V} (o : t V) : list (string * V) :=
  map snd (indexedEntries o)
  ++ filter (fun e => match arrayIndex (fst e) with
                      | Some _ => false
                      | None => true
                      end) o.
End Obj.

(* ================================================================== *)
(** ** Transactions *)

(** An element of [tx.inputs] or [tx.outputs]. *)
Record TxIO := { address : Address }.

Record Transaction := {
  hash : string;
  timestamp : Z;           (* milliseconds since the epoch *)
  from : Address;
  to : Address;
  value : Q;
  gasPrice : Q;
  gasUsed : Q;
  inputs : option (list TxIO);
  outputs : option (list TxIO);
}.

(** A cluster map: cluster id to member addresses. *)
Definition Clusters := Obj.t (list Address).

Module Clustering.

(** [transaction.inputs ? transaction.inputs.map(i => i.address)
                        : [transaction.from]] *)
Definition getInputAddresses (transaction : Transaction) : list Address :=
  match inputs transaction with
  | Some ins => map address ins
  | None => [from transaction]
  end.

Definition getOutputAddresses (transaction : Transaction) : list Address :=
  match outputs transaction with
  | Some outs => map address outs
  | None => [to transaction]
  end.

Definition isChangeAddressCandidate (transaction : Transaction) : bool := true.

(** [allTransactions.findIndex(tx => tx.hash === currentTx.hash)] *)
Fixpoint findIndex (h : string) (l : list Transaction) : option nat :=
  match l with
  | [] => None
  | tx :: l' =>
      if String.eqb (hash tx) h then Some 0
      else option_map S (findIndex h l')
  end.

(** [allTransactions.slice(0, currentTxIndex)], where an index of [-1]
    (not found) drops the last element. *)
Definition previousTransactions (currentTx : Transaction)
    (allTransactions : list Transaction) : list Transaction :=
  match findIndex (hash currentTx) allTransactions with
  | Some i => firstn i allTransactions
  | None => removelast allTransactions
  end.

Definition hasAddressAppearedBefore (a : Address) (currentTx : Transaction)
    (allTransactions : list Transaction) : bool :=
  existsb (fun tx => includes (getInputAddresses tx) a
                     || includes (getOutputAddresses tx) a)
          (previousTransactions currentTx allTransactions).

Definition clusterName (n : nat) : string := "cluster_" ++ decimal n.
Definition behavioralClusterName (n : nat) : string :=
  "behavioral_cluster_" ++ decimal n.

(* ---------------------------------------------------------------- *)
(** *** Common-input ownership *)

(** The ids of the clusters that hold one of the input addresses, in the
    order the nested loops of the source meet them. *)
Definition existingClustersOf (clusters : Obj.t JsSet.t)
    (inputAddresses : list Address) : JsSet.t :=
  fold_left
    (fun existing a =>
       fold_left
         (fun existing (entry : string * JsSet.t) =>
            if JsSet.has (snd entry) a then JsSet.add existing (fst entry)
            else existing)
         clusters existing)
    inputAddresses [].

(** [inputAddresses.forEach(a => clusters[clusterId].add(a))]; [clusterId]
    is always one of the keys of [clusters] here. *)
Definition addAddresses (clusters : Obj.t JsSet.t) (clusterId : string)
    (l : list Address) : Obj.t JsSet.t :=
  Obj.adjust (fun s => JsSet.add_all s l) clusters clusterId.

(** One iteration of the merge loop: pour [clusterId] into the target and
    delete it. *)
Definition mergeInto (targetClusterId : string) (clusters : Obj.t JsSet.t)
    (clusterId : string) : Obj.t JsSet.t :=
  match Obj.get clusters clusterId with
  | Some s => Obj.delete (addAddresses clusters targetClusterId s) clusterId
  | None => clusters
  end.

(** The body of [transactions.forEach] on the pair of the cluster map and
    [clusterIdCounter]. *)
Definition commonInputStep (st : Obj.t JsSet.t * nat) (tx : Transaction)
    : Obj.t JsSet.t * nat :=
  let '(clusters, clusterIdCounter) := st in
  let inputAddresses := getInputAddresses tx in
  if (length inputAddresses <=? 1)%nat then st
  else
    match existingClustersOf clusters inputAddresses with
    | [] =>
        (Obj.set clusters (clusterName clusterIdCounter)
                 (JsSet.of_list inputAddresses),
         S clusterIdCounter)
    | [clusterId] =>
        (addAddresses clusters clusterId inputAddresses, clusterIdCounter)
    | targetClusterId :: others =>
        (fold_left (mergeInto targetClusterId) others
                   (addAddresses clusters targetClusterId inputAddresses),
         clusterIdCounter)
    end.

Definition commonInputSets (transactions : list Transaction)
    : Obj.t JsSet.t * nat :=
  fold_left commonInputStep transactions ([], 1).

Definition commonInputClustering (transactions : list Transaction)
    : result Clusters :=
  rethrow "Common input clustering failed: "
    (Ok (fst (commonInputSets transactions))).

(* ---------------------------------------------------------------- *)
(** *** Change addresses *)

(** The first cluster, in key order, that holds one of the inputs. *)
Definition findOwner (updatedClusters : Clusters)
    (inputAddresses : list Address) : option string :=
  option_map fst
    (find (fun entry : string * list Address =>
             existsb (includes (snd entry)) inputAddresses)
          updatedClusters).

Definition changeAddressStep (transactions : list Transaction)
    (updatedClusters : Clusters) (tx : Transaction) : Clusters :=
  if negb (isChangeAddressCandidate tx) then updatedClusters
  else
    let inputAddresses := getInputAddresses tx in
    let outputAddresses := getOutputAddresses tx in
    let potentialChangeAddresses :=
      filter (fun a => negb (hasAddressAppearedBefore a tx transactions))
             outputAddresses in
    match potentialChangeAddresses with
    | [changeAddress] =>
        let ownerClusterId :=
          match findOwner updatedClusters inputAddresses with
          | Some clusterId => if truthy clusterId then Some clusterId else None
          | None => None
          end in
        match ownerClusterId with
        | Some clusterId =>
            Obj.adjust (fun c => c ++ [changeAddress]) updatedClusters clusterId
        | None =>
            Obj.set updatedClusters
              (clusterName (length (Obj.keys updatedClusters) + 1))
              (inputAddresses ++ [changeAddress])
        end
    | _ => updatedClusters
    end.

Definition changeAddressIdentification (transactions : list Transaction)
    (clusters : Clusters) : result Clusters :=
  rethrow "Change address identification failed: "
    (Ok (fold_left (changeAddressStep transactions) transactions clusters)).

(* ---------------------------------------------------------------- *)
(** *** Behavioural similarity *)

Record Features := {
  transactionCount : nat;
  averageValue : Q;
  timePattern : list Q;
  gasPriceAvg : Q;
  contractInteractions : list string;
}.

Definition calculateBehavioralFeatures (a : Address)
    (transactions : list Transaction) : Features :=
  {| transactionCount := 0; averageValue := 0%Q; timePattern := [];
     gasPriceAvg := 0%Q; contractInteractions := [] |}.

(** The helper the module declares, under the name it declares it. *)
Definition areFeaturesSimlar (features1 features2 : option Features) : bool :=
  false.

(** The name [behavioralClustering] calls.  The module binds no such
    identifier (the helper above is spelled differently), so evaluating the
    call raises a [ReferenceError]. *)
Definition areFeaturesSimilar (features1 features2 : option Features)
    : result bool :=
  Throw "areFeaturesSimilar is not defined".

(** The inner [addresses.forEach(otherAddress => ...)]. *)
Definition similarStep (addressFeatures : Obj.t Features) (a : Address)
    (newClusterId : string) (st : Clusters * JsSet.t) (otherAddress : Address)
    : result (Clusters * JsSet.t) :=
  let '(clusters, processedAddresses) := st in
  if String.eqb a otherAddress || JsSet.has processedAddresses otherAddress
  then Ok st
  else
    bind (areFeaturesSimilar (Obj.get addressFeatures a)
                             (Obj.get addressFeatures otherAddress))
      (fun similar =>
         if similar : bool
         then Ok (Obj.adjust (fun c => c ++ [otherAddress]) clusters newClusterId,
                  JsSet.add processedAddresses otherAddress)
         else Ok st).

(** The outer [addresses.forEach(address => ...)] on the cluster map,
    [clusterIdCounter] and [processedAddresses]. *)
Definition behavioralStep (addressFeatures : Obj.t Features)
    (addresses : list Address) (st : Clusters * nat * JsSet.t) (a : Address)
    : result (Clusters * nat * JsSet.t) :=
  let '(clusters, clusterIdCounter, processedAddresses) := st in
  if JsSet.has processedAddresses a then Ok st
  else
    let newClusterId := behavioralClusterName clusterIdCounter in
    bind (foldM (similarStep addressFeatures a newClusterId) addresses
                (Obj.set clusters newClusterId [a],
                 JsSet.add processedAddresses a))
      (fun '(clusters', processed') =>
         Ok (clusters', S clusterIdCounter, processed')).

Definition behavioralClustering (transactions : list Transaction)
    (addresses : list Address) : result Clusters :=
  rethrow "Behavioral clustering failed: "
    (let addressFeatures :=
       fold_left
         (fun o a => Obj.set o a (calculateBehavioralFeatures a transactions))
         addresses [] in
     bind (foldM (behavioralStep addressFeatures addresses) addresses
                 ([], 1, []))
       (fun '(clusters, _, _) => Ok clusters)).

(* ---------------------------------------------------------------- *)
(** *** The combined approach *)

Definition clusteredAddressesOf (updatedClusters : Clusters) : JsSet.t :=
  fold_left (fun s cluster => JsSet.add_all s cluster)
            (Obj.values updatedClusters) [].

Definition combinedClustering (transactions : list Transaction)
    (addresses : list Address) : result Clusters :=
  rethrow "Combined clustering failed: "
    (bind (commonInputClustering transactions) (fun inputClusters =>
     bind (changeAddressIdentification transactions inputClusters)
       (fun updatedClusters =>
     let clusteredAddresses := clusteredAddressesOf updatedClusters in
     let unclusteredAddresses :=
       filter (fun a => negb (JsSet.has clusteredAddresses a)) addresses in
     if (0 <? length unclusteredAddresses)%nat then
       bind (behavioralClustering transactions unclusteredAddresses)
         (fun behavioralClusters =>
            Ok (fold_left (fun o (entry : string * list Address) =>
                             Obj.set o (fst entry) (snd entry))
                          behavioralClusters updatedClusters))
     else Ok updatedClusters))).

End Clustering.


(* ================================================================== *)
(** ** The entity service (in-memory store) *)

(** The fields of an entity the pipeline reads or writes; the display
    balance and the creation and update times are left out. *)
Record Entity := {
  id : string;
  name : string;
  type : string;
  description : string;
  addresses : list Address;
  confidenceScore : Q;
}.

Module EntityService.

(** The module-level state: the [entities] array, the reverse index
    [addressToEntityMap], and how many identifiers were drawn so far. *)
Record Store := {
  entities : list Entity;
  addressToEntityMap : Obj.t string;
  uuidsDrawn : nat;
}.

Definition indexAddresses (m : Obj.t string) (l : list Address)
    (entityId : string) : Obj.t string :=
  fold_left (fun m a => Obj.set m (toLowerCase a) entityId) l m.

Definition mockEntities : list Entity :=
  [ {| id := "1"; name := "Binance"; type := "Exchange";
       description := "Major cryptocurrency exchange";
       addresses := ["0x3f5CE5FBFe3E9af3971dD833D26bA9b5C936f0bE";
                     "0xD551234Ae421e3BCBA99A0Da6d736074f22192FF"];
       confidenceScore := 0.95%Q |};
    {| id := "2"; name := "Coinbase"; type := "Exchange";
       description := "US-based cryptocurrency exchange";
       addresses := ["0x71660c4005BA85c37ccec55d0C4493E66Fe775d3";
                     "0x503828976D22510aad0201ac7EC88293211D23Da"];
       confidenceScore := 0.98%Q |};
    {| id := "3"; name := "Uniswap"; type := "DeFi Protocol";
       description := "Decentralized exchange protocol";
       addresses := ["0x1f9840a85d5aF5bf1D1762F925BDADdC4201F984";
                     "0x7a250d5630B4cF539739dF2C5dAcb4c659F2488D"];
       confidenceScore := 0.92%Q |} ].

(** The state right after the module is loaded. *)
Definition initialStore : Store :=
  {| entities := mockEntities;
     addressToEntityMap :=
       fold_left (fun m e => indexAddresses m (addresses e) (id e))
                 mockEntities [];
     uuidsDrawn := 0 |}.

Definition getEntities (st : Store) : result (list Entity) :=
  rethrow "Unable to fetch entities: " (Ok (entities st)).

Definition getEntityById (st : Store) (i : string) : result Entity :=
  rethrow "Unable to fetch entity: "
    (match find (fun e => String.eqb (id e) i) (entities st) with
     | Some e => Ok e
     | None => Throw ("Entity with ID " ++ i ++ " not found")
     end).

(** The promise of [getEntityById] is returned without [await], so its
    rejection is not seen by the [catch] of this function. *)
Definition findEntityForAddress (st : Store) (a : Address)
    : result (option Entity) :=
  let normalizedAddress := toLowerCase a in
  match Obj.get (addressToEntityMap st) normalizedAddress with
  | Some entityId =>
      if truthy entityId
      then bind (getEntityById st entityId) (fun e => Ok (Some e))
      else Ok None
  | None => Ok None
  end.

Section Create.
(** The identifier generator of the [uuid] package: the [n]-th value it
    hands out. *)
Variable uuidv4 : nat -> string.

Definition createEntity (st : Store) (name' type' description' : string)
    (addresses' : list Address) (confidenceScore' : Q)
    : result Entity * Store :=
  let id' := uuidv4 (uuidsDrawn st) in
  let newEntity :=
    {| id := id'; name := name'; type := type';
       description := description'; addresses := addresses';
       confidenceScore := if Qeq_bool confidenceScore' 0 then 0.5%Q
                          else confidenceScore' |} in
  (Ok newEntity,
   {| entities := entities st ++ [newEntity];
      addressToEntityMap :=
        indexAddresses (addressToEntityMap st) addresses' id';
      uuidsDrawn := S (uuidsDrawn st) |}).
End Create.

Fixpoint replaceEntity (i : string) (updated : Entity) (l : list Entity)
    : list Entity :=
  match l with
  | [] => []
  | e :: l' =>
      if String.eqb (id e) i then updated :: l'
      else e :: replaceEntity i updated l'
  end.

(** [updateEntity(id, { addresses })] *)
Definition updateEntity (st : Store) (i : string) (addresses' : list Address)
    : result Entity * Store :=
  match find (fun e => String.eqb (id e) i) (entities st) with
  | None =>
      (Throw ("Unable to update entity: Entity with ID " ++ i ++ " not found"),
       st)
  | Some e =>
      let updatedEntity :=
        {| id := i; name := name e; type := type e;
           description := description e; addresses := addresses';
           confidenceScore := confidenceScore e |} in
      let unmapped :=
        filter (fun kv : string * string => negb (String.eqb (snd kv) i))
               (addressToEntityMap st) in
      (Ok updatedEntity,
       {| entities := replaceEntity i updatedEntity (entities st);
          addressToEntityMap := indexAddresses unmapped addresses' i;
          uuidsDrawn := uuidsDrawn st |})
  end.

End EntityService.

(* ================================================================== *)
(** ** Entity attribution *)

(** A potential attribution: one address of a cluster found in the store. *)
Module Hit.
Record t := {
  entityId : string;
  entityName : string;
  entityType : string;
  matchedAddress : Address;
  confidenceBase : Q;
}.
End Hit.

(** The hits of one entity, as [calculateConsensusAttribution] groups them. *)
Module Group.
Record t := {
  entityId : string;
  entityName : string;
  entityType : string;
  attributions : list Hit.t;
  baseConfidence : Q;
}.
End Group.

Module Consensus.
Record t := {
  entityId : string;
  entityName : string;
  entityType : string;
  confidence : Q;
  matchedAddresses : list Address;
}.
End Consensus.

(** An entry of the map [attributeClusters] returns. *)
Module ClusterAttribution.
Record t := {
  entityId : option string;          (* [None] is [null] *)
  entityName : string;
  entityType : string;
  confidence : Q;
  addresses : list Address;
  matchedAddresses : list Address;
}.
End ClusterAttribution.

(** What [attributeAddress] returns. *)
Module AddressAttribution.
Record t := {
  entityId : option string;
  entityName : string;
  entityType : string;
  confidence : Q;
  attributionMethod : string;
  relatedAddresses : option (list Address);
  matchedAddresses : option (list Address);
}.
End AddressAttribution.

(** The entries of the three lists [updateEntitiesWithAttributions] fills. *)
Module Updated.
Record t := {
  clusterId : string;
  entityId : string;
  entityName : string;
  addressesAdded : list Address;
}.
End Updated.

Module Created.
Record t := {
  clusterId : string;
  entityId : string;
  entityName : string;
  addressCount : nat;
}.
End Created.

Module Skipped.
Record t := {
  clusterId : string;
  entityId : option string;
  reason : string;
  confidence : option Q;
  addressCount : option nat;
  error : option string;
}.
End Skipped.

Module UpdateResults.
Record t := {
  updated : list Updated.t;
  created : list Created.t;
  skipped : list Skipped.t;
}.
End UpdateResults.

Module Attribution.
Import EntityService.

Definition getInputAddresses (transaction : Transaction) : list Address :=
  match inputs transaction with
  | Some ins => map address ins
  | None => [from transaction]
  end.

Definition getOutputAddresses (transaction : Transaction) : list Address :=
  match outputs transaction with
  | Some outs => map address outs
  | None => [to transaction]
  end.

Definition hitOf (e : Entity) (a : Address) : Hit.t :=
  {| Hit.entityId := id e; Hit.entityName := name e; Hit.entityType := type e;
     Hit.matchedAddress := a; Hit.confidenceBase := confidenceScore e |}.

(** The first loop of [calculateConsensusAttribution]: one step of the
    grouping by entity id. *)
Definition groupStep (entityGroups : Obj.t Group.t) (attribution : Hit.t)
    : Obj.t Group.t :=
  let entityId := Hit.entityId attribution in
  let entityGroups' :=
    match Obj.get entityGroups entityId with
    | Some _ => entityGroups
    | None =>
        Obj.set entityGroups entityId
          {| Group.entityId := entityId;
             Group.entityName := Hit.entityName attribution;
             Group.entityType := Hit.entityType attribution;
             Group.attributions := [];
             Group.baseConfidence := Hit.confidenceBase attribution |}
    end in
  Obj.adjust
    (fun g => {| Group.entityId := Group.entityId g;
                 Group.entityName := Group.entityName g;
                 Group.entityType := Group.entityType g;
                 Group.attributions := Group.attributions g ++ [attribution];
                 Group.baseConfidence := Group.baseConfidence g |})
    entityGroups' entityId.

(** The second loop: the entity with the most hits, the first one met in
    enumeration order winning a tie. *)
Definition bestStep (best : option string * nat) (entry : string * Group.t)
    : option string * nat :=
  let count := length (Group.attributions (snd entry)) in
  if (snd best <? count)%nat then (Some (fst entry), count) else best.

Definition calculateConsensusAttribution (attributions : list Hit.t)
    (totalAddresses : nat) : result Consensus.t :=
  let entityGroups := fold_left groupStep attributions [] in
  let matchedAddresses := map Hit.matchedAddress attributions in
  let '(bestEntityId, bestCount) :=
    fold_left bestStep (Obj.for_in_order entityGroups) (None, 0) in
  match bestEntityId with
  | None =>
      (* [entityGroups[null]] is undefined *)
      Throw "Cannot read properties of undefined (reading 'baseConfidence')"
  | Some bestId =>
      match Obj.get entityGroups bestId with
      | None =>
          Throw "Cannot read properties of undefined (reading 'baseConfidence')"
      | Some bestEntity =>
          let baseConfidence := Group.baseConfidence bestEntity in
          let consensusStrength :=
            (Qnat bestCount / Qnat (length attributions))%Q in
          let confidence :=
            match totalAddresses with
            | O => 0.99%Q       (* a division by zero: [Infinity], capped *)
            | _ =>
                let coverageScore :=
                  (Qnat bestCount / Qnat totalAddresses)%Q in
                Qmin 0.99 (coverageScore * 0.3 + baseConfidence * 0.4
                           + consensusStrength * 0.3)%Q
            end in
          Ok {| Consensus.entityId := bestId;
                Consensus.entityName := Group.entityName bestEntity;
                Consensus.entityType := Group.entityType bestEntity;
                Consensus.confidence := confidence;
                Consensus.matchedAddresses := JsSet.of_list matchedAddresses |}
      end
  end.

(** The loop that looks every address up in the store and keeps the hits. *)
Definition collectHits (st : Store) (l : list Address) : result (list Hit.t) :=
  foldM (fun attributions a =>
           bind (findEntityForAddress st a) (fun entity =>
           match entity with
           | Some e => Ok (attributions ++ [hitOf e a])
           | None => Ok attributions
           end))
        l [].

Definition unknownCluster (clusterAddresses : list Address)
    : ClusterAttribution.t :=
  {| ClusterAttribution.entityId := None;
     ClusterAttribution.entityName := "Unknown";
     ClusterAttribution.entityType := "Unknown";
     ClusterAttribution.confidence := 0%Q;
     ClusterAttribution.addresses := clusterAddresses;
     ClusterAttribution.matchedAddresses := [] |}.

Definition attributeCluster (st : Store)
    (attributionResults : Obj.t ClusterAttribution.t)
    (entry : string * list Address) : result (Obj.t ClusterAttribution.t) :=
  let '(clusterId, clusterAddresses) := entry in
  bind (collectHits st clusterAddresses) (fun attributions =>
  if (0 <? length attributions)%nat then
    bind (calculateConsensusAttribution attributions
                                        (length clusterAddresses))
      (fun attribution =>
         Ok (Obj.set attributionResults clusterId
               {| ClusterAttribution.entityId :=
                    Some (Consensus.entityId attribution);
                  ClusterAttribution.entityName :=
                    Consensus.entityName attribution;
                  ClusterAttribution.entityType :=
                    Consensus.entityType attribution;
                  ClusterAttribution.confidence :=
                    Consensus.confidence attribution;
                  ClusterAttribution.addresses := clusterAddresses;
                  ClusterAttribution.matchedAddresses :=
                    Consensus.matchedAddresses attribution |}))
  else Ok (Obj.set attributionResults clusterId
                   (unknownCluster clusterAddresses))).

Definition attributeClusters (st : Store) (clusters : Clusters)
    : result (Obj.t ClusterAttribution.t) :=
  rethrow "Cluster attribution failed: "
    (bind (getEntities st) (fun _ =>
     foldM (attributeCluster st) (Obj.for_in_order clusters) [])).

(* ---------------------------------------------------------------- *)
(** *** A single address *)

Definition calculateBehavioralFeatures (a : Address)
    (transactions : list Transaction) : Clustering.Features :=
  {| Clustering.transactionCount := length transactions;
     Clustering.averageValue := 0%Q; Clustering.timePattern := [];
     Clustering.gasPriceAvg := 0%Q; Clustering.contractInteractions := [] |}.

Definition calculateInteractionScore (a : Address)
    (entityAddresses : list Address) (transactions : list Transaction) : Q :=
  let interactionCount :=
    fold_left
      (fun n tx =>
         if String.eqb (from tx) a && includes entityAddresses (to tx)
         then S n
         else if String.eqb (to tx) a && includes entityAddresses (from tx)
         then S n
         else n)
      transactions 0 in
  let interactionRatio :=
    if (0 <? length transactions)%nat
    then (Qnat interactionCount / Qnat (length transactions))%Q
    else 0%Q in
  Qmin 0.95 (interactionRatio * 1.5)%Q.

Definition behaviorStep (a : Address) (transactions : list Transaction)
    (best : option Entity * Q) (entity : Entity) : option Entity * Q :=
  let entityAddresses := addresses entity in
  match entityAddresses with
  | [] => best
  | _ =>
      let interactionScore :=
        calculateInteractionScore a entityAddresses transactions in
      let patternScore := 0.3%Q in
      let score := (interactionScore * 0.7 + patternScore * 0.3)%Q in
      if Qltb (snd best) score && Qltb 0.5 score
      then (Some entity, score) else best
  end.

(** [None] is the [null] the function returns when no entity matches. *)
Definition attributeByBehavior (st : Store) (a : Address)
    (transactions : list Transaction)
    : result (option AddressAttribution.t) :=
  rethrow "Behavioral attribution failed: "
    (bind (getEntities st) (fun entities =>
     let addressFeatures := calculateBehavioralFeatures a transactions in
     match fold_left (behaviorStep a transactions) entities (None, 0%Q) with
     | (Some bestMatchEntity, bestMatchScore) =>
         (* the object returned here has no [attributionMethod] yet *)
       Ok (Some {| AddressAttribution.entityId := Some (id bestMatchEntity);
                     AddressAttribution.entityName := name bestMatchEntity;
                     AddressAttribution.entityType := type bestMatchEntity;
                     AddressAttribution.confidence := bestMatchScore;
                     AddressAttribution.attributionMethod := "";
                     AddressAttribution.relatedAddresses := None;
                     AddressAttribution.matchedAddresses := None |})
     | (None, _) => Ok None
     end)).

Definition unknownAddress : AddressAttribution.t :=
  {| AddressAttribution.entityId := None;
     AddressAttribution.entityName := "Unknown";
     AddressAttribution.entityType := "Unknown";
     AddressAttribution.confidence := 0%Q;
     AddressAttribution.attributionMethod := "none";
     AddressAttribution.relatedAddresses := None;
     AddressAttribution.matchedAddresses := None |}.

(** Step 3 of [attributeAddress]: the other members of the first cluster
    that holds the address. *)
Definition relatedAddressesOf (a : Address)
    (addressTransactions : list Transaction) : result (list Address) :=
  if (0 <? length addressTransactions)%nat then
    let addresses :=
      fold_left
        (fun s tx =>
           JsSet.add_all s (getInputAddresses tx ++ getOutputAddresses tx))
        addressTransactions [] in
    bind (Clustering.combinedClustering addressTransactions addresses)
      (fun clusters =>
         match find (fun entry : string * list Address =>
                       includes (snd entry) a)
                    (Obj.for_in_order clusters) with
         | Some entry =>
             Ok (filter (fun addr => negb (String.eqb addr a)) (snd entry))
         | None => Ok []
         end)
  else Ok [].

Definition attributeAddress (st : Store) (a : Address)
    (transactions : list Transaction) : result AddressAttribution.t :=
  rethrow "Address attribution failed: "
    (bind (findEntityForAddress st a) (fun knownEntity =>
     match knownEntity with
     | Some e =>
         Ok {| AddressAttribution.entityId := Some (id e);
               AddressAttribution.entityName := name e;
               AddressAttribution.entityType := type e;
               AddressAttribution.confidence := confidenceScore e;
               AddressAttribution.attributionMethod := "direct_match";
               AddressAttribution.relatedAddresses := None;
               AddressAttribution.matchedAddresses := None |}
     | None =>
         let addressTransactions := transactions in
         bind (relatedAddressesOf a addressTransactions)
           (fun relatedAddresses =>
         bind (collectHits st relatedAddresses) (fun attributions =>
         if (0 <? length attributions)%nat then
           bind (calculateConsensusAttribution attributions
                                               (length relatedAddresses))
             (fun attribution =>
                Ok {| AddressAttribution.entityId :=
                        Some (Consensus.entityId attribution);
                      AddressAttribution.entityName :=
                        Consensus.entityName attribution;
                      AddressAttribution.entityType :=
                        Consensus.entityType attribution;
                      AddressAttribution.confidence :=
                        Consensus.confidence attribution;
                      AddressAttribution.attributionMethod :=
                        "cluster_analysis";
                      AddressAttribution.relatedAddresses :=
                        Some relatedAddresses;
                      AddressAttribution.matchedAddresses :=
                        Some (Consensus.matchedAddresses attribution) |})
         else
           bind (attributeByBehavior st a addressTransactions)
             (fun behavioralAttribution =>
                match behavioralAttribution with
                | Some b =>
                    if Qltb 0.5 (AddressAttribution.confidence b) then
                      Ok {| AddressAttribution.entityId :=
                              AddressAttribution.entityId b;
                            AddressAttribution.entityName :=
                              AddressAttribution.entityName b;
                            AddressAttribution.entityType :=
                              AddressAttribution.entityType b;
                            AddressAttribution.confidence :=
                              AddressAttribution.confidence b;
                            AddressAttribution.attributionMethod :=
                              "behavioral_analysis";
                            AddressAttribution.relatedAddresses := None;
                            AddressAttribution.matchedAddresses := None |}
                    else Ok unknownAddress
                | None => Ok unknownAddress
                end)))
     end)).

(* ---------------------------------------------------------------- *)
(** *** Proposing updates of the store *)

Definition pushUpdated (r : UpdateResults.t) (x : Updated.t) :=
  {| UpdateResults.updated := UpdateResults.updated r ++ [x];
     UpdateResults.created := UpdateResults.created r;
     UpdateResults.skipped := UpdateResults.skipped r |}.
Definition pushCreated (r : UpdateResults.t) (x : Created.t) :=
  {| UpdateResults.updated := UpdateResults.updated r;
     UpdateResults.created := UpdateResults.created r ++ [x];
     UpdateResults.skipped := UpdateResults.skipped r |}.
Definition pushSkipped (r : UpdateResults.t) (x : Skipped.t) :=
  {| UpdateResults.updated := UpdateResults.updated r;
     UpdateResults.created := UpdateResults.created r;
     UpdateResults.skipped := UpdateResults.skipped r ++ [x] |}.

Definition skip (clusterId : string) (entityId : option string)
    (reason : string) (confidence : option Q) (addressCount : option nat)
    (error : option string) : Skipped.t :=
  {| Skipped.clusterId := clusterId; Skipped.entityId := entityId;
     Skipped.reason := reason; Skipped.confidence := confidence;
     Skipped.addressCount := addressCount; Skipped.error := error |}.

Section Update.
Variable uuidv4 : nat -> string.

(** The [try] block that extends a known entity. *)
Definition extendEntity (st : Store) (updateResults : UpdateResults.t)
    (clusterId entityId : string) (attribution : ClusterAttribution.t)
    : UpdateResults.t * Store :=
  match getEntityById st entityId with
  | Throw m =>
      (pushSkipped updateResults
         (skip clusterId (Some entityId) "update_error" None None (Some m)),
       st)
  | Ok entity =>
      let newAddresses :=
        filter (fun addr => negb (includes (addresses entity) addr))
               (ClusterAttribution.addresses attribution) in
      match newAddresses with
      | [] =>
          (pushSkipped updateResults
             (skip clusterId (Some entityId) "no_new_addresses"
                   None None None),
           st)
      | _ =>
          match updateEntity st entityId
                  (addresses entity ++ newAddresses) with
          | (Ok updatedEntity, st') =>
              (pushUpdated updateResults
                 {| Updated.clusterId := clusterId;
                    Updated.entityId := entityId;
                    Updated.entityName := name updatedEntity;
                    Updated.addressesAdded := newAddresses |},
               st')
          | (Throw m, st') =>
              (pushSkipped updateResults
                 (skip clusterId (Some entityId) "update_error"
                       None None (Some m)),
               st')
          end
      end
  end.

(** The branches taken when the attribution names no entity. *)
Definition createOrSkip (st : Store) (updateResults : UpdateResults.t)
    (clusterId : string) (attribution : ClusterAttribution.t)
    : UpdateResults.t * Store :=
  let members := ClusterAttribution.addresses attribution in
  if (3 <=? length members)%nat then
    match createEntity uuidv4 st ("Cluster " ++ clusterId) "Unknown"
            "Automatically identified address cluster" members 0.6%Q with
    | (Ok newEntity, st') =>
        (pushCreated updateResults
           {| Created.clusterId := clusterId;
              Created.entityId := id newEntity;
              Created.entityName := name newEntity;
              Created.addressCount := length members |},
         st')
    | (Throw m, st') =>
        (pushSkipped updateResults
           (skip clusterId None "creation_error" None None (Some m)),
         st')
    end
  else
    (pushSkipped updateResults
       (skip clusterId None "small_unattributed_cluster" None
             (Some (length members)) None),
     st).

(** The body of [for (const clusterId in attributionResults)]. *)
Definition updateStep (confidenceThreshold : Q)
    (acc : UpdateResults.t * Store) (entry : string * ClusterAttribution.t)
    : UpdateResults.t * Store :=
  let '(updateResults, st) := acc in
  let '(clusterId, attribution) := entry in
  if Qltb (ClusterAttribution.confidence attribution) confidenceThreshold
  then
    (pushSkipped updateResults
       (skip clusterId None "low_confidence"
             (Some (ClusterAttribution.confidence attribution)) None None),
     st)
  else
    match ClusterAttribution.entityId attribution with
    | Some entityId =>
        if truthy entityId
        then extendEntity st updateResults clusterId entityId attribution
        else createOrSkip st updateResults clusterId attribution
    | None => createOrSkip st updateResults clusterId attribution
    end.

Definition emptyUpdateResults : UpdateResults.t :=
  {| UpdateResults.updated := []; UpdateResults.created := [];
     UpdateResults.skipped := [] |}.

(** [confidenceThreshold] is [0.8] when the caller leaves it out. *)
Definition updateEntitiesWithAttributions (st : Store)
    (attributionResults : Obj.t ClusterAttribution.t)
    (confidenceThreshold : option Q) : result UpdateResults.t * Store :=
  let threshold := match confidenceThreshold with
                   | Some q => q
                   | None => 0.8%Q
                   end in
  let '(updateResults, st') :=
    fold_left (updateStep threshold)
              (Obj.for_in_order attributionResults)
              (emptyUpdateResults, st) in
  (rethrow "Entity update failed: " (Ok updateResults), st').
End Update.

End Attribution.

(* ================================================================== *)
(** ** The identification orchestrator *)

(** The values an option of a call can hold. *)
Inductive JsValue :=
| JsUndefined
| JsNull
| JsBool (b : bool)
| JsNumber (q : Q)
| JsString (s : string).

(** [v !== false] *)
Definition notStrictlyFalse (v : JsValue) : bool :=
  match v with
  | JsBool false => false
  | _ => true
  end.

Record Options := {
  updateEntities : JsValue;
  confidenceThreshold : option Q;     (* [None]: the option is left out *)
  performAnalysis : JsValue;
}.

Definition noOptions : Options :=
  {| updateEntities := JsUndefined; confidenceThreshold := None;
     performAnalysis := JsUndefined |}.

(** What [identifyAddressEntity] returns. *)
Module AddressIdentification.
Record t := {
  address : Address;
  entityId : option string;
  entityName : string;
  entityType : string;
  confidence : Q;
  method : string;
  analysisPerformed : bool;
  transactionsAnalyzed : option nat;
  relatedAddresses : option (list Address);
  matchedAddresses : option (list Address);
}.
End AddressIdentification.

Module Identification.
Import EntityService.

Record IdentificationResult := {
  transactionCount : nat;
  addressCount : nat;
  clusterCount : nat;
  clusters : Clusters;
  attributions : Obj.t ClusterAttribution.t;
  updates : option UpdateResults.t;      (* [None] is [null] *)
}.

Definition addIfTruthy (s : JsSet.t) (a : Address) : JsSet.t :=
  if truthy a then JsSet.add s a else s.

Definition extractUniqueAddresses (transactions : list Transaction)
    : list Address :=
  fold_left
    (fun addressSet tx =>
       let s1 := addIfTruthy addressSet (from tx) in
       let s2 := addIfTruthy s1 (to tx) in
       let s3 := match inputs tx with
                 | Some ins => fold_left addIfTruthy (map address ins) s2
                 | None => s2
                 end in
       match outputs tx with
       | Some outs => fold_left addIfTruthy (map address outs) s3
       | None => s3
       end)
    transactions [].

Section Orchestrator.
Variable uuidv4 : nat -> string.

Definition identifyEntitiesFromTransactions (st : Store)
    (transactions : list Transaction) (options : Options)
    : result IdentificationResult * Store :=
  let addresses := extractUniqueAddresses transactions in
  match Clustering.combinedClustering transactions addresses with
  | Throw m => (Throw ("Entity identification failed: " ++ m), st)
  | Ok clusters =>
      let clusterCount := length (Obj.keys clusters) in
      match Attribution.attributeClusters st clusters with
      | Throw m => (Throw ("Entity identification failed: " ++ m), st)
      | Ok attributionResults =>
          let shouldUpdateEntities :=
            notStrictlyFalse (updateEntities options) in
          let finish updateResults :=
            {| transactionCount := length transactions;
               addressCount := length addresses;
               clusterCount := clusterCount;
               clusters := clusters;
               attributions := attributionResults;
               updates := updateResults |} in
          if shouldUpdateEntities then
            let confidenceThreshold :=
              match confidenceThreshold options with
              | Some q => if Qeq_bool q 0 then 0.8%Q else q
              | None => 0.8%Q
              end in
            match Attribution.updateEntitiesWithAttributions uuidv4 st
                    attributionResults (Some confidenceThreshold) with
            | (Ok updateResults, st') =>
                (Ok (finish (Some updateResults)), st')
            | (Throw m, st') =>
                (Throw ("Entity identification failed: " ++ m), st')
            end
          else (Ok (finish None), st)
      end
  end.
End Orchestrator.


Definition identifyAddressEntity (st : Store) (a : Address)
    (options : Options) : result AddressIdentification.t :=
  rethrow "Address entity identification failed: "
    (bind (findEntityForAddress st a) (fun knownEntity =>
     match knownEntity with
     | Some e =>
         Ok {| AddressIdentification.address := a;
               AddressIdentification.entityId := Some (id e);
               AddressIdentification.entityName := name e;
               AddressIdentification.entityType := type e;
               AddressIdentification.confidence := confidenceScore e;
               AddressIdentification.method := "existing_entry";
               AddressIdentification.analysisPerformed := false;
               AddressIdentification.transactionsAnalyzed := None;
               AddressIdentification.relatedAddresses := None;
               AddressIdentification.matchedAddresses := None |}
     | None =>
         if notStrictlyFalse (performAnalysis options) then
           let transactions : list Transaction := [] in
           bind (Attribution.attributeAddress st a transactions)
             (fun attribution =>
                Ok {| AddressIdentification.address := a;
                      AddressIdentification.entityId :=
                        AddressAttribution.entityId attribution;
                      AddressIdentification.entityName :=
                        AddressAttribution.entityName attribution;
                      AddressIdentification.entityType :=
                        AddressAttribution.entityType attribution;
                      AddressIdentification.confidence :=
                        AddressAttribution.confidence attribution;
                      AddressIdentification.method :=
                        AddressAttribution.attributionMethod attribution;
                      AddressIdentification.analysisPerformed := true;
                      AddressIdentification.transactionsAnalyzed :=
                        Some (length transactions);
                      AddressIdentification.relatedAddresses :=
                        AddressAttribution.relatedAddresses attribution;
                      AddressIdentification.matchedAddresses :=
                        AddressAttribution.matchedAddresses attribution |})
         else
           Ok {| AddressIdentification.address := a;
                 AddressIdentification.entityId := None;
                 AddressIdentification.entityName := "Unknown";
                 AddressIdentification.entityType := "Unknown";
                 AddressIdentification.confidence := 0%Q;
                 AddressIdentification.method := "none";
                 AddressIdentification.analysisPerformed := false;
                 AddressIdentification.transactionsAnalyzed := None;
                 AddressIdentification.relatedAddresses := None;
                 AddressIdentification.matchedAddresses := None |}
     end)).

End Identification.

(* ================================================================== *)
(** ** Risk scoring *)

(** The part of the identification the risk scorer reads. *)
Module EntityInfo.
Record t := {
  entityId : option string;
  entityName : string;
  entityType : string;
  confidence : Q;
}.
End EntityInfo.

Module RiskFactor.
Record t := {
  score : Q;
  description : string;
}.
End RiskFactor.

Module SignificantFactor.
Record t := {
  type : string;
  score : Q;
  description : string;
}.
End SignificantFactor.

Module RiskAssessment.
Record t := {
  address : Address;
  entityId : option string;
  entityName : string;
  entityType : string;
  riskScore : Q;
  riskLevel : string;
  riskFactors : list SignificantFactor.t;
  transactionCount : nat;
}.
End RiskAssessment.

Module Risk.
Import EntityService.

Definition RISK_WEIGHTS : Obj.t Q :=
  [ ("mixerInteraction", 0.8%Q); ("sanctionedEntity", 0.9%Q);
    ("darknetInteraction", 0.7%Q); ("highRiskExchange", 0.6%Q);
    ("unusualActivityPattern", 0.5%Q); ("newAddress", 0.4%Q);
    ("highValueTransfers", 0.5%Q); ("rapidFundMovement", 0.6%Q);
    ("manyHops", 0.4%Q); ("lowTransparencyEntity", 0.5%Q) ].

Definition ENTITY_TYPE_RISK : Obj.t Q :=
  [ ("Mixer", 0.9%Q); ("DarknetMarket", 0.9%Q); ("Sanctioned", 1.0%Q);
    ("HighRiskExchange", 0.7%Q); ("Exchange", 0.2%Q);
    ("DeFi Protocol", 0.3%Q); ("Token", 0.2%Q); ("Wallet", 0.2%Q);
    ("Unknown", 0.5%Q) ].

(** [table.key] for a key the table declares. *)
Definition field (table : Obj.t Q) (k : string) : Q :=
  match Obj.get table k with
  | Some q => q
  | None => 0%Q
  end.

Definition hasMixerInteractions (a : Address) (txs : list Transaction) := false.
Definition hasDarknetInteractions (a : Address) (txs : list Transaction) := false.
Definition hasUnusualActivityPattern (a : Address) (txs : list Transaction) := false.
Definition hasHighValueTransfers (a : Address) (txs : list Transaction) := false.
Definition hasRapidFundMovement (a : Address) (txs : list Transaction) := false.
Definition hasManyHops (a : Address) (txs : list Transaction) := false.

(** [now] is the value of [Date.now()]. *)
Definition isNewAddress (now : Z) (a : Address) (transactions : list Transaction)
    : bool :=
  match transactions with
  | [] => true
  | _ =>
      let firstTx :=
        fold_left
          (fun earliest tx =>
             match earliest with
             | None => Some (timestamp tx)
             | Some e => if (timestamp tx <? e)%Z then Some (timestamp tx)
                         else Some e
             end)
          transactions None in
      match firstTx with
      | None => true
      | Some first =>
          let ageInDays :=
            (inject_Z (now - first) / inject_Z (1000 * 60 * 60 * 24))%Q in
          Qltb ageInDays 30
      end
  end.

Definition isLowTransparencyEntity (entityInfo : EntityInfo.t) : bool :=
  String.eqb (EntityInfo.entityType entityInfo) "Unknown"
  || Qltb (EntityInfo.confidence entityInfo) 0.3.

Definition factor (k description : string) : string * RiskFactor.t :=
  (k, {| RiskFactor.score := field RISK_WEIGHTS k;
         RiskFactor.description := description |}).

(** [if (c) factors[k] = { ... }] *)
Definition addFactor (c : bool) (k description : string)
    (factors : Obj.t RiskFactor.t) : Obj.t RiskFactor.t :=
  if c then Obj.set factors k (snd (factor k description)) else factors.

Definition detectRiskFactors (now : Z) (a : Address)
    (transactions : list Transaction) (entityInfo : EntityInfo.t)
    : Obj.t RiskFactor.t :=
  let ty := EntityInfo.entityType entityInfo in
  let f0 : Obj.t RiskFactor.t := [] in
  let f1 := addFactor (String.eqb ty "Mixer"
                       || hasMixerInteractions a transactions)
              "mixerInteraction"
              "Interaction with cryptocurrency mixing services detected" f0 in
  let f2 := addFactor (String.eqb ty "Sanctioned")
              "sanctionedEntity" "Address belongs to a sanctioned entity" f1 in
  let f3 := addFactor (String.eqb ty "DarknetMarket"
                       || hasDarknetInteractions a transactions)
              "darknetInteraction"
              "Interaction with darknet markets detected" f2 in
  let f4 := addFactor (String.eqb ty "HighRiskExchange")
              "highRiskExchange"
              "Address belongs to a high-risk exchange with weak KYC" f3 in
  let f5 := addFactor (hasUnusualActivityPattern a transactions)
              "unusualActivityPattern"
              "Unusual transaction patterns detected" f4 in
  let f6 := addFactor (isNewAddress now a transactions)
              "newAddress"
              "Recently created address with limited history" f5 in
  let f7 := addFactor (hasHighValueTransfers a transactions)
              "highValueTransfers" "High-value transfers detected" f6 in
  let f8 := addFactor (hasRapidFundMovement a transactions)
              "rapidFundMovement"
              "Rapid movement of funds through multiple addresses" f7 in
  let f9 := addFactor (hasManyHops a transactions)
              "manyHops"
              "Funds moving through many hops in short timeframe" f8 in
  addFactor (isLowTransparencyEntity entityInfo)
    "lowTransparencyEntity"
    "Associated with entity having low transparency" f9.

(** [Array.prototype.sort((a, b) => b.score - a.score)]: a stable sort by
    descending score. *)
Fixpoint insertByScore (x : SignificantFactor.t)
    (l : list SignificantFactor.t) : list SignificantFactor.t :=
  match l with
  | [] => [x]
  | y :: l' =>
      if Qle_bool (SignificantFactor.score y) (SignificantFactor.score x)
      then x :: l
      else y :: insertByScore x l'
  end.

Definition sortByScore (l : list SignificantFactor.t)
    : list SignificantFactor.t :=
  fold_right insertByScore [] l.

Definition entityTypeRiskOf (entityInfo : EntityInfo.t) : Q :=
  let unknown := field ENTITY_TYPE_RISK "Unknown" in
  if truthy (EntityInfo.entityType entityInfo) then
    match Obj.get ENTITY_TYPE_RISK (EntityInfo.entityType entityInfo) with
    | Some r => if Qeq_bool r 0 then unknown else r
    | None => unknown
    end
  else unknown.

Definition calculateRiskScore (riskFactors : Obj.t RiskFactor.t)
    (entityInfo : EntityInfo.t) : Q * list SignificantFactor.t :=
  let entityTypeRisk := entityTypeRiskOf entityInfo in
  let score0 :=
    Qmin 0.7 (entityTypeRisk * EntityInfo.confidence entityInfo)%Q in
  let factorCount := length (Obj.keys riskFactors) in
  let '(factorScore, maxFactorScore) :=
    fold_left
      (fun (acc : Q * Q) (entry : string * RiskFactor.t) =>
         let s := RiskFactor.score (snd entry) in
         ((fst acc + s)%Q, if Qltb (snd acc) s then s else snd acc))
      riskFactors (0%Q, 0%Q) in
  let normalizedFactorScore :=
    if (0 <? factorCount)%nat
    then ((factorScore / Qnat factorCount) * 0.7
          + maxFactorScore * 0.3)%Q
    else 0%Q in
  let score1 := (score0 + (1 - score0) * normalizedFactorScore)%Q in
  let score := Qmin 0.95 score1 in
  let significantFactors :=
    sortByScore
      (map (fun entry : string * RiskFactor.t =>
              {| SignificantFactor.type := fst entry;
                 SignificantFactor.score := RiskFactor.score (snd entry);
                 SignificantFactor.description :=
                   RiskFactor.description (snd entry) |})
           riskFactors) in
  (score, significantFactors).

Definition riskLevelFromScore (score : Q) : string :=
  if Qle_bool 0.8 score then "Very High"
  else if Qle_bool 0.6 score then "High"
  else if Qle_bool 0.4 score then "Medium"
  else if Qle_bool 0.2 score then "Low"
  else "Very Low".

Definition unknownEntityInfo : EntityInfo.t :=
  {| EntityInfo.entityId := None; EntityInfo.entityName := "Unknown";
     EntityInfo.entityType := "Unknown"; EntityInfo.confidence := 0%Q |}.

Definition entityInfoOf (r : AddressIdentification.t) : EntityInfo.t :=
  {| EntityInfo.entityId := AddressIdentification.entityId r;
     EntityInfo.entityName := AddressIdentification.entityName r;
     EntityInfo.entityType := AddressIdentification.entityType r;
     EntityInfo.confidence := AddressIdentification.confidence r |}.

(** Step 1 of [calculateAddressRisk], with its own [try]/[catch]. *)
Definition resolveEntityInfo (st : Store) (a : Address) : EntityInfo.t :=
  match Identification.identifyAddressEntity st a
          {| updateEntities := JsUndefined; confidenceThreshold := None;
             performAnalysis := JsBool true |} with
  | Ok r => entityInfoOf r
  | Throw _ => unknownEntityInfo
  end.

Definition calculateAddressRisk (now : Z) (st : Store) (a : Address)
    : result RiskAssessment.t :=
  rethrow "Risk scoring failed: "
    (let entityInfo := resolveEntityInfo st a in
     let transactions : list Transaction := [] in
     let riskFactors := detectRiskFactors now a transactions entityInfo in
     let riskDetails := calculateRiskScore riskFactors entityInfo in
     Ok {| RiskAssessment.address := a;
           RiskAssessment.entityId := EntityInfo.entityId entityInfo;
           RiskAssessment.entityName := EntityInfo.entityName entityInfo;
           RiskAssessment.entityType := EntityInfo.entityType entityInfo;
           RiskAssessment.riskScore := fst riskDetails;
           RiskAssessment.riskLevel := riskLevelFromScore (fst riskDetails);
           RiskAssessment.riskFactors := snd riskDetails;
           RiskAssessment.transactionCount := length transactions |}).

End Risk.


(* ================================================================== *)
(** ** Pattern detection *)

(** Of a detected pattern the embedding keeps the confidence; the
    description and the supporting statistics are left out. *)
Module Pattern.
Record t := { confidence : Q }.
End Pattern.

Module PatternReport.
Record t := {
  address : Address;
  patternCount : nat;
  patterns : Obj.t (Obj.t Pattern.t);
}.
End PatternReport.

Module Patterns.

Definition calculateConfidence (patternStrength sampleSize : nat) : Q :=
  let sizeFactor := Qmin 1 (Qnat sampleSize / 20)%Q in
  let strengthFactor := Qmin 1 (Qnat patternStrength / 10)%Q in
  Qmin 0.95 (sizeFactor * 0.6 + strengthFactor * 0.4)%Q.

(** [if (c) patterns[k] = { ..., confidence }] *)
Definition addPattern (c : bool) (k : string) (confidence : Q)
    (patterns : Obj.t Pattern.t) : Obj.t Pattern.t :=
  if c then Obj.set patterns k {| Pattern.confidence := confidence |}
  else patterns.

(** [l.reduce((sum, val) => sum + val, 0)] *)
Definition sum (l : list Q) : Q := fold_left Qplus l 0%Q.

(** [l.reduce((sum, val) => sum + Math.pow(val - mean, 2), 0) / n]: the
    square of the standard deviation the source takes the root of. *)
Definition variance (l : list Q) (mean : Q) (n : nat) : Q :=
  (fold_left (fun s v => s + (v - mean) * (v - mean)) l 0 / Qnat n)%Q.

(** [value > mean + k * Math.sqrt(variance)], with [kSquared] for [k * k]:
    as the root is not negative, the test holds exactly when [value - mean]
    is positive and its square exceeds [k * k * variance]. *)
Definition aboveSigma (kSquared v mean var : Q) : bool :=
  Qltb 0 (v - mean) && Qltb (kSquared * var) ((v - mean) * (v - mean)).

(** [new Date(t).getUTCHours()] and [getUTCDay()] for a time in milliseconds
    since the epoch, which began on a Thursday. *)
Definition getUTCHours (t : Z) : nat := Z.to_nat ((t / 3600000) mod 24).
Definition getUTCDay (t : Z) : nat := Z.to_nat ((t / 86400000 + 4) mod 7).

(** [distribution[i]++] *)
Fixpoint increment (l : list nat) (i : nat) : list nat :=
  match l, i with
  | [], _ => []
  | c :: l', O => S c :: l'
  | c :: l', S i' => c :: increment l' i'
  end.

(** The indices of the bins that stand out of a distribution of counts. *)
Definition outstanding (kSquared : Q) (distribution : list nat) (totalTx : nat)
    : list nat :=
  let bins := length distribution in
  let normalized := map (fun c => (Qnat c / Qnat totalTx)%Q) distribution in
  let mean := (sum normalized / Qnat bins)%Q in
  let var := variance normalized mean bins in
  map fst
    (filter (fun iv : nat * Q => aboveSigma kSquared (snd iv) mean var)
            (combine (seq 0 bins) normalized)).

Definition detectActivityTimingPatterns (a : Address)
    (transactions : list Transaction) : Obj.t Pattern.t :=
  let hourDistribution :=
    fold_left (fun d tx => increment d (getUTCHours (timestamp tx)))
              transactions (repeat 0 24) in
  let dayOfWeekDistribution :=
    fold_left (fun d tx => increment d (getUTCDay (timestamp tx)))
              transactions (repeat 0 7) in
  let totalTx := length transactions in
  let peakHours := outstanding 4 hourDistribution totalTx in
  let activeDays := outstanding 2.25 dayOfWeekDistribution totalTx in
  let p1 := addPattern (0 <? length peakHours)%nat "peakHours"
              (calculateConfidence (length peakHours) totalTx) [] in
  addPattern (0 <? length activeDays)%nat "activeDays"
    (calculateConfidence (length activeDays) totalTx) p1.

(** [[...values].sort((a, b) => a - b)] *)
Fixpoint insertAscending (x : Q) (l : list Q) : list Q :=
  match l with
  | [] => [x]
  | y :: l' => if Qltb x y then x :: l else y :: insertAscending x l'
  end.

Definition sortAscending (l : list Q) : list Q :=
  fold_right insertAscending [] l.

(** [value === Math.round(value)] *)
Definition isRound (v : Q) : bool := (Qnum v mod Zpos (Qden v) =? 0)%Z.

(** The key [value.toFixed(8)] denotes: the sign and the number of 1e-8
    units nearest to the absolute value, a tie going up. *)
Definition toFixed8 (v : Q) : bool * Z :=
  let negative := Qltb v 0 in
  let x := if negative then (- v)%Q else v in
  (negative, Qfloor (x * 100000000 + (1 # 2))%Q).

(** [counts[k] = (counts[k] || 0) + 1] on a dictionary of counters. *)
Fixpoint bump {K} (eqb : K -> K -> bool) (k : K) (counts : list (K * nat))
    : list (K * nat) :=
  match counts with
  | [] => [(k, 1)]
  | (k', n) :: counts' =>
      if eqb k k' then (k', S n) :: counts' else (k', n) :: bump eqb k counts'
  end.

Definition atLeast3 {K} (counts : list (K * nat)) : list (K * nat) :=
  filter (fun kc => (3 <=? snd kc)%nat) counts.

Definition eqbKey (k k' : bool * Z) : bool :=
  Bool.eqb (fst k) (fst k') && (snd k =? snd k')%Z.

Definition detectValueDistributionPatterns (a : Address)
    (transactions : list Transaction) : Obj.t Pattern.t :=
  let values := map value transactions in
  let sortedValues := sortAscending values in
  let roundValueCounts :=
    fold_left (fun counts v =>
                 if isRound v then bump Z.eqb (Qfloor v) counts else counts)
              values [] in
  let significantRoundValues := atLeast3 roundValueCounts in
  let p1 := addPattern (0 <? length significantRoundValues)%nat "roundValues"
              (calculateConfidence (length significantRoundValues)
                                   (length values)) [] in
  let exactValueCounts :=
    fold_left (fun counts v =>
                 if isRound v then counts else bump eqbKey (toFixed8 v) counts)
              values [] in
  let significantExactValues := atLeast3 exactValueCounts in
  let p2 := addPattern (0 <? length significantExactValues)%nat
              "recurringValues"
              (calculateConfidence (length significantExactValues)
                                   (length values)) p1 in
  match sortedValues with
  | [] => p2                             (* [min] and [max] are undefined *)
  | min :: _ =>
      let max := last sortedValues min in
      addPattern (Qltb (min * 100) max) "wideValueRange" 0.7%Q p2
  end.

(** [[...entries].sort((a, b) => b.count - a.count)], a stable sort. *)
Fixpoint insertByCount {K} (x : K * nat) (l : list (K * nat)) : list (K * nat) :=
  match l with
  | [] => [x]
  | y :: l' =>
      if (snd y <=? snd x)%nat then x :: l else y :: insertByCount x l'
  end.

Definition sortByCount {K} (l : list (K * nat)) : list (K * nat) :=
  fold_right insertByCount [] l.

(** [counts[k] = (counts[k] || 0) + 1] on an object keyed by addresses. *)
Definition bumpObj (counts : Obj.t nat) (k : string) : Obj.t nat :=
  match Obj.get counts k with
  | Some n => Obj.set counts k (S n)
  | None => Obj.set counts k 1
  end.

Definition detectCounterpartyPatterns (a : Address)
    (transactions : list Transaction) : Obj.t Pattern.t :=
  let counterpartyCounts :=
    fold_left (fun counts tx =>
                 let counterparty :=
                   if String.eqb (from tx) a then to tx else from tx in
                 bumpObj counts counterparty)
              transactions [] in
  let frequentCounterparties :=
    firstn 5 (sortByCount (atLeast3 (Obj.for_in_order counterpartyCounts))) in
  let p1 := addPattern (0 <? length frequentCounterparties)%nat
              "frequentCounterparties"
              (calculateConfidence (length frequentCounterparties)
                                   (length transactions)) [] in
  let oneTimeCount :=
    length (filter (fun c => (c =? 1)%nat) (Obj.values counterpartyCounts)) in
  let distinct := length (Obj.keys counterpartyCounts) in
  let oneTimePercentage := (Qnat oneTimeCount / Qnat distinct * 100)%Q in
  addPattern (Qltb 80 oneTimePercentage && (10 <? distinct)%nat)
    "manyOneTimeInteractions" 0.7%Q p1.

(** Timestamps in ascending order, as the sort by date leaves them. *)
Fixpoint insertTime (t : Z) (l : list Z) : list Z :=
  match l with
  | [] => [t]
  | u :: l' => if (t <? u)%Z then t :: l else u :: insertTime t l'
  end.

(** The gaps between consecutive times, in hours. *)
Fixpoint intervalsOf (l : list Z) : list Q :=
  match l with
  | prev :: (curr :: _) as l' =>
      (inject_Z (curr - prev) / inject_Z (1000 * 60 * 60))%Q :: intervalsOf l'
  | _ => []
  end.

Definition within (lo hi : Q) (l : list Q) : list Q :=
  filter (fun i => Qle_bool lo i && Qle_bool i hi) l.

Definition detectPeriodicPatterns (a : Address)
    (transactions : list Transaction) : Obj.t Pattern.t :=
  let sortedTimes := fold_right insertTime [] (map timestamp transactions) in
  let intervals := intervalsOf sortedTimes in
  if (length intervals <? 5)%nat then []
  else
    let share (l : list Q) := (Qnat (length l) / Qnat (length intervals))%Q in
    let dailyIntervals := within 23 25 intervals in
    let p1 := addPattern ((3 <=? length dailyIntervals)%nat
                          && Qle_bool 0.3 (share dailyIntervals))
                "dailyActivity"
                (calculateConfidence (length dailyIntervals) (length intervals))
                [] in
    let weeklyIntervals := within 163 173 intervals in
    let p2 := addPattern ((3 <=? length weeklyIntervals)%nat
                          && Qle_bool 0.2 (share weeklyIntervals))
                "weeklyActivity"
                (calculateConfidence (length weeklyIntervals) (length intervals))
                p1 in
    let monthlyIntervals := within 696 744 intervals in
    addPattern ((2 <=? length monthlyIntervals)%nat
                && Qle_bool 0.15 (share monthlyIntervals))
      "monthlyActivity"
      (calculateConfidence (length monthlyIntervals) (length intervals))
      p2.

(** [Math.sqrt(variance) / mean < 0.1]: never for a mean of zero (the
    quotient is infinite), always for a negative mean, and for a positive
    one exactly when the variance is below [0.01 * mean * mean]. *)
Definition lowVariability (mean var : Q) : bool :=
  if Qeq_bool mean 0 then false
  else if Qltb mean 0 then true
  else Qltb var (0.01 * (mean * mean)).

Definition detectGasUsagePatterns (a : Address)
    (transactions : list Transaction) : Obj.t Pattern.t :=
  let txsWithGas :=
    filter (fun tx => negb (Qeq_bool (gasPrice tx) 0)
                      && negb (Qeq_bool (gasUsed tx) 0)) transactions in
  if (length txsWithGas <? 5)%nat then []
  else
    let gasPrices := map gasPrice txsWithGas in
    let mean := (sum gasPrices / Qnat (length gasPrices))%Q in
    let var := variance gasPrices mean (length gasPrices) in
    let p1 := addPattern (lowVariability mean var
                          && (10 <=? length txsWithGas)%nat)
                "consistentGasPrice" 0.8%Q [] in
    let marketAvgGasPrice := 20%Q in
    let avgRatio := (mean / marketAvgGasPrice)%Q in
    if Qltb 1.5 avgRatio then
      addPattern true "highGasPricePreference"
        (calculateConfidence (length txsWithGas) (length transactions)) p1
    else
      addPattern (Qltb avgRatio 0.75) "lowGasPricePreference"
        (calculateConfidence (length txsWithGas) (length transactions)) p1.

Definition detectAddressPatterns (a : Address)
    (transactions : list Transaction) : result PatternReport.t :=
  rethrow "Pattern detection failed: "
    (if (length transactions <? 3)%nat then
       Ok {| PatternReport.address := a; PatternReport.patternCount := 0;
             PatternReport.patterns := [] |}
     else
       let patterns : Obj.t (Obj.t Pattern.t) :=
         [ ("activityTiming", detectActivityTimingPatterns a transactions);
           ("valueDistribution",
            detectValueDistributionPatterns a transactions);
           ("counterparties", detectCounterpartyPatterns a transactions);
           ("periodicActivity", detectPeriodicPatterns a transactions);
           ("gasUsage", detectGasUsagePatterns a transactions) ] in
       let significantPatterns :=
         filter (fun entry : string * Obj.t Pattern.t =>
                   (0 <? length (Obj.keys (snd entry)))%nat)
                patterns in
       Ok {| PatternReport.address := a;
             PatternReport.patternCount :=
               fold_left (fun n entry => n + length (Obj.keys (snd entry)))
                         significantPatterns 0;
             PatternReport.patterns := significantPatterns |}).

End Patterns.

(* ================================================================== *)
(** ** Risk scoring in bulk *)

Module BulkError.
Record t := {
  address : Address;
  error : string;
}.
End BulkError.

Module BulkRiskResult.
Record t := {
  results : Obj.t RiskAssessment.t;
  errors : list BulkError.t;
  totalProcessed : nat;
  successCount : nat;
  errorCount : nat;
}.
End BulkRiskResult.

Module RiskBulk.
Import EntityService.

(** [array.slice(i, j)] for [i <= j]. *)
Definition slice {A} (array : list A) (i j : nat) : list A :=
  firstn (j - i) (skipn i array).

(** The loop [for (let i = 0; i < array.length; i += chunkSize)] of
    [chunkArray] from the index [i] on, for at most [fuel] iterations. *)
Fixpoint chunkLoop {A} (fuel : nat) (array : list A) (chunkSize i : nat)
    : list (list A) :=
  match fuel with
  | O => []
  | S fuel' =>
      if (i <? length array)%nat
      then slice array i (i + chunkSize)
           :: chunkLoop fuel' array chunkSize (i + chunkSize)
      else []
  end.

(** [chunkArray(array, chunkSize)] for a chunk size that is a whole number.
    With a chunk size of zero the index never advances and the loop over a
    non-empty array does not end: [None] stands for a call that does not
    return.  With a positive chunk size the index grows by one at least in
    every iteration, so [array.length] iterations are enough. *)
Definition chunkArray {A} (array : list A) (chunkSize : nat)
    : option (list (list A)) :=
  match chunkSize, array with
  | O, [] => Some []
  | O, _ :: _ => None
  | S _, _ => Some (chunkLoop (length array) array chunkSize 0)
  end.




End RiskBulk.

(* ================================================================== *)
(** ** Anomaly detection: the helpers on times and values *)

(** An [activity_burst] anomaly, without its description. *)
Module Burst.
Record t := {
  interval : Q;            (* hours since the previous transaction *)
  timestamp : Z;
  hash : string;
  severity : Q;
}.
End Burst.

(** A [large_value] anomaly.  Its [zScore] and [severity] are computed from
    a square root and are left out, as is the description. *)
Module LargeValue.
Record t := {
  value : Q;
  timestamp : Z;
  hash : string;
}.
End LargeValue.

Module Anomalies.



(** The gaps in hours between consecutive transactions, each with the
    later of the two. *)
Fixpoint intervalsOf (l : list Transaction) : list (Q * Transaction) :=
  match l with
  | prev :: (curr :: _) as l' =>
      ((inject_Z (timestamp curr - timestamp prev)
        / inject_Z (1000 * 60 * 60))%Q, curr) :: intervalsOf l'
  | _ => []
  end.




End Anomalies.

(* ================================================================== *)
(** * Specification vocabulary and sample data

    The predicates the properties are stated with, and the concrete
    transactions, stores and maps the examples run on. *)

Import Clustering EntityService.

(** [a] is a member of the cluster stored under [id]. *)
Definition mem (cs : Obj.t JsSet.t) (id : string) (a : Address) : Prop :=
  exists s, Obj.get cs id = Some s /\ In a s.

(** What [commonInputClustering] maintains on its cluster map and counter:
    the keys are distinct, they are the names handed out so far, and no
    address lies in two clusters. *)
Record Inv (st : Obj.t JsSet.t * nat) : Prop := {
  inv_keys : NoDup (Obj.keys (fst st));
  inv_names : forall k, In k (Obj.keys (fst st)) ->
                exists i, i < snd st /\ k = clusterName i;
  inv_disjoint : forall id1 id2 a,
      mem (fst st) id1 a -> mem (fst st) id2 a -> id1 = id2;
}.

(** All addresses of [l] lie in one cluster. *)
Definition together (cs : Obj.t JsSet.t) (l : list Address) : Prop :=
  exists id, forall a, In a l -> mem cs id a.

(** Keys of a cluster map built by the first two heuristics. *)
Definition namedKeys (cs : Clusters) : Prop :=
  NoDup (Obj.keys cs) /\ forall k, In k (Obj.keys cs) -> exists i, k = clusterName i.

(** [a] is an input or output address of a transaction of the list. *)
Definition appears (txs : list Transaction) (a : Address) : Prop :=
  exists tx, In tx txs
             /\ (In a (getInputAddresses tx) \/ In a (getOutputAddresses tx)).

(** A transaction with input and output lists, and a plain transfer. *)
Definition utxo (h : string) (ins outs : list Address) : Transaction :=
  {| hash := h; timestamp := 0%Z; from := ""; to := "";
     value := 0%Q; gasPrice := 0%Q; gasUsed := 0%Q;
     inputs := Some (map Build_TxIO ins);
     outputs := Some (map Build_TxIO outs) |}.

Definition transfer (h f t : string) : Transaction :=
  {| hash := h; timestamp := 0%Z; from := f; to := t;
     value := 0%Q; gasPrice := 0%Q; gasUsed := 0%Q;
     inputs := None; outputs := None |}.

(** [x] pays [a]; later [a] and [b] are spent together and pay [x]. *)
Definition payThenCospend : list Transaction :=
  [ utxo "h1" ["x"] ["a"]; utxo "h2" ["a"; "b"] ["x"] ].

(** Three plain transfers to the same recipient. *)
Definition threeDeposits : list Transaction :=
  [ transfer "h1" "a" "b"; transfer "h2" "c" "b"; transfer "h3" "d" "b" ].

(** The entries [for_in_order] enumerates first. *)
Definition isIndex {V} (e : string * V) : bool :=
  match Obj.arrayIndex (fst e) with
  | Some _ => true
  | None => false
  end.

(** The promise is rejected. *)
Definition throws {A} (r : result A) : Prop := exists m, r = Throw m.


(** The attribution [attributeClusters] computes for one cluster. *)
Definition attributionOf (st : Store) (clusterAddresses : list Address)
    : result ClusterAttribution.t :=
  bind (Attribution.collectHits st clusterAddresses) (fun attributions =>
  if (0 <? length attributions)%nat then
    bind (Attribution.calculateConsensusAttribution attributions
            (length clusterAddresses))
      (fun attribution =>
         Ok {| ClusterAttribution.entityId :=
                 Some (Consensus.entityId attribution);
               ClusterAttribution.entityName := Consensus.entityName attribution;
               ClusterAttribution.entityType := Consensus.entityType attribution;
               ClusterAttribution.confidence := Consensus.confidence attribution;
               ClusterAttribution.addresses := clusterAddresses;
               ClusterAttribution.matchedAddresses :=
                 Consensus.matchedAddresses attribution |})
  else Ok (Attribution.unknownCluster clusterAddresses)).

(** The hit comes from a successful lookup of an address of [l]. *)
Definition hitFrom (st : Store) (l : list Address) (h : Hit.t) : Prop :=
  exists e a, h = Attribution.hitOf e a /\ In a l /\
              findEntityForAddress st a = Ok (Some e).


(** A cluster made of one address of the mock Binance entity and two
    addresses the store does not know. *)
Definition binanceCluster : Clusters :=
  [("cluster_1", ["0xaaa"; "0x3f5CE5FBFe3E9af3971dD833D26bA9b5C936f0bE"; "0xbbb"])].

(** A store whose reverse index names an entity the list does not hold. *)
Definition brokenStore : Store :=
  {| entities := []; addressToEntityMap := [("0xdead", "9")]; uuidsDrawn := 0 |}.

(** The attribution names no entity: [entityId] is [null] or empty. *)
Definition noEntity (attribution : ClusterAttribution.t) : Prop :=
  match ClusterAttribution.entityId attribution with
  | Some i => truthy i = false
  | None => True
  end.

(** Two records of the store describe the same entity up to its addresses. *)
Definition sameIdentity (e e' : Entity) : Prop :=
  id e = id e' /\ name e = name e' /\ type e = type e'
  /\ confidenceScore e = confidenceScore e'.

(** An identifier generator to run the examples with. *)
Definition sampleUuid (n : nat) : string := ("uuid-" ++ decimal n)%string.

(** Every entity of [st] is still in [st'], up to its addresses. *)
Definition keepsEntities (st st' : Store) : Prop :=
  forall e, In e (entities st) -> exists e', In e' (entities st') /\ sameIdentity e e'.

(** The update loop only adds to its report and keeps the entities. *)
Definition grows (s s' : UpdateResults.t * Store) : Prop :=
  (forall x, In x (UpdateResults.skipped (fst s)) ->
             In x (UpdateResults.skipped (fst s')))
  /\ (forall x, In x (UpdateResults.created (fst s)) ->
                In x (UpdateResults.created (fst s')))
  /\ keepsEntities (snd s) (snd s').

(** A map with one unattributed cluster of three addresses that passes the
    threshold, one unattributed cluster as [attributeClusters] reports it
    (confidence 0), and one small unattributed cluster above the threshold. *)
Definition sampleAttributions : Obj.t ClusterAttribution.t :=
  [ ("cluster_1",
     {| ClusterAttribution.entityId := None;
        ClusterAttribution.entityName := "Unknown";
        ClusterAttribution.entityType := "Unknown";
        ClusterAttribution.confidence := 0.9%Q;
        ClusterAttribution.addresses := ["0xa"; "0xb"; "0xc"];
        ClusterAttribution.matchedAddresses := [] |});
    ("cluster_2", Attribution.unknownCluster ["0xd"; "0xe"; "0xf"]);
    ("cluster_3",
     {| ClusterAttribution.entityId := None;
        ClusterAttribution.entityName := "Unknown";
        ClusterAttribution.entityType := "Unknown";
        ClusterAttribution.confidence := 0.9%Q;
        ClusterAttribution.addresses := ["0xg"];
        ClusterAttribution.matchedAddresses := [] |}) ].

(** An address of the mock Binance entity spent together with a new one. *)
Definition cospendWithBinance : list Transaction :=
  [ utxo "h1" ["0x3f5CE5FBFe3E9af3971dD833D26bA9b5C936f0bE"; "0xnew"] [] ].

(** [options.confidenceThreshold || 0.8] *)
Definition thresholdOf (options : Options) : Q :=
  match confidenceThreshold options with
  | Some q => if Qeq_bool q 0 then 0.8%Q else q
  | None => 0.8%Q
  end.


Local Open Scope Q_scope.




Close Scope Q_scope.

(** ** Vocabulary of the further properties *)

(** [a] is an input of a transaction of the list that has two inputs or
    more. *)
Definition cospent (txs : list Transaction) (a : Address) : Prop :=
  exists tx, In tx txs /\ 2 <= length (getInputAddresses tx)
             /\ In a (getInputAddresses tx).

(** A chain of such transactions leads from [a] to [b]: consecutive
    addresses of the chain are inputs of the same transaction. *)
Inductive linked (txs : list Transaction) : Address -> Address -> Prop :=
| linked_refl (a : Address) : linked txs a a
| linked_step (a b c : Address) (tx : Transaction) :
    linked txs a b -> In tx txs -> 2 <= length (getInputAddresses tx) ->
    In b (getInputAddresses tx) -> In c (getInputAddresses tx) ->
    linked txs a c.

(** No cluster of the map holds [a]. *)
Definition unclustered (cs : Clusters) (a : Address) : Prop :=
  forall id, ~ mem cs id a.

(** The ids of the map are [cluster_1], ..., [cluster_n], in this order. *)
Definition consecutiveIds (cs : Clusters) : Prop :=
  Obj.keys cs = map clusterName (seq 1 (length cs)).

(** The number of hits that name the entity [i]. *)
Definition hitCount (i : string) (hits : list Hit.t) : nat :=
  length (filter (fun h => String.eqb (Hit.entityId h) i) hits).

(** What the grouping loop of [calculateConsensusAttribution] has built
    after the hits [pre]: one group per entity named, holding the hits that
    name it, with the name and type of one of them. *)
Definition grouped (pre : list Hit.t) (groups : Obj.t Group.t) : Prop :=
  NoDup (Obj.keys groups)
  /\ forall k,
       match Obj.get groups k with
       | Some g =>
           Group.attributions g
           = filter (fun h => String.eqb (Hit.entityId h) k) pre
           /\ exists h, In h pre /\ Hit.entityId h = k
                        /\ Group.entityName g = Hit.entityName h
                        /\ Group.entityType g = Hit.entityType h
       | None => filter (fun h => String.eqb (Hit.entityId h) k) pre = []
       end.

(** The score [attributeByBehavior] gives an entity for an address: 70% for
    the interactions with the entity, 30% for the constant pattern score. *)
Definition behaviorScore (a : Address) (transactions : list Transaction)
    (entity : Entity) : Q :=
  (Attribution.calculateInteractionScore a (addresses entity) transactions * 0.7
   + 0.3 * 0.3)%Q.

(** The cluster ids a report of [updateEntitiesWithAttributions] mentions,
    list by list. *)
Definition reportedClusters (u : UpdateResults.t) : list string :=
  map Updated.clusterId (UpdateResults.updated u)
  ++ map Created.clusterId (UpdateResults.created u)
  ++ map Skipped.clusterId (UpdateResults.skipped u).

(** Every entity of [st] is still in [st'], with the same identity and at
    least the addresses it had. *)
Definition onlyAdds (st st' : Store) : Prop :=
  forall e, In e (entities st) ->
    exists e', In e' (entities st') /\ sameIdentity e e'
               /\ incl (addresses e) (addresses e').

(** What the update loop may do to its report and to the store, from one
    state to a later one: entities are kept and only gain addresses, the
    lists [updated] and [skipped] only grow, one entity is added and one
    identifier drawn per entry of [created], and every identifier of the
    store was there before or was drawn from the generator. *)
Definition stepAdds (uuidv4 : nat -> string)
    (s s' : UpdateResults.t * Store) : Prop :=
  onlyAdds (snd s) (snd s')
  /\ (forall x, In x (UpdateResults.updated (fst s)) ->
                In x (UpdateResults.updated (fst s')))
  /\ (forall x, In x (UpdateResults.skipped (fst s)) ->
                In x (UpdateResults.skipped (fst s')))
  /\ length (entities (snd s')) + length (UpdateResults.created (fst s))
     = length (entities (snd s)) + length (UpdateResults.created (fst s'))
  /\ uuidsDrawn (snd s') + length (UpdateResults.created (fst s))
     = uuidsDrawn (snd s) + length (UpdateResults.created (fst s'))
  /\ forall e, In e (entities (snd s')) ->
       (exists e0, In e0 (entities (snd s)) /\ id e0 = id e)
       \/ exists n, id e = uuidv4 n.

(** [a] is the sender or the recipient of the transaction, or the address
    of one of its inputs or outputs. *)
Definition mentions (tx : Transaction) (a : Address) : Prop :=
  a = from tx \/ a = to tx
  \/ (exists ins, inputs tx = Some ins /\ In a (map address ins))
  \/ (exists outs, outputs tx = Some outs /\ In a (map address outs)).

(** The rank of a risk level, from "Very Low" (0) to "Very High" (4). *)
Definition levelRank (level : string) : nat :=
  if String.eqb level "Very High" then 4
  else if String.eqb level "High" then 3
  else if String.eqb level "Medium" then 2
  else if String.eqb level "Low" then 1
  else 0.

(** The entry of [significantFactors] made of a detected factor. *)
Definition significantOf (entry : string * RiskFactor.t) : SignificantFactor.t :=
  {| SignificantFactor.type := fst entry;
     SignificantFactor.score := RiskFactor.score (snd entry);
     SignificantFactor.description := RiskFactor.description (snd entry) |}.

(** [x] may stand before [y] in a list sorted by descending score. *)
Definition scoreNotBelow (x y : SignificantFactor.t) : Prop :=
  (SignificantFactor.score y <= SignificantFactor.score x)%Q.







(* ================================================================== *)
(** * Properties *)

(** ** Lists, sets and objects *)

Lemma includes_In (l : list string) (a : string) :
  includes l a = true <-> In a l.
Proof.
  unfold includes. rewrite existsb_exists. split.
  - intros [x [Hx He]]. apply String.eqb_eq in He. now subst.
  - intros H. exists a. split; [assumption | apply String.eqb_refl].
Qed.

Lemma includes_false (l : list string) (a : string) :
  includes l a = false <-> ~ In a l.
Proof.
  rewrite <- includes_In. destruct (includes l a); split; intros; congruence.
Qed.

Lemma add_In (s : JsSet.t) (a x : string) :
  In x (JsSet.add s a) <-> In x s \/ x = a.
Proof.
  unfold JsSet.add, JsSet.has.
  destruct (includes s a) eqn:E.
  - apply includes_In in E. split; [tauto | intros [H | ->]; assumption].
  - rewrite in_app_iff. simpl. intuition.
Qed.

Lemma add_NoDup (s : JsSet.t) (a : string) :
  NoDup s -> NoDup (JsSet.add s a).
Proof.
  intros H. unfold JsSet.add, JsSet.has.
  destruct (includes s a) eqn:E; [assumption |].
  apply includes_false in E.
  apply NoDup_app; [assumption | repeat constructor; simpl; tauto |].
  intros x Hx [<- | []]. contradiction.
Qed.

Lemma add_all_In (l : list string) (s : JsSet.t) (x : string) :
  In x (JsSet.add_all s l) <-> In x s \/ In x l.
Proof.
  unfold JsSet.add_all. revert s.
  induction l as [| a l IH]; intros s; simpl.
  - tauto.
  - rewrite IH, add_In. intuition.
Qed.

Lemma of_list_In (l : list string) (x : string) :
  In x (JsSet.of_list l) <-> In x l.
Proof. unfold JsSet.of_list. rewrite add_all_In. simpl. tauto. Qed.

Section ObjFacts.
Context {V : Type}.
Implicit Types (o : Obj.t V) (k : string) (v : V).

Lemma get_In o k v : Obj.get o k = Some v -> In (k, v) o.
Proof.
  induction o as [| [k' v'] o IH]; simpl; [discriminate |].
  destruct (String.eqb k k') eqn:E.
  - apply String.eqb_eq in E. intros [= ->]. subst. now left.
  - intros H. right. now apply IH.
Qed.

Lemma get_key o k v : Obj.get o k = Some v -> In k (Obj.keys o).
Proof.
  intros H. apply get_In in H. unfold Obj.keys.
  change k with (fst (k, v)). now apply in_map.
Qed.

Lemma key_get o k : In k (Obj.keys o) -> exists v, Obj.get o k = Some v.
Proof.
  induction o as [| [k' v'] o IH]; simpl; [tauto |].
  destruct (String.eqb k k') eqn:E; [eauto |].
  intros [-> | H]; [rewrite String.eqb_refl in E; discriminate | auto].
Qed.

Lemma In_get o k v : NoDup (Obj.keys o) -> In (k, v) o -> Obj.get o k = Some v.
Proof.
  induction o as [| [k' v'] o IH]; simpl; [tauto |].
  intros Hnd [[= -> ->] | H].
  - now rewrite String.eqb_refl.
  - inversion Hnd as [| ? ? Hk Hnd']; subst.
    destruct (String.eqb k k') eqn:E.
    + apply String.eqb_eq in E. subst. exfalso. apply Hk.
      change k' with (fst (k', v)). now apply in_map.
    + auto.
Qed.

Lemma get_set o k v k' :
  Obj.get (Obj.set o k v) k' = if String.eqb k' k then Some v else Obj.get o k'.
Proof.
  induction o as [| [k0 v0] o IH]; simpl.
  - reflexivity.
  - destruct (String.eqb k k0) eqn:E; simpl.
    + apply String.eqb_eq in E. subst.
      destruct (String.eqb k' k0); reflexivity.
    + rewrite IH. destruct (String.eqb k' k0) eqn:E'; [| reflexivity].
      apply String.eqb_eq in E'. subst.
      rewrite String.eqb_sym, E. reflexivity.
Qed.

Lemma keys_set o k v :
  Obj.keys (Obj.set o k v)
  = if includes (Obj.keys o) k then Obj.keys o else Obj.keys o ++ [k].
Proof.
  unfold includes.
  induction o as [| [k0 v0] o IH]; simpl; [reflexivity |].
  destruct (String.eqb k k0) eqn:E; simpl; [reflexivity |].
  rewrite IH. now destruct (existsb (String.eqb k) (Obj.keys o)).
Qed.

Lemma get_adjust (f : V -> V) o k k' :
  Obj.get (Obj.adjust f o k) k'
  = if String.eqb k' k then option_map f (Obj.get o k) else Obj.get o k'.
Proof.
  induction o as [| [k0 v0] o IH]; simpl.
  - now destruct (String.eqb k' k).
  - destruct (String.eqb k k0) eqn:E; simpl.
    + apply String.eqb_eq in E. subst.
      destruct (String.eqb k' k0); reflexivity.
    + rewrite IH. destruct (String.eqb k' k0) eqn:E'; [| reflexivity].
      apply String.eqb_eq in E'. subst.
      rewrite String.eqb_sym, E. reflexivity.
Qed.

Lemma keys_adjust (f : V -> V) o k : Obj.keys (Obj.adjust f o k) = Obj.keys o.
Proof.
  induction o as [| [k0 v0] o IH]; simpl; [reflexivity |].
  destruct (String.eqb k k0); simpl; [reflexivity | now rewrite IH].
Qed.

Lemma get_delete o k k' :
  Obj.get (Obj.delete o k) k' = if String.eqb k' k then None else Obj.get o k'.
Proof.
  induction o as [| [k0 v0] o IH]; simpl.
  - now destruct (String.eqb k' k).
  - destruct (String.eqb k k0) eqn:E; simpl.
    + apply String.eqb_eq in E. subst. rewrite IH.
      destruct (String.eqb k' k0); reflexivity.
    + rewrite IH. destruct (String.eqb k' k0) eqn:E'; [| reflexivity].
      apply String.eqb_eq in E'. subst.
      rewrite String.eqb_sym, E. reflexivity.
Qed.

Lemma keys_delete o k k' :
  In k' (Obj.keys (Obj.delete o k)) <-> k' <> k /\ In k' (Obj.keys o).
Proof.
  induction o as [| [k0 v0] o IH]; simpl; [tauto |].
  destruct (String.eqb k k0) eqn:E; simpl.
  - apply String.eqb_eq in E. subst. rewrite IH. intuition congruence.
  - apply String.eqb_neq in E. rewrite IH. intuition congruence.
Qed.

Lemma NoDup_delete o k : NoDup (Obj.keys o) -> NoDup (Obj.keys (Obj.delete o k)).
Proof.
  induction o as [| [k0 v0] o IH]; simpl; [trivial |].
  intros H. inversion H as [| ? ? Hk Hnd]; subst.
  destruct (String.eqb k k0); simpl; [auto |].
  constructor; [| auto]. rewrite keys_delete. tauto.
Qed.

Lemma NoDup_set o k v : NoDup (Obj.keys o) -> NoDup (Obj.keys (Obj.set o k v)).
Proof.
  intros H. rewrite keys_set. destruct (includes (Obj.keys o) k) eqn:E.
  - assumption.
  - apply includes_false in E.
    apply NoDup_app; [assumption | repeat constructor; simpl; tauto |].
    intros x Hx [<- | []]. contradiction.
Qed.

End ObjFacts.

(** ** Cluster names *)

Lemma decimal_inj (i j : nat) : decimal i = decimal j -> i = j.
Proof.
  unfold decimal. intros H.
  apply (f_equal NilEmpty.uint_of_string) in H.
  rewrite !NilEmpty.usu in H. injection H as H.
  apply (f_equal Nat.of_uint) in H.
  now rewrite !DecimalNat.Unsigned.of_to in H.
Qed.

Lemma clusterName_inj (i j : nat) :
  Clustering.clusterName i = Clustering.clusterName j -> i = j.
Proof.
  unfold Clustering.clusterName. simpl. intros H.
  injection H as H. now apply decimal_inj.
Qed.

Lemma clusterName_not_behavioral (i j : nat) :
  Clustering.clusterName i <> Clustering.behavioralClusterName j.
Proof. unfold Clustering.clusterName, Clustering.behavioralClusterName. simpl. discriminate. Qed.

(** ** Common-input clustering keeps a partition *)

Lemma inner_existing (a : Address) (cs : Obj.t JsSet.t) (ex : JsSet.t) (id : string) :
  In id (fold_left
           (fun existing (entry : string * JsSet.t) =>
              if JsSet.has (snd entry) a then JsSet.add existing (fst entry)
              else existing) cs ex)
  <-> In id ex \/ exists s, In (id, s) cs /\ In a s.
Proof.
  revert ex. induction cs as [| [k s] cs IH]; intros ex; simpl.
  - split; [tauto | intros [H | [s [[] _]]]; assumption].
  - rewrite IH. unfold JsSet.has. destruct (includes s a) eqn:E.
    + apply includes_In in E. rewrite add_In. split.
      * intros [[H | ->] | [s' [H1 H2]]]; eauto 6.
      * intros [H | [s' [[[= -> ->] | H1] H2]]]; eauto 6.
    + apply includes_false in E. split.
      * intros [H | [s' [H1 H2]]]; eauto 6.
      * intros [H | [s' [[[= -> ->] | H1] H2]]]; [tauto | contradiction | eauto 6].
Qed.

Lemma inner_NoDup (a : Address) (cs : Obj.t JsSet.t) (ex : JsSet.t) :
  NoDup ex ->
  NoDup (fold_left
           (fun existing (entry : string * JsSet.t) =>
              if JsSet.has (snd entry) a then JsSet.add existing (fst entry)
              else existing) cs ex).
Proof.
  revert ex. induction cs as [| [k s] cs IH]; intros ex H; simpl; [assumption |].
  apply IH. destruct (JsSet.has s a); [now apply add_NoDup | assumption].
Qed.

Lemma existing_gen (cs : Obj.t JsSet.t) (ins : list Address) (ex0 : JsSet.t) (id : string) :
  In id (fold_left
      (fun existing a =>
         fold_left
           (fun existing (entry : string * JsSet.t) =>
              if JsSet.has (snd entry) a then JsSet.add existing (fst entry)
              else existing)
           cs existing)
      ins ex0)
  <-> In id ex0 \/ exists s a, In (id, s) cs /\ In a ins /\ In a s.
Proof.
  revert ex0. induction ins as [| a ins IH]; intros ex0; simpl.
  - split; [tauto | intros [H | [s [a [_ [[] _]]]]]; assumption].
  - rewrite IH, inner_existing. split.
    + intros [[H | [s [H1 H2]]] | [s [b [H1 [H2 H3]]]]]; eauto 8.
    + intros [H | [s [b [H1 [[-> | H2] H3]]]]]; eauto 8.
Qed.

Lemma existing_spec (cs : Obj.t JsSet.t) (ins : list Address) (id : string) :
  In id (existingClustersOf cs ins)
  <-> exists s a, In (id, s) cs /\ In a ins /\ In a s.
Proof.
  unfold existingClustersOf. rewrite existing_gen. simpl. tauto.
Qed.

Lemma existing_NoDup (cs : Obj.t JsSet.t) (ins : list Address) :
  NoDup (existingClustersOf cs ins).
Proof.
  unfold existingClustersOf.
  assert (G : forall ex0, NoDup ex0 -> NoDup (fold_left
      (fun existing a =>
         fold_left
           (fun existing (entry : string * JsSet.t) =>
              if JsSet.has (snd entry) a then JsSet.add existing (fst entry)
              else existing)
           cs existing)
      ins ex0)).
  { induction ins as [| a ins IH]; intros ex0 H; simpl; [assumption |].
    apply IH. now apply inner_NoDup. }
  apply G. constructor.
Qed.

Lemma existing_mem (cs : Obj.t JsSet.t) (ins : list Address) (id : string) :
  NoDup (Obj.keys cs) ->
  (In id (existingClustersOf cs ins) <-> exists a, In a ins /\ mem cs id a).
Proof.
  intros Hnd. rewrite existing_spec. unfold mem. split.
  - intros [s [a [H1 [H2 H3]]]]. exists a. split; [assumption |].
    exists s. split; [now apply In_get | assumption].
  - intros [a [H1 [s [H2 H3]]]]. exists s, a. split; [now apply get_In | tauto].
Qed.

Lemma mem_set (cs : Obj.t JsSet.t) (k : string) (v : JsSet.t) (id : string) (a : Address) :
  mem (Obj.set cs k v) id a <-> (id = k /\ In a v) \/ (id <> k /\ mem cs id a).
Proof.
  unfold mem. rewrite get_set. destruct (String.eqb id k) eqn:E.
  - apply String.eqb_eq in E. subst. split.
    + intros [s [[= <-] H]]. tauto.
    + intros [[_ H] | [H _]]; [eauto | congruence].
  - apply String.eqb_neq in E. tauto.
Qed.

Lemma mem_addAddresses (cs : Obj.t JsSet.t) (k : string) (l : list Address)
    (id : string) (a : Address) :
  mem (addAddresses cs k l) id a
  <-> mem cs id a \/ (id = k /\ In k (Obj.keys cs) /\ In a l).
Proof.
  unfold mem, addAddresses. rewrite get_adjust.
  destruct (String.eqb id k) eqn:E.
  - apply String.eqb_eq in E. subst. split.
    + intros [s [H Ha]]. destruct (Obj.get cs k) as [s0 |] eqn:G; [| discriminate].
      simpl in H. injection H as <-. apply add_all_In in Ha.
      destruct Ha as [Ha | Ha]; [left; eauto |].
      right. repeat split; [| assumption]. now apply get_key in G.
    + intros [[s [H Ha]] | [_ [Hk Ha]]].
      * rewrite H. simpl. eexists. split; [reflexivity |].
        apply add_all_In. now left.
      * apply key_get in Hk. destruct Hk as [s0 G]. rewrite G. simpl.
        eexists. split; [reflexivity |]. apply add_all_In. now right.
  - apply String.eqb_neq in E. tauto.
Qed.

Lemma mem_delete (cs : Obj.t JsSet.t) (k id : string) (a : Address) :
  mem (Obj.delete cs k) id a <-> id <> k /\ mem cs id a.
Proof.
  unfold mem. rewrite get_delete. destruct (String.eqb id k) eqn:E.
  - apply String.eqb_eq in E. subst. split.
    + intros [s [H _]]. discriminate.
    + tauto.
  - apply String.eqb_neq in E. tauto.
Qed.

Lemma mem_key (cs : Obj.t JsSet.t) (id : string) (a : Address) :
  mem cs id a -> In id (Obj.keys cs).
Proof. intros [s [H _]]. now apply get_key in H. Qed.

Lemma keys_mergeInto (t : string) (cs : Obj.t JsSet.t) (o k : string) :
  In k (Obj.keys (mergeInto t cs o)) <-> k <> o /\ In k (Obj.keys cs).
Proof.
  unfold mergeInto. destruct (Obj.get cs o) as [s |] eqn:G.
  - rewrite keys_delete. unfold addAddresses. now rewrite keys_adjust.
  - split; [| tauto]. intros H. split; [| assumption].
    intros ->. apply key_get in H. destruct H as [v H]. congruence.
Qed.

Lemma NoDup_mergeInto (t : string) (cs : Obj.t JsSet.t) (o : string) :
  NoDup (Obj.keys cs) -> NoDup (Obj.keys (mergeInto t cs o)).
Proof.
  intros H. unfold mergeInto. destruct (Obj.get cs o); [| assumption].
  apply NoDup_delete. unfold addAddresses. now rewrite keys_adjust.
Qed.

Lemma mem_mergeInto (t : string) (cs : Obj.t JsSet.t) (o id : string) (a : Address) :
  In t (Obj.keys cs) ->
  (mem (mergeInto t cs o) id a
   <-> id <> o /\ (mem cs id a \/ (id = t /\ mem cs o a))).
Proof.
  intros Ht. unfold mergeInto. destruct (Obj.get cs o) as [s |] eqn:G.
  - rewrite mem_delete, mem_addAddresses. unfold mem at 3. rewrite G. split.
    + intros [H1 [H2 | [H2 [_ H3]]]]; [tauto |]. split; [assumption |].
      right. split; [assumption |]. eauto.
    + intros [H1 [H2 | [H2 [s' [[= <-] H3]]]]]; tauto.
  - split.
    + intros H. split; [| now left]. intros ->.
      destruct H as [s [H _]]. congruence.
    + intros [_ [H | [_ [s [H _]]]]]; [assumption | congruence].
Qed.

Lemma keys_merge (t : string) (others : list string) (cs : Obj.t JsSet.t) (k : string) :
  In k (Obj.keys (fold_left (mergeInto t) others cs))
  <-> ~ In k others /\ In k (Obj.keys cs).
Proof.
  revert cs. induction others as [| o rest IH]; intros cs; simpl.
  - tauto.
  - rewrite IH, keys_mergeInto. intuition congruence.
Qed.

Lemma NoDup_merge (t : string) (others : list string) (cs : Obj.t JsSet.t) :
  NoDup (Obj.keys cs) -> NoDup (Obj.keys (fold_left (mergeInto t) others cs)).
Proof.
  revert cs. induction others as [| o rest IH]; intros cs H; simpl; [assumption |].
  apply IH. now apply NoDup_mergeInto.
Qed.

Lemma mem_merge (t : string) (others : list string) (cs : Obj.t JsSet.t)
    (id : string) (a : Address) :
  ~ In t others -> In t (Obj.keys cs) ->
  (mem (fold_left (mergeInto t) others cs) id a
   <-> ~ In id others
       /\ (mem cs id a \/ (id = t /\ exists o, In o others /\ mem cs o a))).
Proof.
  revert cs. induction others as [| o rest IH]; intros cs Ht Hk; simpl.
  - split; [tauto |]. intros [_ [H | [_ [o [[] _]]]]]. assumption.
  - assert (Hto : t <> o) by (intros ->; apply Ht; now left).
    assert (Htr : ~ In t rest) by (intros H; apply Ht; now right).
    rewrite IH; [| assumption | apply keys_mergeInto; tauto].
    rewrite mem_mergeInto by assumption. split.
    + intros [H1 [[H2 [H3 | [H3 H4]]] | [H2 [o' [H3 H4]]]]].
      * split; [intros [E | E]; [congruence | contradiction] | tauto].
      * split; [intros [E | E]; [congruence | contradiction] |].
        right. split; [assumption |]. exists o. split; [now left | assumption].
      * apply mem_mergeInto in H4; [| assumption].
        destruct H4 as [H4 [H5 | [H5 _]]]; [| subst; contradiction].
        split; [intros [E | E]; [congruence | contradiction] |].
        right. split; [assumption |]. exists o'. split; [now right | assumption].
    + intros [H1 [H2 | [H2 [o' [H3 H4]]]]].
      * split; [tauto |]. left. split; [intros ->; apply H1; now left | tauto].
      * split; [tauto |]. subst id.
        destruct (string_dec o' o) as [-> | Hne].
        -- left. split; [congruence | tauto].
        -- destruct H3 as [-> | H3]; [congruence |].
           right. split; [reflexivity |]. exists o'. split; [assumption |].
           apply mem_mergeInto; [assumption |]. tauto.
Qed.

Lemma fresh_name (cs : Obj.t JsSet.t) (n : nat) :
  Inv (cs, n) -> ~ In (clusterName n) (Obj.keys cs).
Proof.
  intros [_ Hn _] H. simpl in *. destruct (Hn _ H) as [i [Hi E]].
  apply clusterName_inj in E. lia.
Qed.

Lemma Inv_initial : Inv ([], 1).
Proof.
  split; simpl.
  - constructor.
  - tauto.
  - intros id1 id2 a [s [H _]]. discriminate.
Qed.

(** The three shapes of [existingClusters] a qualifying transaction meets. *)
Section Step.
Variables (cs : Obj.t JsSet.t) (n : nat) (ins : list Address).
Hypothesis HInv : Inv (cs, n).

Let ex := existingClustersOf cs ins.

Lemma ex_mem (id : string) :
  In id ex <-> exists a, In a ins /\ mem cs id a.
Proof. apply existing_mem. apply HInv. Qed.

Lemma ex_key (id : string) : In id ex -> In id (Obj.keys cs).
Proof. intros H. apply ex_mem in H. destruct H as [a [_ H]]. now apply mem_key in H. Qed.

(** No cluster is touched: a new one is created. *)
Lemma Inv_create :
  ex = [] ->
  Inv (Obj.set cs (clusterName n) (JsSet.of_list ins), S n).
Proof.
  intros Hex. pose proof (fresh_name _ _ HInv) as Hfresh.
  destruct HInv as [Hk Hn Hd]. simpl in *. split; simpl.
  - now apply NoDup_set.
  - intros k. rewrite keys_set.
    destruct (includes (Obj.keys cs) (clusterName n)) eqn:E.
    + apply includes_In in E. contradiction.
    + rewrite in_app_iff. simpl. intros [H | [<- | []]].
      * destruct (Hn _ H) as [i [Hi ->]]. exists i. split; [lia | reflexivity].
      * exists n. split; [lia | reflexivity].
  - intros id1 id2 a H1 H2. apply mem_set in H1, H2.
    assert (Hno : forall id, mem cs id a -> In a (JsSet.of_list ins) -> False).
    { intros id Hm Ha. rewrite of_list_In in Ha.
      assert (In id ex) as Hin by (apply ex_mem; exists a; split; assumption).
      rewrite Hex in Hin. contradiction. }
    destruct H1 as [[-> Ha1] | [Hne1 Hm1]], H2 as [[-> Ha2] | [Hne2 Hm2]].
    + reflexivity.
    + exfalso. eauto.
    + exfalso. eauto.
    + eauto.
Qed.

(** One cluster is touched: it is extended. *)
Lemma Inv_extend (c : string) :
  ex = [c] -> Inv (addAddresses cs c ins, n).
Proof.
  intros Hex. destruct HInv as [Hk Hn Hd]. simpl in *. split; simpl.
  - unfold addAddresses. now rewrite keys_adjust.
  - unfold addAddresses. now rewrite keys_adjust.
  - intros id1 id2 a H1 H2. apply mem_addAddresses in H1, H2.
    assert (Hc : forall id, mem cs id a -> In a ins -> id = c).
    { intros id Hm Ha. assert (H : In id ex) by (apply ex_mem; exists a; split; assumption).
      rewrite Hex in H. destruct H as [<- | []]. reflexivity. }
    destruct H1 as [Hm1 | [-> [_ Ha1]]], H2 as [Hm2 | [-> [_ Ha2]]].
    + eauto.
    + eauto.
    + symmetry. eauto.
    + reflexivity.
Qed.

(** Several clusters are touched: they are merged into the first. *)
Lemma mem_merged (c : string) (others : list string) :
  ex = c :: others ->
  forall (id : string) (a : Address),
  (mem (fold_left (mergeInto c) others (addAddresses cs c ins)) id a
   <-> ~ In id others
       /\ (mem cs id a
           \/ (id = c /\ (In a ins \/ exists o, In o others /\ mem cs o a)))).
Proof.
  intros Hex id a.
  assert (Hc : In c (Obj.keys cs)) by (apply ex_key; rewrite Hex; now left).
  assert (Hnd : NoDup (c :: others)) by (rewrite <- Hex; apply existing_NoDup).
  inversion Hnd as [| ? ? Hco _]; subst.
  rewrite mem_merge;
    [| assumption | unfold addAddresses; now rewrite keys_adjust].
  split.
  - intros [H1 [H2 | [-> [o [H3 H4]]]]].
    + apply mem_addAddresses in H2. tauto.
    + apply mem_addAddresses in H4.
      destruct H4 as [H4 | [-> _]]; [| contradiction]. eauto 8.
  - intros [H1 [H2 | [-> [H2 | [o [H3 H4]]]]]].
    + split; [assumption |]. left. apply mem_addAddresses. now left.
    + split; [assumption |]. left. apply mem_addAddresses. tauto.
    + split; [assumption |]. right. split; [reflexivity |]. exists o.
      split; [assumption |]. apply mem_addAddresses. now left.
Qed.

Lemma Inv_merge (c : string) (others : list string) :
  ex = c :: others ->
  Inv (fold_left (mergeInto c) others (addAddresses cs c ins), n).
Proof.
  intros Hex. pose proof (mem_merged _ _ Hex) as Hm.
  destruct HInv as [Hk Hn Hd]. simpl in *. split; simpl.
  - apply NoDup_merge. unfold addAddresses. now rewrite keys_adjust.
  - intros k Hin. apply keys_merge in Hin. destruct Hin as [_ Hin].
    unfold addAddresses in Hin. rewrite keys_adjust in Hin. auto.
  - intros id1 id2 a H1 H2. apply Hm in H1, H2.
    assert (Htouched : forall id, mem cs id a ->
              (In a ins \/ exists o, In o others /\ mem cs o a) ->
              id = c \/ In id others).
    { intros id Hid [Ha | [o [Ho Hoa]]].
      - assert (H : In id ex) by (apply ex_mem; exists a; split; assumption).
        rewrite Hex in H. destruct H; [left; congruence | now right].
      - right. now rewrite (Hd _ _ _ Hid Hoa). }
    destruct H1 as [Hn1 [Hm1 | [-> Hc1]]], H2 as [Hn2 [Hm2 | [-> Hc2]]].
    + eauto.
    + destruct (Htouched _ Hm1 Hc2); [assumption | contradiction].
    + destruct (Htouched _ Hm2 Hc1); [congruence | contradiction].
    + reflexivity.
Qed.

End Step.

Lemma step_Inv (st : Obj.t JsSet.t * nat) (tx : Transaction) :
  Inv st -> Inv (commonInputStep st tx).
Proof.
  intros H. destruct st as [cs n]. unfold commonInputStep.
  destruct (length (getInputAddresses tx) <=? 1)%nat; [assumption |].
  destruct (existingClustersOf cs (getInputAddresses tx)) as [| c [| o rest]] eqn:Ex.
  - now apply Inv_create.
  - now apply Inv_extend.
  - now apply Inv_merge.
Qed.

(** Clusters only grow: what was together stays together. *)
Lemma step_grows (st : Obj.t JsSet.t * nat) (tx : Transaction) (id : string) :
  Inv st ->
  exists id', forall a, mem (fst st) id a -> mem (fst (commonInputStep st tx)) id' a.
Proof.
  intros H. destruct st as [cs n]. unfold commonInputStep.
  destruct (length (getInputAddresses tx) <=? 1)%nat; [eauto |].
  destruct (existingClustersOf cs (getInputAddresses tx)) as [| c [| o rest]] eqn:Ex;
    simpl.
  - exists id. intros a Ha. apply mem_set. right. split; [| assumption].
    intros ->. apply mem_key in Ha. now apply (fresh_name _ _ H).
  - exists id. intros a Ha. apply mem_addAddresses. now left.
  - destruct (in_dec string_dec id (o :: rest)) as [Hin | Hout].
    + exists c. intros a Ha. apply (mem_merged _ _ _ H _ _ Ex).
      assert (Hnd : NoDup (c :: o :: rest)) by (rewrite <- Ex; apply existing_NoDup).
      inversion Hnd; subst. split; [assumption |]. right. eauto.
    + exists id. intros a Ha. apply (mem_merged _ _ _ H _ _ Ex). tauto.
Qed.

(** The inputs of a transaction with two inputs or more end in one cluster. *)
Lemma step_joins (st : Obj.t JsSet.t * nat) (tx : Transaction) :
  Inv st -> 2 <= length (getInputAddresses tx) ->
  exists id, forall a, In a (getInputAddresses tx) ->
                       mem (fst (commonInputStep st tx)) id a.
Proof.
  intros H Hlen. destruct st as [cs n]. unfold commonInputStep.
  destruct (Nat.leb_spec (length (getInputAddresses tx)) 1) as [Hle | _]; [lia |].
  destruct (existingClustersOf cs (getInputAddresses tx)) as [| c [| o rest]] eqn:Ex;
    simpl.
  - exists (clusterName n). intros a Ha. apply mem_set. left.
    split; [reflexivity | now apply of_list_In].
  - exists c. intros a Ha. apply mem_addAddresses. right.
    repeat split; [| assumption]. apply (ex_key _ _ (getInputAddresses tx) H). rewrite Ex. now left.
  - exists c. intros a Ha. apply (mem_merged _ _ _ H _ _ Ex).
    assert (Hnd : NoDup (c :: o :: rest)) by (rewrite <- Ex; apply existing_NoDup).
    inversion Hnd; subst. split; [assumption | tauto].
Qed.

Lemma fold_Inv (txs : list Transaction) (st : Obj.t JsSet.t * nat) :
  Inv st -> Inv (fold_left commonInputStep txs st).
Proof.
  revert st. induction txs as [| tx txs IH]; intros st H; simpl; [assumption |].
  apply IH. now apply step_Inv.
Qed.

Lemma fold_together (txs : list Transaction) (st : Obj.t JsSet.t * nat)
    (l : list Address) :
  Inv st -> together (fst st) l ->
  together (fst (fold_left commonInputStep txs st)) l.
Proof.
  revert st. induction txs as [| tx txs IH]; intros st H Ht; simpl; [assumption |].
  apply IH; [now apply step_Inv |].
  destruct Ht as [id Hid].
  destruct (step_grows st tx id H) as [id' Hid']. exists id'. auto.
Qed.

Lemma fold_joins (txs : list Transaction) (st : Obj.t JsSet.t * nat)
    (T : Transaction) :
  Inv st -> In T txs -> 2 <= length (getInputAddresses T) ->
  together (fst (fold_left commonInputStep txs st)) (getInputAddresses T).
Proof.
  revert st. induction txs as [| tx txs IH]; intros st H Hin Hlen; simpl.
  - destruct Hin.
  - destruct Hin as [-> | Hin].
    + apply fold_together; [now apply step_Inv |]. now apply step_joins.
    + apply IH; [now apply step_Inv | assumption | assumption].
Qed.

(** C2 - merge transitivity of [commonInputClustering].  If a transaction
    of the list spends [A] and [B] together and another one spends [B] and
    [C] together (each with two inputs or more), the result holds one
    cluster with [A], [B] and [C], and no other cluster holds any of them,
    wherever the two transactions stand in the list. *)
Theorem commonInputClustering_merge_transitive
    (transactions : list Transaction) (T1 T2 : Transaction) (A B C : Address) :
  In T1 transactions -> In T2 transactions ->
  2 <= length (getInputAddresses T1) -> 2 <= length (getInputAddresses T2) ->
  In A (getInputAddresses T1) -> In B (getInputAddresses T1) ->
  In B (getInputAddresses T2) -> In C (getInputAddresses T2) ->
  exists clusters id cluster,
    commonInputClustering transactions = Ok clusters
    /\ Obj.get clusters id = Some cluster
    /\ In A cluster /\ In B cluster /\ In C cluster
    /\ forall id' cluster',
         Obj.get clusters id' = Some cluster' ->
         In A cluster' \/ In B cluster' \/ In C cluster' -> id' = id.
Proof.
  intros HT1 HT2 Hl1 Hl2 HA HB1 HB2 HC.
  pose proof (fold_Inv transactions _ Inv_initial) as HI.
  destruct (fold_joins transactions _ _ Inv_initial HT1 Hl1) as [id1 H1].
  destruct (fold_joins transactions _ _ Inv_initial HT2 Hl2) as [id2 H2].
  fold (commonInputSets transactions) in HI, H1, H2.
  assert (E : id2 = id1) by (apply (inv_disjoint _ HI) with B; auto).
  subst id2.
  destruct (H1 _ HA) as [s [Hs HAs]].
  exists (fst (commonInputSets transactions)), id1, s.
  assert (Hin : forall a, mem (fst (commonInputSets transactions)) id1 a -> In a s).
  { intros a [s' [Hs' Ha]]. congruence. }
  repeat split; auto.
  intros id' cluster' Hg Hor.
  destruct Hor as [H | [H | H]];
    [ apply (inv_disjoint _ HI) with A | apply (inv_disjoint _ HI) with B
    | apply (inv_disjoint _ HI) with C ]; auto; exists cluster'; auto.
Qed.

Lemma commonInputClustering_merge_transitive_witness :
  exists clusters id cluster,
    commonInputClustering
      [utxo "h2" ["b"; "c"] []; utxo "h0" ["z"] []; utxo "h1" ["a"; "b"] []]
    = Ok clusters
    /\ Obj.get clusters id = Some cluster
    /\ In "a" cluster /\ In "b" cluster /\ In "c" cluster.
Proof.
  destruct (commonInputClustering_merge_transitive
              [utxo "h2" ["b"; "c"] []; utxo "h0" ["z"] []; utxo "h1" ["a"; "b"] []]
              (utxo "h1" ["a"; "b"] []) (utxo "h2" ["b"; "c"] []) "a" "b" "c")
    as [clusters [id [cluster [H1 [H2 [H3 [H4 [H5 _]]]]]]]];
    try (simpl; lia); try (simpl; tauto).
  exists clusters, id, cluster. auto.
Defined.

(** ** The combined clustering: coverage and provenance *)

Lemma step_members (P : Address -> Prop) (st : Obj.t JsSet.t * nat)
    (tx : Transaction) :
  Inv st ->
  (forall id a, mem (fst st) id a -> P a) ->
  (forall a, In a (getInputAddresses tx) -> P a) ->
  forall id a, mem (fst (commonInputStep st tx)) id a -> P a.
Proof.
  intros H Hold Hins id a. destruct st as [cs n]. unfold commonInputStep.
  destruct (length (getInputAddresses tx) <=? 1)%nat; [apply Hold |].
  destruct (existingClustersOf cs (getInputAddresses tx)) as [| c [| o rest]] eqn:Ex;
    simpl in *.
  - rewrite mem_set, of_list_In. intros [[_ Ha] | [_ Ha]]; eauto.
  - rewrite mem_addAddresses. intros [Ha | [_ [_ Ha]]]; eauto.
  - rewrite (mem_merged _ _ _ H _ _ Ex).
    intros [_ [Ha | [_ [Ha | [o' [_ Ha]]]]]]; eauto.
Qed.

Lemma commonInput_members (txs : list Transaction) (id : string) (a : Address) :
  mem (fst (commonInputSets txs)) id a ->
  exists tx, In tx txs /\ In a (getInputAddresses tx).
Proof.
  unfold commonInputSets.
  assert (G : forall l st, Inv st ->
            (forall id a, mem (fst st) id a ->
                          exists tx, In tx txs /\ In a (getInputAddresses tx)) ->
            (forall tx, In tx l -> In tx txs) ->
            forall id a, mem (fst (fold_left commonInputStep l st)) id a ->
                         exists tx, In tx txs /\ In a (getInputAddresses tx)).
  { induction l as [| tx l IH]; intros st HI Hold Hsub; simpl; [assumption |].
    apply IH.
    - now apply step_Inv.
    - apply step_members; [assumption | assumption |].
      intros b Hb. exists tx. split; [apply Hsub; now left | assumption].
    - intros tx' Hin. apply Hsub. now right. }
  apply G; [apply Inv_initial | | auto].
  intros id' a' [s [Hs _]]. discriminate.
Qed.

Lemma commonInput_namedKeys (txs : list Transaction) :
  namedKeys (fst (commonInputSets txs)).
Proof.
  destruct (fold_Inv txs _ Inv_initial) as [Hk Hn _].
  fold (commonInputSets txs) in Hk, Hn. split; [assumption |].
  intros k Hin. destruct (Hn _ Hin) as [i [_ E]]. eauto.
Qed.

Lemma mem_push (cs : Clusters) (k : string) (x : Address) (id : string) (a : Address) :
  mem (Obj.adjust (fun c => c ++ [x]) cs k) id a
  -> mem cs id a \/ (id = k /\ a = x).
Proof.
  unfold mem, Clusters, JsSet.t, Address in *. rewrite get_adjust.
  destruct (String.eqb id k) eqn:E.
  - apply String.eqb_eq in E. subst. intros [s [H Ha]].
    destruct (Obj.get cs k) as [s0 |]; simpl in H; [| discriminate].
    injection H as <-. apply in_app_iff in Ha.
    destruct Ha as [Ha | [<- | []]]; [left; eauto | now right].
  - tauto.
Qed.

Lemma push_mem (cs : Clusters) (k : string) (x : Address) (id : string) (a : Address) :
  mem cs id a -> mem (Obj.adjust (fun c => c ++ [x]) cs k) id a.
Proof.
  unfold mem, Clusters, JsSet.t, Address in *. rewrite get_adjust.
  intros [s [H Ha]].
  destruct (String.eqb id k) eqn:E; [| eauto].
  apply String.eqb_eq in E. subst. rewrite H. simpl.
  eexists. split; [reflexivity |]. apply in_app_iff. now left.
Qed.

Lemma changeStep_namedKeys (txs : list Transaction) (cs : Clusters) (tx : Transaction) :
  namedKeys cs -> namedKeys (changeAddressStep txs cs tx).
Proof.
  intros [Hk Hn]. unfold changeAddressStep. simpl.
  destruct (filter _ (getOutputAddresses tx)) as [| x [| ? ?]]; try (split; assumption).
  destruct (match findOwner cs (getInputAddresses tx) with
            | Some clusterId => if truthy clusterId then Some clusterId else None
            | None => None
            end) as [owner |].
  - unfold namedKeys. rewrite keys_adjust. split; assumption.
  - split; [now apply NoDup_set |].
    intros k. rewrite keys_set. destruct (includes (Obj.keys cs) _); [apply Hn |].
    rewrite in_app_iff. simpl. intros [H | [<- | []]]; [auto | eauto].
Qed.

Lemma changeStep_members (P : Address -> Prop) (txs : list Transaction)
    (cs : Clusters) (tx : Transaction) :
  (forall id a, mem cs id a -> P a) ->
  (forall a, In a (getInputAddresses tx) \/ In a (getOutputAddresses tx) -> P a) ->
  forall id a, mem (changeAddressStep txs cs tx) id a -> P a.
Proof.
  intros Hold Htx id a. unfold changeAddressStep. simpl.
  destruct (filter _ (getOutputAddresses tx)) as [| x [| ? ?]] eqn:F;
    try apply Hold.
  assert (Hx : In x (getOutputAddresses tx)).
  { assert (Hin : In x [x]) by now left. rewrite <- F in Hin.
    apply filter_In in Hin. tauto. }
  destruct (match findOwner cs (getInputAddresses tx) with
            | Some clusterId => if truthy clusterId then Some clusterId else None
            | None => None
            end) as [owner |].
  - intros H. apply mem_push in H. destruct H as [H | [_ ->]]; eauto.
  - rewrite mem_set. intros [[_ Ha] | [_ Ha]]; [| eauto].
    apply in_app_iff in Ha. destruct Ha as [Ha | [<- | []]]; auto.
Qed.

Lemma change_fold (txs l : list Transaction) (cs : Clusters) :
  (forall tx, In tx l -> In tx txs) ->
  namedKeys cs -> (forall id a, mem cs id a -> appears txs a) ->
  namedKeys (fold_left (changeAddressStep txs) l cs)
  /\ forall id a, mem (fold_left (changeAddressStep txs) l cs) id a -> appears txs a.
Proof.
  revert cs. induction l as [| tx l IH]; intros cs Hsub Hk Hm; simpl; [tauto |].
  apply IH.
  - intros tx' H. apply Hsub. now right.
  - now apply changeStep_namedKeys.
  - apply changeStep_members; [assumption |].
    intros a Ha. exists tx. split; [apply Hsub; now left | assumption].
Qed.

Lemma clustered_In (cs : Clusters) (a : Address) :
  In a (clusteredAddressesOf cs) <-> exists id s, In (id, s) cs /\ In a s.
Proof.
  unfold clusteredAddressesOf, Obj.values.
  assert (G : forall s0,
      In a (fold_left (fun s cluster => JsSet.add_all s cluster) (map snd cs) s0)
      <-> In a s0 \/ exists id s, In (id, s) cs /\ In a s).
  { induction cs as [| [k c] cs IH]; intros s0; simpl.
    - split; [tauto | intros [H | [id [s [[] _]]]]; assumption].
    - rewrite IH, add_all_In. split.
      + intros [[H | H] | [id [s [H1 H2]]]]; eauto 8.
      + intros [H | [id [s [[[= -> ->] | H1] H2]]]]; eauto 8. }
  rewrite G. simpl. tauto.
Qed.

(** *** The behavioural fallback *)

Lemma similarStep_same (F : Obj.t Features) (u id : string) (c : Clusters)
    (a : Address) :
  similarStep F u id (c, [u]) a
  = if String.eqb u a then Ok (c, [u])
    else Throw "areFeaturesSimilar is not defined".
Proof.
  unfold similarStep, JsSet.has, includes. simpl.
  rewrite (String.eqb_sym a u). now destruct (String.eqb u a).
Qed.

Lemma similar_fold (F : Obj.t Features) (u id : string) (c : Clusters)
    (l : list Address) :
  foldM (similarStep F u id) l (c, [u])
  = if forallb (String.eqb u) l then Ok (c, [u])
    else Throw "areFeaturesSimilar is not defined".
Proof.
  induction l as [| a l IH]; [reflexivity |].
  cbn [foldM forallb]. rewrite similarStep_same.
  destruct (String.eqb u a); cbn [bind andb]; [apply IH | reflexivity].
Qed.

Lemma processed_fold (F : Obj.t Features) (addrs : list Address) (u : string)
    (c : Clusters) (n : nat) (l : list Address) :
  forallb (String.eqb u) l = true ->
  foldM (behavioralStep F addrs) l (c, n, [u]) = Ok (c, n, [u]).
Proof.
  induction l as [| a l IH]; [reflexivity |].
  cbn [foldM forallb]. intros H. apply andb_true_iff in H. destruct H as [Ha Hl].
  apply String.eqb_eq in Ha. subst a.
  unfold behavioralStep at 1, JsSet.has, includes. cbn [existsb].
  rewrite String.eqb_refl. cbn [orb bind]. now apply IH.
Qed.

(** What [behavioralClustering] does on every list: nothing on the empty
    list, one singleton cluster when all listed addresses are the same one,
    and a [ReferenceError] as soon as two of them differ. *)
Lemma behavioralClustering_spec (txs : list Transaction) (l : list Address) :
  behavioralClustering txs l
  = match l with
    | [] => Ok []
    | u :: rest =>
        if forallb (String.eqb u) rest
        then Ok [(behavioralClusterName 1, [u])]
        else Throw "Behavioral clustering failed: areFeaturesSimilar is not defined"
    end.
Proof.
  destruct l as [| u rest]; [reflexivity |].
  unfold behavioralClustering.
  generalize (fold_left
      (fun (o : Obj.t Features) (a : string) =>
         Obj.set o a (calculateBehavioralFeatures a txs)) (u :: rest) []).
  intros F.
  cbn [foldM]. unfold behavioralStep at 1.
  cbn [JsSet.has includes existsb JsSet.add app Obj.set].
  rewrite similar_fold. cbn [forallb]. rewrite String.eqb_refl. cbn [andb].
  destruct (forallb (String.eqb u) rest) eqn:E.
  - cbn [bind]. rewrite processed_fold by assumption. reflexivity.
  - reflexivity.
Qed.

(** C1 (amended) - coverage of the combined clustering.  Whenever
    [combinedClustering] returns, every listed address lies in a cluster and
    every clustered address is a listed address or an input or output address
    of a transaction; the clusters of [commonInputClustering] alone are
    pairwise disjoint. *)
Theorem combinedClustering_covers
    (transactions : list Transaction) (addresses : list Address)
    (clusters : Clusters) :
  combinedClustering transactions addresses = Ok clusters ->
  (forall a, In a addresses -> exists id, mem clusters id a)
  /\ (forall id a, mem clusters id a ->
        In a addresses \/ appears transactions a)
  /\ (forall inputClusters id1 id2 a,
        commonInputClustering transactions = Ok inputClusters ->
        mem inputClusters id1 a -> mem inputClusters id2 a -> id1 = id2).
Proof.
  intros Hrun.
  split; [| split].
  3: { intros cs id1 id2 a [= <-].
       apply (inv_disjoint _ (fold_Inv transactions _ Inv_initial)). }
  all: unfold combinedClustering, commonInputClustering,
         changeAddressIdentification in Hrun;
       cbn [rethrow bind] in Hrun;
       set (updated := fold_left (changeAddressStep transactions) transactions
                         (fst (commonInputSets transactions))) in Hrun;
       destruct (change_fold transactions transactions
                   (fst (commonInputSets transactions)))
         as [[Hnd Hnames] Hsound];
       [ auto | apply commonInput_namedKeys
       | intros id a Hm; apply commonInput_members in Hm;
         destruct Hm as [tx [H1 H2]]; exists tx; tauto | ];
       fold updated in Hnd, Hnames, Hsound;
       set (unclustered := filter
              (fun a => negb (JsSet.has (clusteredAddressesOf updated) a))
              addresses) in Hrun;
       assert (Hcl : forall a, In a addresses -> ~ In a unclustered ->
                               exists id, mem updated id a)
         by (intros a Ha Hnot;
             destruct (JsSet.has (clusteredAddressesOf updated) a) eqn:E;
             [ apply includes_In in E; apply clustered_In in E;
               destruct E as [id [s [H1 H2]]]; exists id, s;
               split; [now apply In_get | assumption]
             | exfalso; apply Hnot; apply filter_In; split;
               [assumption | now rewrite E] ]);
       assert (Hun : forall a, In a unclustered -> In a addresses)
         by (intros a Ha; apply filter_In in Ha; tauto);
       rewrite behavioralClustering_spec in Hrun;
       destruct unclustered as [| u rest] eqn:Eu; cbn [length Nat.ltb Nat.leb] in Hrun.
  - injection Hrun as <-. intros a Ha. apply Hcl; auto.
  - destruct (forallb (String.eqb u) rest) eqn:Eall; [| discriminate].
    cbn in Hrun. injection Hrun as <-. intros a Ha.
    destruct (in_dec string_dec a (u :: rest)) as [Hin | Hout].
    + exists (behavioralClusterName 1). apply mem_set. left. split; [reflexivity |].
      destruct Hin as [<- | Hin]; [now left |].
      rewrite forallb_forall in Eall. apply Eall in Hin.
      apply String.eqb_eq in Hin. subst. now left.
    + destruct (Hcl a Ha Hout) as [id Hid]. exists id. apply mem_set. right.
      split; [| assumption]. intros ->. apply mem_key in Hid.
      destruct (Hnames _ Hid) as [i E]. symmetry in E.
      exact (clusterName_not_behavioral i 1 E).
  - injection Hrun as <-. intros id a Hm. right. eauto.
  - destruct (forallb (String.eqb u) rest) eqn:Eall; [| discriminate].
    cbn in Hrun. injection Hrun as <-. intros id a Hm.
    apply mem_set in Hm. destruct Hm as [[_ [<- | []]] | [_ Hm]].
    + left. apply Hun. now left.
    + right. eauto.
Qed.

(** C1 - the combined clusters are not a partition: on [payThenCospend],
    address [a] ends in two clusters. *)
Lemma combinedClustering_not_disjoint :
  combinedClustering payThenCospend
    (Identification.extractUniqueAddresses payThenCospend)
  = Ok [("cluster_1", ["a"; "b"]); ("cluster_2", ["x"; "a"])]
  /\ ~ (forall clusters id1 id2 a,
          combinedClustering payThenCospend
            (Identification.extractUniqueAddresses payThenCospend)
          = Ok clusters ->
          mem clusters id1 a -> mem clusters id2 a -> id1 = id2).
Proof.
  split; [reflexivity |].
  intros H.
  specialize (H _ "cluster_1" "cluster_2" "a" eq_refl).
  assert (E : "cluster_1" = "cluster_2"); [| discriminate E].
  apply H; eexists; (split; [reflexivity |]); simpl; tauto.
Qed.

(** C6 - the clustering run fails on three plain deposits: two addresses
    are left for the behavioural fallback, which calls an unbound name. *)
Theorem combinedClustering_throws :
  combinedClustering threeDeposits
    (Identification.extractUniqueAddresses threeDeposits)
  = Throw "Combined clustering failed: Behavioral clustering failed: areFeaturesSimilar is not defined".
Proof. reflexivity. Qed.

Lemma combinedClustering_covers_witness :
  combinedClustering payThenCospend ["x"; "a"; "b"]
  = Ok [("cluster_1", ["a"; "b"]); ("cluster_2", ["x"; "a"])]
  /\ exists id, mem [("cluster_1", ["a"; "b"]); ("cluster_2", ["x"; "a"])] id "b".
Proof.
  split; [reflexivity |].
  exact (proj1 (combinedClustering_covers payThenCospend ["x"; "a"; "b"]
                  [("cluster_1", ["a"; "b"]); ("cluster_2", ["x"; "a"])]
                  eq_refl) "b" (or_intror (or_intror (or_introl eq_refl)))).
Defined.

(** ** Enumeration order and loops that may throw *)

Section ForIn.
Context {V : Type}.

Lemma insertIndexed_perm (n : N) (e : string * V) (l : list (N * (string * V))) :
  Permutation (Obj.insertIndexed n e l) ((n, e) :: l).
Proof.
  induction l as [| [m e'] l IH]; simpl; [reflexivity |].
  destruct (n <? m)%N; [reflexivity |].
  rewrite IH. apply perm_swap.
Qed.

Lemma indexedEntries_perm (o : Obj.t V) :
  Permutation (map snd (Obj.indexedEntries o)) (filter isIndex o).
Proof.
  unfold Obj.indexedEntries.
  assert (G : forall acc,
    Permutation
      (map snd (fold_left
         (fun acc e => match Obj.arrayIndex (fst e) with
                       | Some n => Obj.insertIndexed n e acc
                       | None => acc
                       end) o acc))
      (map snd acc ++ filter isIndex o)).
  { induction o as [| e o IH]; intros acc; simpl.
    - now rewrite app_nil_r.
    - rewrite IH. unfold isIndex at 2.
      destruct (Obj.arrayIndex (fst e)) as [n |]; [| reflexivity].
      rewrite (Permutation_map snd (insertIndexed_perm n e acc)). simpl.
      apply Permutation_middle. }
  apply (G []).
Qed.

Lemma for_in_order_perm (o : Obj.t V) : Permutation (Obj.for_in_order o) o.
Proof.
  unfold Obj.for_in_order. rewrite indexedEntries_perm.
  induction o as [| e o IH]; simpl; [reflexivity |].
  unfold isIndex at 1. destruct (Obj.arrayIndex (fst e)); simpl.
  - now constructor.
  - rewrite <- Permutation_middle. now constructor.
Qed.

Lemma for_in_order_In (o : Obj.t V) (e : string * V) :
  In e (Obj.for_in_order o) <-> In e o.
Proof.
  split; apply Permutation_in;
    [apply for_in_order_perm | symmetry; apply for_in_order_perm].
Qed.

Lemma for_in_order_NoDup (o : Obj.t V) :
  NoDup (Obj.keys o) -> NoDup (Obj.keys (Obj.for_in_order o)).
Proof.
  unfold Obj.keys. apply Permutation_NoDup. apply Permutation_map.
  symmetry. apply for_in_order_perm.
Qed.

End ForIn.

Lemma foldM_app {A S} (f : S -> A -> result S) (l1 l2 : list A) (s : S) :
  foldM f (l1 ++ l2) s = bind (foldM f l1 s) (foldM f l2).
Proof.
  revert s. induction l1 as [| x l1 IH]; intros s; simpl; [reflexivity |].
  destruct (f s x); simpl; [apply IH | reflexivity].
Qed.

Lemma foldM_throws {A S} (f : S -> A -> result S) (l : list A) (s : S) (x : A) :
  In x l -> (forall s', throws (f s' x)) -> throws (foldM f l s).
Proof.
  revert s. induction l as [| y l IH]; intros s Hin Hx; [destruct Hin |].
  simpl. destruct Hin as [-> | Hin].
  - destruct (Hx s) as [m ->]. simpl. now exists m.
  - destruct (f s y) as [s' | m]; simpl; [now apply IH | now exists m].
Qed.

Lemma foldM_invariant {A S} (P : S -> Prop) (f : S -> A -> result S)
    (l : list A) (s r : S) :
  (forall s x s', In x l -> P s -> f s x = Ok s' -> P s') ->
  P s -> foldM f l s = Ok r -> P r.
Proof.
  revert s. induction l as [| y l IH]; intros s Hstep Hs; simpl.
  - now intros [= <-].
  - destruct (f s y) as [s' |] eqn:E; simpl; [| discriminate].
    apply IH.
    + intros s0 x s0' Hx. apply Hstep. now right.
    + apply (Hstep s y s'); [now left | assumption | assumption].
Qed.

(** ** Attribution: where the hits and the confidence come from *)

Lemma attributeCluster_eq (st : Store) (acc : Obj.t ClusterAttribution.t)
    (clusterId : string) (clusterAddresses : list Address) :
  Attribution.attributeCluster st acc (clusterId, clusterAddresses)
  = bind (attributionOf st clusterAddresses)
         (fun r => Ok (Obj.set acc clusterId r)).
Proof.
  unfold Attribution.attributeCluster, attributionOf.
  destruct (Attribution.collectHits st clusterAddresses) as [hits | m]; simpl;
    [| reflexivity].
  destruct (0 <? length hits)%nat; [| reflexivity].
  now destruct (Attribution.calculateConsensusAttribution hits _).
Qed.


Lemma collectHits_from (st : Store) (l : list Address) (hits : list Hit.t) :
  Attribution.collectHits st l = Ok hits -> Forall (hitFrom st l) hits.
Proof.
  unfold Attribution.collectHits.
  apply (foldM_invariant (fun acc => Forall (hitFrom st l) acc)); [| constructor].
  intros acc a acc' Ha Hacc.
  destruct (findEntityForAddress st a) as [[e |] | m] eqn:F; simpl;
    try discriminate; intros [= <-]; [| assumption].
  apply Forall_app. split; [assumption |]. constructor; [| constructor].
  now exists e, a.
Qed.




Local Open Scope Q_scope.

Lemma Qnat_nonneg (n : nat) : 0 <= Qnat n.
Proof.
  unfold Qnat, Qle. simpl. lia.
Qed.

Lemma Qdiv_nonneg (a b : Q) : 0 <= a -> 0 <= b -> 0 <= a / b.
Proof.
  intros Ha Hb. unfold Qdiv. apply Qmult_le_0_compat; [assumption |].
  now apply Qinv_le_0_compat.
Qed.



Close Scope Q_scope.



Lemma attributeClusters_fold_entry (st : Store) (l : list (string * list Address))
    (acc res : Obj.t ClusterAttribution.t) :
  NoDup (map fst l) ->
  foldM (Attribution.attributeCluster st) l acc = Ok res ->
  (forall cid cluster, In (cid, cluster) l ->
     exists r, Obj.get res cid = Some r /\ attributionOf st cluster = Ok r)
  /\ (forall cid, ~ In cid (map fst l) -> Obj.get res cid = Obj.get acc cid).
Proof.
  revert acc. induction l as [| [k c] l IH]; intros acc Hnd; cbn [foldM].
  - intros [= <-]. split; [intros ? ? [] | reflexivity].
  - rewrite attributeCluster_eq.
    destruct (attributionOf st c) as [r0 |] eqn:E; simpl; [| discriminate].
    inversion Hnd as [| ? ? Hk Hnd']; subst.
    intros H. destruct (IH _ Hnd' H) as [IH1 IH2]. split.
    + intros cid cluster [[= -> ->] | Hin]; [| now apply IH1].
      exists r0. split; [| assumption].
      rewrite (IH2 _ Hk), get_set, String.eqb_refl. reflexivity.
    + intros cid Hout. rewrite IH2 by tauto. rewrite get_set.
      destruct (String.eqb cid k) eqn:Ek; [| reflexivity].
      apply String.eqb_eq in Ek. subst. tauto.
Qed.

(** Conversely, every cluster of the input has its attribution in the map. *)
Lemma attributeClusters_entry (st : Store) (clusters : Clusters)
    (res : Obj.t ClusterAttribution.t) (cid : string) (cluster : list Address) :
  NoDup (Obj.keys clusters) ->
  Attribution.attributeClusters st clusters = Ok res ->
  In (cid, cluster) clusters ->
  exists r, Obj.get res cid = Some r /\ attributionOf st cluster = Ok r.
Proof.
  unfold Attribution.attributeClusters, getEntities. cbn [rethrow bind].
  intros Hnd.
  destruct (foldM _ _ _) as [res' |] eqn:F; simpl; [| discriminate].
  intros [= <-] Hin.
  apply attributeClusters_fold_entry in F; [| now apply for_in_order_NoDup].
  apply (proj1 F). exact (proj2 (for_in_order_In _ _) Hin).
Qed.

Lemma Qltb_lt (a b : Q) : Qltb a b = true <-> (a < b)%Q.
Proof.
  unfold Qltb. rewrite negb_true_iff. split.
  - intros H. apply Qnot_le_lt. intros Hle. apply Qle_bool_iff in Hle. congruence.
  - intros H. destruct (Qle_bool b a) eqn:E; [| reflexivity].
    apply Qle_bool_iff in E. exfalso. now apply (Qlt_not_le a b).
Qed.

Local Open Scope Q_scope.



Close Scope Q_scope.

(** ** Confidence and risk bounds *)

Local Open Scope Q_scope.









Close Scope Q_scope.

Local Open Scope Q_scope.





Close Scope Q_scope.

Lemma collectHits_none (st : Store) (l : list Address) (acc : list Hit.t) :
  (forall x, In x l -> findEntityForAddress st x = Ok None) ->
  foldM (fun attributions a =>
           bind (findEntityForAddress st a) (fun entity =>
           match entity with
           | Some e => Ok (attributions ++ [Attribution.hitOf e a])
           | None => Ok attributions
           end)) l acc = Ok acc.
Proof.
  induction l as [| x l IH]; intros H; cbn [foldM]; [reflexivity |].
  rewrite (H x) by now left. cbn [bind]. apply IH.
  intros y Hy. apply H. now right.
Qed.

Lemma collectHits_single (st : Store) (l1 l2 : list Address) (a : Address)
    (e : Entity) :
  (forall x, In x (l1 ++ l2) -> findEntityForAddress st x = Ok None) ->
  findEntityForAddress st a = Ok (Some e) ->
  Attribution.collectHits st (l1 ++ a :: l2) = Ok [Attribution.hitOf e a].
Proof.
  intros Hnone Ha. unfold Attribution.collectHits.
  rewrite foldM_app, collectHits_none.
  - cbn [bind foldM]. rewrite Ha. cbn [bind app]. apply collectHits_none.
    intros x Hx. apply Hnone. apply in_app_iff. now right.
  - intros x Hx. apply Hnone. apply in_app_iff. now left.
Qed.

Local Open Scope Q_scope.

Lemma binance_attribution (st : Store) (l1 l2 : list Address) (a : Address)
    (e : Entity) :
  length (l1 ++ a :: l2) = 3%nat ->
  (forall x, In x (l1 ++ l2) -> findEntityForAddress st x = Ok None) ->
  findEntityForAddress st a = Ok (Some e) ->
  id e = "1"%string -> name e = "Binance"%string -> confidenceScore e == 0.95 ->
  exists r, attributionOf st (l1 ++ a :: l2) = Ok r
    /\ ClusterAttribution.entityId r = Some "1"%string
    /\ ClusterAttribution.entityName r = "Binance"%string
    /\ ClusterAttribution.confidence r == 0.78
    /\ ClusterAttribution.addresses r = l1 ++ a :: l2
    /\ ClusterAttribution.matchedAddresses r = [a].
Proof.
  intros Hlen Hnone Ha Hid Hname Hconf. unfold attributionOf.
  rewrite (collectHits_single st l1 l2 a e Hnone Ha). cbn [bind length Nat.ltb Nat.leb].
  rewrite Hlen. destruct e as [i n t d ads cs]. simpl in Hid, Hname, Hconf. subst i n.
  eexists. split; [reflexivity |]. cbn.
  repeat split.
  destruct (Q.min_spec 0.99
              (Qnat 1 / Qnat 3 * 0.3 + cs * 0.4
               + Qnat 1 / Qnat 1 * 0.3)) as [[H1 H2] | [H1 H2]];
    rewrite H2; rewrite Hconf in *; [| reflexivity].
  exfalso. revert H1. apply Qle_not_lt. discriminate.
Qed.

Close Scope Q_scope.

(** C4 - the Binance scenario.  A cluster of three addresses, one of which
    resolves to the entity with id "1", name "Binance" and confidence score
    0.95 while the other two resolve to no entity, is attributed to entity
    "1", "Binance", with confidence 0.3 x 1/3 + 0.4 x 0.95 + 0.3 x 1 = 0.78. *)
Theorem binance_cluster_attribution (st : Store) (clusters : Clusters)
    (clusterId : string) (l1 l2 : list Address) (a : Address) (e : Entity)
    (res : Obj.t ClusterAttribution.t) :
  NoDup (Obj.keys clusters) ->
  In (clusterId, l1 ++ a :: l2) clusters ->
  length (l1 ++ a :: l2) = 3 ->
  (forall x, In x (l1 ++ l2) -> findEntityForAddress st x = Ok None) ->
  findEntityForAddress st a = Ok (Some e) ->
  id e = "1" -> name e = "Binance" -> (confidenceScore e == 0.95)%Q ->
  Attribution.attributeClusters st clusters = Ok res ->
  exists r, Obj.get res clusterId = Some r
    /\ ClusterAttribution.entityId r = Some "1"
    /\ ClusterAttribution.entityName r = "Binance"
    /\ (ClusterAttribution.confidence r == 0.78)%Q
    /\ ClusterAttribution.addresses r = l1 ++ a :: l2
    /\ ClusterAttribution.matchedAddresses r = [a].
Proof.
  intros Hnd Hin Hlen Hnone Ha Hid Hname Hconf Hrun.
  destruct (attributeClusters_entry _ _ _ _ _ Hnd Hrun Hin) as [r [Hg Hr]].
  destruct (binance_attribution st l1 l2 a e Hlen Hnone Ha Hid Hname Hconf)
    as [r' [Hr' Hprops]].
  exists r. split; [assumption |]. congruence.
Qed.

Lemma binance_cluster_attribution_witness :
  exists res r,
    Attribution.attributeClusters initialStore binanceCluster = Ok res
    /\ Obj.get res "cluster_1" = Some r
    /\ ClusterAttribution.entityId r = Some "1"
    /\ ClusterAttribution.entityName r = "Binance"
    /\ (ClusterAttribution.confidence r == 0.78)%Q.
Proof.
  assert (Hrun : {res | Attribution.attributeClusters initialStore binanceCluster
                         = Ok res})
    by (eexists; vm_compute; reflexivity).
  destruct Hrun as [res Hrun]. exists res.
  destruct (binance_cluster_attribution initialStore binanceCluster "cluster_1"
              ["0xaaa"] ["0xbbb"] "0x3f5CE5FBFe3E9af3971dD833D26bA9b5C936f0bE"
              (hd {| id := ""; name := ""; type := ""; description := "";
                     addresses := []; confidenceScore := 0%Q |} mockEntities)
              res)
    as [r [H1 [H2 [H3 [H4 _]]]]];
    [ repeat constructor; simpl; tauto
    | now left
    | reflexivity
    | intros x [<- | [<- | []]]; reflexivity
    | reflexivity | reflexivity | reflexivity | reflexivity
    | exact Hrun
    | exists r; auto ].
Defined.

(** ** Risk of an unknown address *)

Local Open Scope Q_scope.








Close Scope Q_scope.

(** ** Failing lookups *)

Lemma collectHits_throws (st : Store) (l : list Address) (a : Address) (m : string) :
  In a l -> findEntityForAddress st a = Throw m ->
  throws (Attribution.collectHits st l).
Proof.
  intros Hin Hm. unfold Attribution.collectHits.
  apply foldM_throws with (x := a); [assumption |].
  intros acc. rewrite Hm. now exists m.
Qed.

Lemma attributeCluster_throws (st : Store) (acc : Obj.t ClusterAttribution.t)
    (cid : string) (cluster : list Address) (a : Address) (m : string) :
  In a cluster -> findEntityForAddress st a = Throw m ->
  throws (Attribution.attributeCluster st acc (cid, cluster)).
Proof.
  intros Hin Hm. unfold Attribution.attributeCluster.
  destruct (collectHits_throws st cluster a m Hin Hm) as [m' ->].
  now exists m'.
Qed.

(** C8 (amended) - a lookup that throws.  [calculateAddressRisk] falls back
    to the "Unknown" entity and still returns an assessment;
    [attributeClusters] has no such fallback: a failing lookup for one member
    of one cluster rejects the whole call with "Cluster attribution failed". *)
Theorem lookup_failure_handling (st : Store) (a : Address) (m : string) :
  findEntityForAddress st a = Throw m ->
  (forall now, exists r,
      Risk.calculateAddressRisk now st a = Ok r
      /\ RiskAssessment.entityId r = None
      /\ RiskAssessment.entityName r = "Unknown"
      /\ RiskAssessment.entityType r = "Unknown")
  /\ (forall clusters cid cluster,
        In (cid, cluster) clusters -> In a cluster ->
        exists m', Attribution.attributeClusters st clusters
                   = Throw ("Cluster attribution failed: " ++ m')).
Proof.
  intros Hm. split.
  - intros now. unfold Risk.calculateAddressRisk. cbn [rethrow].
    eexists. split; [reflexivity |].
    unfold Risk.resolveEntityInfo, Identification.identifyAddressEntity.
    rewrite Hm. cbn [bind rethrow]. repeat split.
  - intros clusters cid cluster Hin Ha.
    unfold Attribution.attributeClusters, getEntities. cbn [rethrow bind].
    assert (Hin' : In (cid, cluster) (Obj.for_in_order clusters))
      by exact (proj2 (for_in_order_In _ _) Hin).
    destruct (foldM_throws (Attribution.attributeCluster st)
                (Obj.for_in_order clusters) [] (cid, cluster) Hin'
                (fun acc => attributeCluster_throws st acc cid cluster a m Ha Hm))
      as [m' ->].
    now exists m'.
Qed.

Lemma lookup_failure_handling_witness :
  exists m', Attribution.attributeClusters brokenStore [("cluster_1", ["0xdead"])]
             = Throw ("Cluster attribution failed: " ++ m').
Proof.
  assert (H : findEntityForAddress brokenStore "0xdead"
              = Throw "Unable to fetch entity: Entity with ID 9 not found")
    by (vm_compute; reflexivity).
  exact (proj2 (lookup_failure_handling brokenStore "0xdead" _ H)
           [("cluster_1", ["0xdead"])] "cluster_1" ["0xdead"]
           (or_introl eq_refl) (or_introl eq_refl)).
Defined.

(** C8 - one failing lookup rejects the whole attribution run. *)
Lemma attributeClusters_propagates_lookup_failure :
  findEntityForAddress brokenStore "0xdead"
  = Throw "Unable to fetch entity: Entity with ID 9 not found"
  /\ Attribution.attributeClusters brokenStore
       [("cluster_1", ["0xaaa"]); ("cluster_2", ["0xdead"])]
     = Throw "Cluster attribution failed: Unable to fetch entity: Entity with ID 9 not found".
Proof. split; vm_compute; reflexivity. Qed.

(** ** Proposed store updates *)

Lemma keepsEntities_refl (st : Store) : keepsEntities st st.
Proof. intros e He. exists e. repeat split; assumption. Qed.

Lemma keepsEntities_trans (s1 s2 s3 : Store) :
  keepsEntities s1 s2 -> keepsEntities s2 s3 -> keepsEntities s1 s3.
Proof.
  intros H12 H23 e He. destruct (H12 e He) as [e2 [He2 [A1 [A2 [A3 A4]]]]].
  destruct (H23 e2 He2) as [e3 [He3 [B1 [B2 [B3 B4]]]]].
  exists e3. split; [assumption |]. repeat split; congruence.
Qed.

Lemma replaceEntity_keeps (i : string) (l : list Entity) (e0 upd : Entity) :
  find (fun e => String.eqb (id e) i) l = Some e0 ->
  sameIdentity e0 upd ->
  forall e, In e l ->
    exists e', In e' (replaceEntity i upd l) /\ sameIdentity e e'.
Proof.
  intros Hf Hsame. induction l as [| x l IH]; simpl in *; [tauto |].
  destruct (String.eqb (id x) i) eqn:E.
  - injection Hf as <-. intros e [<- | He].
    + exists upd. split; [now left | assumption].
    + exists e. split; [now right | repeat split].
  - intros e [<- | He].
    + exists x. split; [now left | repeat split].
    + destruct (IH Hf e He) as [e' [H1 H2]]. exists e'. split; [now right | assumption].
Qed.

Lemma updateEntity_keeps (st : Store) (i : string) (l : list Address) :
  keepsEntities st (snd (updateEntity st i l)).
Proof.
  unfold updateEntity.
  destruct (find (fun e => String.eqb (id e) i) (entities st)) as [e0 |] eqn:F;
    [| apply keepsEntities_refl].
  simpl. intros e He.
  apply (replaceEntity_keeps i (entities st) e0); [assumption | | assumption].
  apply find_some in F. destruct F as [_ F]. apply String.eqb_eq in F.
  repeat split. simpl. assumption.
Qed.

Section UpdateFacts.
Variable uuidv4 : nat -> string.

Lemma createEntity_keeps (st : Store) (n t d : string) (l : list Address) (c : Q) :
  keepsEntities st (snd (createEntity uuidv4 st n t d l c)).
Proof.
  intros e He. exists e. split; [| repeat split].
  simpl. apply in_app_iff. now left.
Qed.

Lemma grows_refl (s : UpdateResults.t * Store) : grows s s.
Proof. repeat split; auto. apply keepsEntities_refl. Qed.

Lemma grows_trans (s1 s2 s3 : UpdateResults.t * Store) :
  grows s1 s2 -> grows s2 s3 -> grows s1 s3.
Proof.
  intros [A1 [A2 A3]] [B1 [B2 B3]]. repeat split; auto.
  now apply keepsEntities_trans with (snd s2).
Qed.

Lemma grows_skip (r : UpdateResults.t) (st : Store) (x : Skipped.t) :
  grows (r, st) (Attribution.pushSkipped r x, st).
Proof.
  repeat split; simpl; auto.
  - intros y Hy. apply in_app_iff. now left.
  - apply keepsEntities_refl.
Qed.

Lemma extendEntity_grows (st : Store) (r : UpdateResults.t)
    (cid i : string) (att : ClusterAttribution.t) :
  grows (r, st) (Attribution.extendEntity st r cid i att).
Proof.
  unfold Attribution.extendEntity.
  destruct (getEntityById st i) as [e | m]; [| apply grows_skip].
  destruct (filter (fun addr => negb (includes (addresses e) addr))
                   (ClusterAttribution.addresses att)) as [| x xs];
    [apply grows_skip |].
  pose proof (updateEntity_keeps st i (addresses e ++ x :: xs)) as Hk.
  destruct (updateEntity st i (addresses e ++ x :: xs)) as [[u | m] st'];
    simpl in Hk; repeat split; simpl; auto.
  intros y Hy. apply in_app_iff. now left.
Qed.

Lemma createOrSkip_grows (st : Store) (r : UpdateResults.t)
    (cid : string) (att : ClusterAttribution.t) :
  grows (r, st) (Attribution.createOrSkip uuidv4 st r cid att).
Proof.
  unfold Attribution.createOrSkip.
  destruct (3 <=? length (ClusterAttribution.addresses att))%nat;
    [| apply grows_skip].
  cbn [createEntity]. repeat split; simpl; auto.
  - intros y Hy. apply in_app_iff. now left.
  - intros e He. exists e. split; [| repeat split]. apply in_app_iff. now left.
Qed.

Lemma updateStep_grows (thr : Q) (s : UpdateResults.t * Store)
    (entry : string * ClusterAttribution.t) :
  grows s (Attribution.updateStep uuidv4 thr s entry).
Proof.
  destruct s as [r st], entry as [cid att]. unfold Attribution.updateStep.
  destruct (Qltb _ thr); [apply grows_skip |].
  destruct (ClusterAttribution.entityId att) as [i |];
    [| apply createOrSkip_grows].
  destruct (truthy i); [apply extendEntity_grows | apply createOrSkip_grows].
Qed.

Lemma updateFold_grows (thr : Q) (l : list (string * ClusterAttribution.t))
    (s : UpdateResults.t * Store) :
  grows s (fold_left (Attribution.updateStep uuidv4 thr) l s).
Proof.
  revert s. induction l as [| x l IH]; intros s; simpl; [apply grows_refl |].
  eapply grows_trans; [apply updateStep_grows | apply IH].
Qed.

End UpdateFacts.

(** C7 (amended) - [updateEntitiesWithAttributions] with the default
    threshold 0.8.  Every attribution below the threshold is skipped as
    [low_confidence], whatever its entity and size.  An attribution at or
    above the threshold that names no entity leads, with three member
    addresses or more, to a new entity named after the cluster id, of type
    "Unknown" and confidence score 0.6, reported in [created]; with fewer than
    three it is skipped as [small_unattributed_cluster]. *)
Theorem updateEntities_default_threshold (uuidv4 : nat -> string) (st : Store)
    (attributionResults : Obj.t ClusterAttribution.t) (clusterId : string)
    (attribution : ClusterAttribution.t) :
  In (clusterId, attribution) attributionResults ->
  exists u st',
    Attribution.updateEntitiesWithAttributions uuidv4 st attributionResults None
    = (Ok u, st')
    /\ ((ClusterAttribution.confidence attribution < 0.8)%Q ->
        In (Attribution.skip clusterId None "low_confidence"
              (Some (ClusterAttribution.confidence attribution)) None None)
           (UpdateResults.skipped u))
    /\ (~ (ClusterAttribution.confidence attribution < 0.8)%Q ->
        noEntity attribution ->
        3 <= length (ClusterAttribution.addresses attribution) ->
        exists c e,
          In c (UpdateResults.created u)
          /\ Created.clusterId c = clusterId
          /\ Created.entityName c = ("Cluster " ++ clusterId)%string
          /\ Created.addressCount c
             = length (ClusterAttribution.addresses attribution)
          /\ In e (entities st')
          /\ id e = Created.entityId c
          /\ name e = ("Cluster " ++ clusterId)%string
          /\ type e = "Unknown"
          /\ confidenceScore e = 0.6%Q)
    /\ (~ (ClusterAttribution.confidence attribution < 0.8)%Q ->
        noEntity attribution ->
        length (ClusterAttribution.addresses attribution) < 3 ->
        In (Attribution.skip clusterId None "small_unattributed_cluster" None
              (Some (length (ClusterAttribution.addresses attribution))) None)
           (UpdateResults.skipped u)).
Proof.
  intros Hin. unfold Attribution.updateEntitiesWithAttributions.
  apply (proj2 (for_in_order_In _ _)) in Hin.
  apply in_split in Hin. destruct Hin as [l1 [l2 ->]].
  rewrite fold_left_app. cbn [fold_left].
  destruct (fold_left (Attribution.updateStep uuidv4 0.8%Q) l1
              (Attribution.emptyUpdateResults, st)) as [r1 st1].
  pose proof (updateFold_grows uuidv4 0.8%Q l2
                (Attribution.updateStep uuidv4 0.8%Q (r1, st1)
                   (clusterId, attribution))) as [Gs [Gc Ge]].
  destruct (fold_left _ l2 _) as [u st'] eqn:F. cbn [fst snd] in Gs, Gc, Ge.
  exists u, st'. split; [reflexivity |].
  assert (Hcase : noEntity attribution ->
            match ClusterAttribution.entityId attribution with
            | Some entityId =>
                if truthy entityId
                then Attribution.extendEntity st1 r1 clusterId entityId attribution
                else Attribution.createOrSkip uuidv4 st1 r1 clusterId attribution
            | None => Attribution.createOrSkip uuidv4 st1 r1 clusterId attribution
            end
            = Attribution.createOrSkip uuidv4 st1 r1 clusterId attribution).
  { unfold noEntity.
    destruct (ClusterAttribution.entityId attribution) as [i |];
      [intros ->; reflexivity | reflexivity]. }
  split; [| split].
  - intros Hlt. apply Qltb_lt in Hlt. apply Gs.
    unfold Attribution.updateStep. rewrite Hlt. simpl.
    apply in_app_iff. right. now left.
  - intros Hge Hno Hlen.
    assert (Hb : Qltb (ClusterAttribution.confidence attribution) 0.8 = false).
    { destruct (Qltb _ 0.8) eqn:E; [| reflexivity].
      apply Qltb_lt in E. contradiction. }
    unfold Attribution.updateStep in Gc, Ge. rewrite Hb in Gc, Ge.
    rewrite (Hcase Hno) in Gc, Ge.
    unfold Attribution.createOrSkip in Gc, Ge.
    apply Nat.leb_le in Hlen. rewrite Hlen in Gc, Ge.
    cbn [createEntity fst snd] in Gc, Ge.
    set (e := {| id := uuidv4 (uuidsDrawn st1);
                 name := ("Cluster " ++ clusterId)%string; type := "Unknown";
                 description := "Automatically identified address cluster";
                 addresses := ClusterAttribution.addresses attribution;
                 confidenceScore := 0.6%Q |}) in *.
    destruct (Ge e) as [e' [He' [S1 [S2 [S3 S4]]]]].
    { cbn [entities]. apply in_app_iff. right. now left. }
    eexists. exists e'. split.
    { apply Gc. cbn [Attribution.pushCreated UpdateResults.created].
      apply in_app_iff. right. left. reflexivity. }
    cbn. repeat split; try assumption; symmetry; assumption.
  - intros Hge Hno Hlen.
    assert (Hb : Qltb (ClusterAttribution.confidence attribution) 0.8 = false).
    { destruct (Qltb _ 0.8) eqn:E; [| reflexivity].
      apply Qltb_lt in E. contradiction. }
    apply Gs. unfold Attribution.updateStep. rewrite Hb.
    rewrite (Hcase Hno). unfold Attribution.createOrSkip.
    assert (Hl : (3 <=? length (ClusterAttribution.addresses attribution))%nat
                 = false) by (apply Nat.leb_gt; assumption).
    rewrite Hl. simpl. apply in_app_iff. right. now left.
Qed.

Lemma updateEntities_default_threshold_witness :
  exists u st',
    Attribution.updateEntitiesWithAttributions sampleUuid initialStore
      sampleAttributions None = (Ok u, st')
    /\ exists c, In c (UpdateResults.created u)
                 /\ Created.entityName c = "Cluster cluster_1".
Proof.
  destruct (updateEntities_default_threshold sampleUuid initialStore
              sampleAttributions "cluster_1"
              (snd (hd ("", Attribution.unknownCluster []) sampleAttributions))
              (or_introl eq_refl))
    as [u [st' [H1 [_ [H2 _]]]]].
  exists u, st'. split; [exact H1 |].
  destruct H2 as [c [e [Hc [_ [Hn _]]]]].
  - vm_compute. discriminate.
  - exact I.
  - simpl. lia.
  - exists c. split; assumption.
Defined.

(** C7 - what [attributeClusters] reports for an unattributed cluster
    (confidence 0) is skipped as [low_confidence] even with three member
    addresses: nothing is created for it. *)
Lemma unattributed_cluster_not_created :
  Attribution.updateEntitiesWithAttributions sampleUuid initialStore
    [("cluster_2", Attribution.unknownCluster ["0xd"; "0xe"; "0xf"])] None
  = (Ok {| UpdateResults.updated := []; UpdateResults.created := [];
           UpdateResults.skipped :=
             [Attribution.skip "cluster_2" None "low_confidence" (Some 0%Q)
                               None None] |},
     initialStore)
  /\ noEntity (Attribution.unknownCluster ["0xd"; "0xe"; "0xf"])
  /\ 3 <= length (ClusterAttribution.addresses
                    (Attribution.unknownCluster ["0xd"; "0xe"; "0xf"])).
Proof.
  split; [vm_compute; reflexivity |]. split; [exact I | simpl; lia].
Qed.

(** ** The orchestrator and the store *)

(** C10 - the update step is on by default.  When clustering and
    attribution succeed, [identifyEntitiesFromTransactions] runs
    [updateEntitiesWithAttributions] on the store unless [updateEntities] is
    exactly [false]: the result then carries the update report and the store is
    the one the update step leaves; with [updateEntities: false] the report is
    [null], the store is untouched, and clusters and attributions are
    returned all the same. *)
Theorem identify_updates_by_default (uuidv4 : nat -> string) (st : Store)
    (transactions : list Transaction) (options : Options)
    (clusters : Clusters) (attributionResults : Obj.t ClusterAttribution.t) :
  combinedClustering transactions
    (Identification.extractUniqueAddresses transactions) = Ok clusters ->
  Attribution.attributeClusters st clusters = Ok attributionResults ->
  (updateEntities options <> JsBool false ->
   exists r u st',
     Identification.identifyEntitiesFromTransactions uuidv4 st transactions options
     = (Ok r, st')
     /\ Attribution.updateEntitiesWithAttributions uuidv4 st attributionResults
          (Some (thresholdOf options)) = (Ok u, st')
     /\ Identification.updates r = Some u
     /\ Identification.clusters r = clusters
     /\ Identification.attributions r = attributionResults)
  /\ (updateEntities options = JsBool false ->
      exists r,
        Identification.identifyEntitiesFromTransactions uuidv4 st transactions
          options = (Ok r, st)
        /\ Identification.updates r = None
        /\ Identification.clusters r = clusters
        /\ Identification.attributions r = attributionResults).
Proof.
  intros Hc Ha. unfold Identification.identifyEntitiesFromTransactions.
  rewrite Hc, Ha. split.
  - intros Hne.
    assert (Hb : notStrictlyFalse (updateEntities options) = true).
    { destruct (updateEntities options) as [| | [|] | |]; try reflexivity.
      now elim Hne. }
    rewrite Hb. fold (thresholdOf options).
    unfold Attribution.updateEntitiesWithAttributions.
    destruct (fold_left _ _ _) as [u st']. cbn [rethrow].
    eexists. exists u, st'. repeat split.
  - intros ->. cbn [notStrictlyFalse]. eexists. repeat split.
Qed.

Lemma identify_updates_by_default_witness :
  exists r u st',
    Identification.identifyEntitiesFromTransactions sampleUuid initialStore
      cospendWithBinance noOptions = (Ok r, st')
    /\ Identification.updates r = Some u
    /\ length (UpdateResults.updated u) = 1
    /\ st' <> initialStore.
Proof.
  destruct (combinedClustering cospendWithBinance
              (Identification.extractUniqueAddresses cospendWithBinance))
    as [c | m] eqn:Hc; [| vm_compute in Hc; discriminate Hc].
  destruct (Attribution.attributeClusters initialStore c) as [a | m] eqn:Ha;
    [| vm_compute in Hc; injection Hc as <-; vm_compute in Ha; discriminate Ha].
  destruct (proj1 (identify_updates_by_default sampleUuid initialStore
                     cospendWithBinance noOptions c a Hc Ha))
    as [r [u [st' [H1 [H2 [H3 _]]]]]]; [discriminate |].
  exists r, u, st'. split; [exact H1 |]. split; [exact H3 |].
  vm_compute in Hc. injection Hc as <-.
  vm_compute in Ha. injection Ha as <-.
  vm_compute in H2. injection H2 as <- <-.
  split; [reflexivity | discriminate].
Defined.

(** ** Pattern confidence *)

Local Open Scope Q_scope.










Lemma insertTime_length (t : Z) (l : list Z) :
  length (Patterns.insertTime t l) = S (length l).
Proof.
  induction l as [| u l IH]; simpl; [reflexivity |].
  destruct (t <? u)%Z; simpl; [reflexivity | now rewrite IH].
Qed.

Lemma sortedTimes_length (l : list Z) :
  length (fold_right Patterns.insertTime [] l) = length l.
Proof.
  induction l as [| t l IH]; simpl; [reflexivity |].
  now rewrite insertTime_length, IH.
Qed.

Lemma intervalsOf_length (l : list Z) :
  length (Patterns.intervalsOf l) = pred (length l).
Proof.
  induction l as [| t l IH]; [reflexivity |].
  destruct l as [| u l]; [reflexivity |].
  change (Patterns.intervalsOf (t :: u :: l))
    with ((inject_Z (u - t) / inject_Z (1000 * 60 * 60))
          :: Patterns.intervalsOf (u :: l)).
  simpl length in *. now rewrite IH.
Qed.





Lemma Qnat_le (i j : nat) : (i <= j)%nat -> Qnat i <= Qnat j.
Proof. intros H. unfold Qnat, Qle. simpl. lia. Qed.


Close Scope Q_scope.

(* ================================================================== *)
(** * Further properties of the services *)

(** ** Common-input clusters are the components of co-spending *)

Lemma linked_trans (txs : list Transaction) (a b c : Address) :
  linked txs a b -> linked txs b c -> linked txs a c.
Proof.
  intros Hab Hbc. induction Hbc as [| b c d tx Hbc IH Hin Hlen Hc Hd].
  - assumption.
  - apply linked_step with c tx; auto.
Qed.

Lemma linked_pair (txs : list Transaction) (tx : Transaction) (a b : Address) :
  In tx txs -> 2 <= length (getInputAddresses tx) ->
  In a (getInputAddresses tx) -> In b (getInputAddresses tx) ->
  linked txs a b.
Proof.
  intros Hin Hlen Ha Hb. apply linked_step with a tx; auto. apply linked_refl.
Qed.

Lemma linked_sym (txs : list Transaction) (a b : Address) :
  linked txs a b -> linked txs b a.
Proof.
  intros H. induction H as [| a b c tx Hab IH Hin Hlen Hb Hc].
  - apply linked_refl.
  - apply linked_trans with b; [| assumption].
    now apply linked_pair with tx.
Qed.

(** Members of one cluster are linked: kept by a step on a transaction of
    the list. *)
Lemma step_linked (txs : list Transaction) (st : Obj.t JsSet.t * nat)
    (tx : Transaction) :
  Inv st -> In tx txs ->
  (forall id a b, mem (fst st) id a -> mem (fst st) id b -> linked txs a b) ->
  forall id a b,
    mem (fst (commonInputStep st tx)) id a ->
    mem (fst (commonInputStep st tx)) id b -> linked txs a b.
Proof.
  intros HI Hin Hold id a b. destruct st as [cs n]. unfold commonInputStep.
  destruct (Nat.leb_spec (length (getInputAddresses tx)) 1) as [Hle | Hlen];
    [apply Hold |].
  assert (Hpair : forall x y, In x (getInputAddresses tx) ->
                              In y (getInputAddresses tx) -> linked txs x y).
  { intros x y Hx Hy. apply linked_pair with tx; auto. }
  destruct (existingClustersOf cs (getInputAddresses tx)) as [| c [| o rest]] eqn:Ex;
    simpl in *.
  - rewrite !mem_set, !of_list_In.
    intros [[E1 Ha] | [E1 Ha]] [[E2 Hb] | [E2 Hb]]; eauto; congruence.
  - assert (Hhub : forall x, mem cs c x ->
                     exists x0, In x0 (getInputAddresses tx) /\ linked txs x x0).
    { intros x Hx.
      assert (Hc : In c (existingClustersOf cs (getInputAddresses tx)))
        by (rewrite Ex; now left).
      apply (ex_mem _ _ _ HI) in Hc. destruct Hc as [x0 [Hx0 Hm]]. eauto. }
    rewrite !mem_addAddresses.
    intros [Ha | [-> [_ Ha]]] [Hb | [E [_ Hb]]]; subst; eauto.
    + destruct (Hhub _ Ha) as [x0 [Hx0 Hl]].
      apply linked_trans with x0; auto.
    + destruct (Hhub _ Hb) as [x0 [Hx0 Hl]].
      apply linked_trans with x0; auto. now apply linked_sym.
  - assert (Hhub : forall k x, In k (c :: o :: rest) -> mem cs k x ->
                     exists x0, In x0 (getInputAddresses tx) /\ linked txs x x0).
    { intros k x Hk Hx. rewrite <- Ex in Hk.
      apply (ex_mem _ _ _ HI) in Hk. destruct Hk as [x0 [Hx0 Hm]]. eauto. }
    assert (Hnew : forall x,
               mem cs c x \/ In x (getInputAddresses tx)
               \/ (exists k, In k (o :: rest) /\ mem cs k x) ->
               exists x0, In x0 (getInputAddresses tx) /\ linked txs x x0).
    { intros x [Hx | [Hx | [k [Hk Hx]]]].
      - apply (Hhub c); [now left | assumption].
      - exists x. split; [assumption | apply linked_refl].
      - apply (Hhub k); [now right | assumption]. }
    rewrite !(mem_merged _ _ _ HI _ _ Ex).
    intros [Hn1 Ha] [Hn2 Hb].
    destruct (string_dec id c) as [-> | Hne].
    + assert (Ha' : exists x0, In x0 (getInputAddresses tx) /\ linked txs a x0)
        by (apply Hnew; tauto).
      assert (Hb' : exists x0, In x0 (getInputAddresses tx) /\ linked txs b x0)
        by (apply Hnew; tauto).
      destruct Ha' as [xa [Hxa Hla]], Hb' as [xb [Hxb Hlb]].
      apply linked_trans with xa; [assumption |].
      apply linked_trans with xb; [auto | now apply linked_sym].
    + destruct Ha as [Ha | [E _]]; [| contradiction].
      destruct Hb as [Hb | [E _]]; [| contradiction]. eauto.
Qed.

Lemma fold_linked (txs l : list Transaction) (st : Obj.t JsSet.t * nat) :
  (forall tx, In tx l -> In tx txs) -> Inv st ->
  (forall id a b, mem (fst st) id a -> mem (fst st) id b -> linked txs a b) ->
  forall id a b,
    mem (fst (fold_left commonInputStep l st)) id a ->
    mem (fst (fold_left commonInputStep l st)) id b -> linked txs a b.
Proof.
  revert st. induction l as [| tx l IH]; intros st Hsub HI Hold; simpl;
    [assumption |].
  apply IH.
  - intros tx' H. apply Hsub. now right.
  - now apply step_Inv.
  - apply step_linked; auto. apply Hsub. now left.
Qed.

Lemma fold_cospent (txs l : list Transaction) (st : Obj.t JsSet.t * nat) :
  (forall tx, In tx l -> In tx txs) -> Inv st ->
  (forall id a, mem (fst st) id a -> cospent txs a) ->
  forall id a, mem (fst (fold_left commonInputStep l st)) id a -> cospent txs a.
Proof.
  revert st. induction l as [| tx l IH]; intros st Hsub HI Hold; simpl;
    [assumption |].
  apply IH.
  - intros tx' H. apply Hsub. now right.
  - now apply step_Inv.
  - destruct (Nat.leb_spec (length (getInputAddresses tx)) 1) as [Hle | Hlen].
    + destruct st as [cs n]. unfold commonInputStep.
      destruct (Nat.leb_spec (length (getInputAddresses tx)) 1); [assumption | lia].
    + apply step_members; [assumption | assumption |].
      intros b Hb. exists tx. split; [apply Hsub; now left |]. split; [lia | assumption].
Qed.

(** X1 - [commonInputClustering] computes the components of co-spending.
    It always returns; the cluster ids are distinct; an address is clustered
    exactly when it is an input of a transaction with two inputs or more; and
    two addresses share a cluster exactly when a chain of such transactions
    links them, whatever the order of the transactions. *)
Theorem commonInputClustering_components (transactions : list Transaction) :
  exists clusters,
    commonInputClustering transactions = Ok clusters
    /\ NoDup (Obj.keys clusters)
    /\ (forall a, (exists id, mem clusters id a) <-> cospent transactions a)
    /\ (forall a b, cospent transactions a ->
          ((exists id, mem clusters id a /\ mem clusters id b)
           <-> linked transactions a b)).
Proof.
  exists (fst (commonInputSets transactions)).
  pose proof (fold_Inv transactions _ Inv_initial) as HI.
  fold (commonInputSets transactions) in HI.
  assert (Hempty : forall id a, ~ mem (fst (@nil (string * JsSet.t), 1)) id a).
  { intros id a [s [H _]]. discriminate. }
  assert (Hcov : forall a, cospent transactions a ->
                           exists id, mem (fst (commonInputSets transactions)) id a).
  { intros a [tx [Hin [Hlen Ha]]].
    destruct (fold_joins transactions _ _ Inv_initial Hin Hlen) as [id Hid].
    exists id. now apply Hid. }
  split; [reflexivity |]. split; [apply HI |]. split.
  - intros a. split; [| apply Hcov].
    intros [id Hm]. revert id a Hm. unfold commonInputSets.
    apply fold_cospent; [auto | apply Inv_initial |].
    intros id a H. now apply Hempty in H.
  - intros a b Ha. split.
    + intros [id [Hma Hmb]]. revert Hma Hmb. unfold commonInputSets.
      apply fold_linked; [auto | apply Inv_initial |].
      intros id' x y H. now apply Hempty in H.
    + intros Hl. induction Hl as [| a b c tx Hab IH Hin Hlen Hb Hc].
      * destruct (Hcov _ Ha) as [id Hid]. eauto.
      * destruct (IH Ha) as [id [Hma Hmb]].
        destruct (fold_joins transactions _ _ Inv_initial Hin Hlen) as [id' Hid'].
        fold (commonInputSets transactions) in Hid'.
        assert (E : id' = id) by (apply (inv_disjoint _ HI) with b; auto).
        subst id'. exists id. auto.
Qed.

(** ** When the clustering run fails *)

(** X2 - [behavioralClustering] returns exactly when the listed addresses
    are all the same one: nothing for an empty list, one singleton cluster
    [behavioral_cluster_1] otherwise.  As soon as two listed addresses
    differ, the call is rejected with the [ReferenceError] of the unbound
    helper. *)
Theorem behavioralClustering_returns_iff_single
    (transactions : list Transaction) (addresses : list Address) :
  ((forall a b, In a addresses -> In b addresses -> a = b) ->
   behavioralClustering transactions addresses
   = Ok match addresses with
        | [] => []
        | u :: _ => [(behavioralClusterName 1, [u])]
        end)
  /\ ((exists a b, In a addresses /\ In b addresses /\ a <> b) ->
      behavioralClustering transactions addresses
      = Throw "Behavioral clustering failed: areFeaturesSimilar is not defined").
Proof.
  rewrite behavioralClustering_spec.
  destruct addresses as [| u rest].
  - split; [reflexivity |]. intros [a [b [[] _]]].
  - destruct (forallb (String.eqb u) rest) eqn:E.
    + split; [reflexivity |]. intros [a [b [Ha [Hb Hne]]]]. exfalso. apply Hne.
      rewrite forallb_forall in E.
      assert (Hu : forall x, In x (u :: rest) -> x = u).
      { intros x [<- | Hx]; [reflexivity |].
        apply E in Hx. apply String.eqb_eq in Hx. now subst. }
      now rewrite (Hu a Ha), (Hu b Hb).
    + split; [| reflexivity]. intros Hall. exfalso.
      assert (Ht : forallb (String.eqb u) rest = true).
      { apply forallb_forall. intros x Hx. apply String.eqb_eq.
        apply Hall; [now left | now right]. }
      congruence.
Qed.

Lemma unclustered_filter (cs : Clusters) (l : list Address) (a : Address) :
  NoDup (Obj.keys cs) ->
  (In a (filter (fun a => negb (JsSet.has (clusteredAddressesOf cs) a)) l)
   <-> In a l /\ unclustered cs a).
Proof.
  intros Hnd. rewrite filter_In. unfold unclustered.
  destruct (JsSet.has (clusteredAddressesOf cs) a) eqn:E; simpl.
  - apply includes_In in E. apply clustered_In in E.
    destruct E as [id [s [H1 H2]]].
    split; [intros [_ H]; discriminate |].
    intros [_ H]. exfalso. apply (H id). exists s.
    split; [now apply In_get | assumption].
  - apply includes_false in E. split; [| tauto].
    intros [Hin _]. split; [assumption |].
    intros id [s [Hs Ha]]. apply E. apply clustered_In.
    exists id, s. split; [now apply get_In | assumption].
Qed.

(** X3 - the only way [combinedClustering] fails.  With the clusters the
    first two heuristics leave, the run is rejected (with the message of the
    unbound helper) exactly when two different listed addresses are in none
    of them; in every other case it returns. *)
Theorem combinedClustering_fails_iff
    (transactions : list Transaction) (addresses : list Address)
    (inputClusters updatedClusters : Clusters) :
  commonInputClustering transactions = Ok inputClusters ->
  changeAddressIdentification transactions inputClusters = Ok updatedClusters ->
  (combinedClustering transactions addresses
   = Throw "Combined clustering failed: Behavioral clustering failed: areFeaturesSimilar is not defined"
   <-> exists a b, In a addresses /\ In b addresses /\ a <> b
                   /\ unclustered updatedClusters a
                   /\ unclustered updatedClusters b)
  /\ ((exists clusters, combinedClustering transactions addresses = Ok clusters)
      <-> forall a b, In a addresses -> In b addresses ->
                      unclustered updatedClusters a ->
                      unclustered updatedClusters b -> a = b).
Proof.
  intros Hin Hch.
  assert (Hnd : NoDup (Obj.keys updatedClusters)).
  { injection Hin as <-. injection Hch as <-.
    destruct (change_fold transactions transactions
                (fst (commonInputSets transactions))) as [[Hnd _] _]; auto.
    - apply commonInput_namedKeys.
    - intros id a Hm. apply commonInput_members in Hm.
      destruct Hm as [tx [H1 H2]]. exists tx. tauto. }
  unfold combinedClustering. rewrite Hin. cbn [bind]. rewrite Hch. cbn [bind].
  rewrite behavioralClustering_spec.
  pose proof (fun a => unclustered_filter updatedClusters addresses a Hnd) as Hf.
  destruct (filter (fun a => negb (JsSet.has (clusteredAddressesOf updatedClusters) a))
                   addresses) as [| u rest] eqn:Eu;
    cbn [length Nat.ltb Nat.leb rethrow bind].
  - split.
    + split; [discriminate |]. intros [a [b [Ha [_ [_ [Hu _]]]]]].
      exfalso. apply (proj2 (Hf a)). tauto.
    + split; [| eauto]. intros _ a b Ha _ Hu _.
      exfalso. apply (proj2 (Hf a)). tauto.
  - assert (Hall : forallb (String.eqb u) rest = true
                   <-> forall a b, In a addresses -> In b addresses ->
                         unclustered updatedClusters a ->
                         unclustered updatedClusters b -> a = b).
    { rewrite forallb_forall. split.
      - intros H a b Ha Hb Hua Hub.
        assert (Hu : forall x, In x (u :: rest) -> x = u).
        { intros x [<- | Hx]; [reflexivity |].
          apply H in Hx. apply String.eqb_eq in Hx. now subst. }
        rewrite (Hu a), (Hu b); [reflexivity | |]; apply Hf; tauto.
      - intros H x Hx. apply String.eqb_eq.
        assert (Hu' : In u (u :: rest)) by now left.
        assert (Hx' : In x (u :: rest)) by now right.
        apply Hf in Hu', Hx'. apply H; tauto. }
    destruct (forallb (String.eqb u) rest) eqn:E; cbn [rethrow bind].
    + split.
      * split; [discriminate |]. intros [a [b [Ha [Hb [Hne [Hua Hub]]]]]].
        exfalso. apply Hne. apply (proj1 Hall eq_refl); assumption.
      * split; [intros _; now apply Hall | eauto].
    + split.
      * split; [intros _ | reflexivity].
        destruct (existsb (fun x => negb (String.eqb u x)) rest) eqn:Ex.
        -- apply existsb_exists in Ex. destruct Ex as [x [Hx Hne]].
           assert (Hu' : In u (u :: rest)) by now left.
           assert (Hx' : In x (u :: rest)) by now right.
           apply Hf in Hu', Hx'. exists u, x.
           repeat split; try tauto.
           intros ->. now rewrite String.eqb_refl in Hne.
        -- exfalso. assert (forallb (String.eqb u) rest = true); [| congruence].
           apply forallb_forall. intros x Hx.
           destruct (String.eqb u x) eqn:Eux; [reflexivity |].
           assert (existsb (fun x => negb (String.eqb u x)) rest = true);
             [| congruence].
           apply existsb_exists. exists x. now rewrite Eux.
      * split; [intros [c Hc]; discriminate |].
        intros H. apply Hall in H. discriminate.
Qed.

Lemma combinedClustering_fails_iff_witness :
  combinedClustering threeDeposits ["a"; "c"; "d"]
  = Throw "Combined clustering failed: Behavioral clustering failed: areFeaturesSimilar is not defined"
  <-> exists a b, In a ["a"; "c"; "d"] /\ In b ["a"; "c"; "d"] /\ a <> b
                  /\ unclustered [("cluster_1", ["a"; "b"])] a
                  /\ unclustered [("cluster_1", ["a"; "b"])] b.
Proof.
  apply (combinedClustering_fails_iff threeDeposits ["a"; "c"; "d"]
           [] [("cluster_1", ["a"; "b"])]); reflexivity.
Defined.

(** ** Change addresses *)

Lemma findIndex_nth (txs : list Transaction) (i : nat) (tx : Transaction) :
  NoDup (map hash txs) -> nth_error txs i = Some tx ->
  findIndex (hash tx) txs = Some i.
Proof.
  revert i. induction txs as [| t txs IH]; intros i Hnd Hnth.
  - destruct i; discriminate.
  - simpl in Hnd. inversion Hnd as [| ? ? Hnot Hnd']; subst.
    destruct i as [| i]; simpl in *.
    + injection Hnth as ->. now rewrite String.eqb_refl.
    + destruct (String.eqb (hash t) (hash tx)) eqn:E.
      * apply String.eqb_eq in E. exfalso. apply Hnot. rewrite E.
        apply in_map. now apply nth_error_In with i.
      * now rewrite (IH i Hnd' Hnth).
Qed.

Lemma In_firstn_nth {A} (l : list A) (i : nat) (x : A) :
  In x (firstn i l) <-> exists j, j < i /\ nth_error l j = Some x.
Proof.
  revert i. induction l as [| y l IH]; intros i.
  - rewrite firstn_nil. split; [intros [] |].
    intros [j [_ H]]. destruct j; discriminate.
  - destruct i as [| i]; simpl.
    + split; [intros [] | intros [j [H _]]; lia].
    + rewrite IH. split.
      * intros [<- | [j [Hj Hn]]]; [exists 0 | exists (S j)]; split; auto; lia.
      * intros [[| j] [Hj Hn]]; simpl in Hn.
        -- left. congruence.
        -- right. exists j. split; [lia | assumption].
Qed.

(** X4 - what "appeared before" means.  In a batch whose transaction hashes
    are distinct, [hasAddressAppearedBefore] holds of an address and the
    transaction at position [i] exactly when the address is an input or an
    output of a transaction at an earlier position. *)
Theorem hasAddressAppearedBefore_spec
    (allTransactions : list Transaction) (i : nat) (currentTx : Transaction)
    (a : Address) :
  NoDup (map hash allTransactions) ->
  nth_error allTransactions i = Some currentTx ->
  (hasAddressAppearedBefore a currentTx allTransactions = true
   <-> exists j tx, j < i /\ nth_error allTransactions j = Some tx
                    /\ (In a (getInputAddresses tx)
                        \/ In a (getOutputAddresses tx))).
Proof.
  intros Hnd Hnth. unfold hasAddressAppearedBefore, previousTransactions.
  rewrite (findIndex_nth _ _ _ Hnd Hnth), existsb_exists. split.
  - intros [tx [Hin H]]. apply In_firstn_nth in Hin.
    destruct Hin as [j [Hj Hn]]. exists j, tx.
    apply orb_true_iff in H. rewrite !includes_In in H. auto.
  - intros [j [tx [Hj [Hn H]]]]. exists tx. split.
    + apply In_firstn_nth. eauto.
    + apply orb_true_iff. now rewrite !includes_In.
Qed.

Lemma hasAddressAppearedBefore_spec_witness :
  hasAddressAppearedBefore "a" (utxo "h2" ["a"; "b"] ["x"]) payThenCospend = true
  <-> exists j tx, j < 1 /\ nth_error payThenCospend j = Some tx
                   /\ (In "a" (getInputAddresses tx)
                       \/ In "a" (getOutputAddresses tx)).
Proof.
  apply (hasAddressAppearedBefore_spec payThenCospend 1
           (utxo "h2" ["a"; "b"] ["x"]) "a").
  - simpl. repeat constructor; simpl; intuition discriminate.
  - reflexivity.
Defined.

Lemma consecutive_fresh (cs : Clusters) :
  consecutiveIds cs ->
  ~ In (clusterName (length (Obj.keys cs) + 1)) (Obj.keys cs).
Proof.
  unfold consecutiveIds. intros H Hin.
  assert (Hlen : length (Obj.keys cs) = length cs)
    by (unfold Obj.keys; apply length_map).
  rewrite Hlen in Hin. rewrite H in Hin.
  apply in_map_iff in Hin. destruct Hin as [i [E Hi]].
  apply clusterName_inj in E. apply in_seq in Hi. lia.
Qed.

Lemma changeStep_consecutive (txs : list Transaction) (cs : Clusters)
    (tx : Transaction) :
  consecutiveIds cs ->
  consecutiveIds (changeAddressStep txs cs tx)
  /\ length cs <= length (changeAddressStep txs cs tx)
  /\ forall id a, mem cs id a -> mem (changeAddressStep txs cs tx) id a.
Proof.
  intros Hc. pose proof (consecutive_fresh cs Hc) as Hfresh.
  unfold changeAddressStep. simpl.
  destruct (filter _ (getOutputAddresses tx)) as [| x [| ? ?]];
    try (split; [assumption | split; [lia | auto]]).
  destruct (match findOwner cs (getInputAddresses tx) with
            | Some clusterId => if truthy clusterId then Some clusterId else None
            | None => None
            end) as [owner |].
  - assert (E : length (Obj.adjust (fun c => c ++ [x]) cs owner) = length cs).
    { rewrite <- (length_map fst). fold (Obj.keys (Obj.adjust (fun c => c ++ [x]) cs owner)).
      rewrite keys_adjust. apply length_map. }
    split; [| split].
    + unfold consecutiveIds in *. rewrite keys_adjust. now rewrite E.
    + lia.
    + intros id a. apply push_mem.
  - assert (Hk : Obj.keys (Obj.set cs (clusterName (length (Obj.keys cs) + 1))
                               (getInputAddresses tx ++ [x]))
                   = Obj.keys cs ++ [clusterName (length (Obj.keys cs) + 1)]).
    { rewrite keys_set.
      destruct (includes (Obj.keys cs) _) eqn:E; [| reflexivity].
      apply includes_In in E. contradiction. }
    assert (Hl : length (Obj.set cs (clusterName (length (Obj.keys cs) + 1))
                             (getInputAddresses tx ++ [x]))
                   = S (length cs)).
    { rewrite <- (length_map fst).
      fold (Obj.keys (Obj.set cs (clusterName (length (Obj.keys cs) + 1))
                        (getInputAddresses tx ++ [x]))).
      rewrite Hk, length_app. unfold Obj.keys. rewrite length_map. simpl. lia. }
    split; [| split].
    + unfold consecutiveIds in *.
      rewrite Hl, Hk, seq_S, map_app, <- Hc. simpl.
      unfold Obj.keys. rewrite length_map. now rewrite Nat.add_comm.
    + lia.
    + intros id a Hm. apply mem_set. right. split; [| assumption].
      intros ->. apply mem_key in Hm. contradiction.
Qed.

Lemma change_fold_consecutive (txs l : list Transaction) (cs : Clusters) :
  consecutiveIds cs ->
  consecutiveIds (fold_left (changeAddressStep txs) l cs)
  /\ length cs <= length (fold_left (changeAddressStep txs) l cs)
  /\ forall id a, mem cs id a -> mem (fold_left (changeAddressStep txs) l cs) id a.
Proof.
  revert cs. induction l as [| tx l IH]; intros cs Hc; simpl.
  - auto.
  - destruct (changeStep_consecutive txs cs tx Hc) as [Hc' [Hl' Hm']].
    destruct (IH _ Hc') as [H1 [H2 H3]].
    split; [assumption |]. split; [lia | auto].
Qed.

(** X5 - change-address identification only adds.  When the ids of the
    clusters it receives are [cluster_1], ..., [cluster_n] in this order (the
    shape [commonInputClustering] leaves when it never merged two clusters),
    every address stays in the cluster it was in, and the ids of the result
    are again consecutive. *)
Theorem changeAddressIdentification_keeps_members
    (transactions : list Transaction) (clusters : Clusters) :
  consecutiveIds clusters ->
  exists updatedClusters,
    changeAddressIdentification transactions clusters = Ok updatedClusters
    /\ consecutiveIds updatedClusters
    /\ length clusters <= length updatedClusters
    /\ forall id a, mem clusters id a -> mem updatedClusters id a.
Proof.
  intros Hc. eexists. split; [reflexivity |].
  now apply change_fold_consecutive.
Qed.

Lemma changeAddressIdentification_keeps_members_witness :
  exists updatedClusters,
    changeAddressIdentification payThenCospend [("cluster_1", ["a"; "b"])]
    = Ok updatedClusters
    /\ consecutiveIds updatedClusters
    /\ 1 <= length updatedClusters
    /\ forall id a, mem [("cluster_1", ["a"; "b"])] id a -> mem updatedClusters id a.
Proof.
  apply (changeAddressIdentification_keeps_members payThenCospend
           [("cluster_1", ["a"; "b"])]).
  reflexivity.
Defined.

(** ** The entity store: writing, then looking up *)




Lemma getEntityById_Ok (st : Store) (i : string) (e : Entity) :
  getEntityById st i = Ok e
  <-> find (fun e' => String.eqb (id e') i) (entities st) = Some e.
Proof.
  unfold getEntityById.
  destruct (find _ (entities st)) as [e' |]; simpl; split;
    intros H; try discriminate; congruence.
Qed.



Lemma find_replaceEntity (i : string) (updated e : Entity) (l : list Entity) :
  id updated = i ->
  find (fun e' => String.eqb (id e') i) l = Some e ->
  find (fun e' => String.eqb (id e') i) (replaceEntity i updated l) = Some updated.
Proof.
  intros Hid. induction l as [| x l IH]; simpl; [discriminate |].
  destruct (String.eqb (id x) i) eqn:E; simpl.
  - intros _. now rewrite Hid, String.eqb_refl.
  - now rewrite E.
Qed.

Lemma length_replaceEntity (i : string) (updated : Entity) (l : list Entity) :
  length (replaceEntity i updated l) = length l.
Proof.
  induction l as [| x l IH]; simpl; [reflexivity |].
  destruct (String.eqb (id x) i); simpl; congruence.
Qed.





(** ** The consensus of the hits *)

Lemma groupStep_grouped (pre : list Hit.t) (groups : Obj.t Group.t) (h : Hit.t) :
  grouped pre groups -> grouped (pre ++ [h]) (Attribution.groupStep groups h).
Proof.
  intros [Hnd Hg]. unfold Attribution.groupStep.
  assert (Hself : filter (fun h' => String.eqb (Hit.entityId h') (Hit.entityId h)) [h]
                  = [h]) by (simpl; now rewrite String.eqb_refl).
  assert (Hother : forall k, k <> Hit.entityId h ->
             filter (fun h' => String.eqb (Hit.entityId h') k) [h] = []).
  { intros k Hk. simpl. destruct (String.eqb (Hit.entityId h) k) eqn:E;
      [| reflexivity]. apply String.eqb_eq in E. congruence. }
  split.
  - rewrite keys_adjust.
    destruct (Obj.get groups (Hit.entityId h)); [assumption | now apply NoDup_set].
  - intros k. rewrite get_adjust. rewrite filter_app.
    destruct (String.eqb k (Hit.entityId h)) eqn:Ek.
    + apply String.eqb_eq in Ek. subst k. rewrite Hself.
      pose proof (Hg (Hit.entityId h)) as Hi.
      destruct (Obj.get groups (Hit.entityId h)) as [g0 |] eqn:G0.
      * rewrite G0. simpl. destruct Hi as [Ha [h0 [Hin [E1 [E2 E3]]]]].
        split; [now rewrite Ha |].
        exists h0. rewrite in_app_iff. auto.
      * rewrite get_set, String.eqb_refl. simpl. rewrite Hi. split; [reflexivity |].
        exists h. rewrite in_app_iff. simpl. auto.
    + assert (Hne : k <> Hit.entityId h)
        by (intros ->; now rewrite String.eqb_refl in Ek).
      rewrite (Hother _ Hne), app_nil_r.
      assert (Hsame : Obj.get
                 match Obj.get groups (Hit.entityId h) with
                 | Some _ => groups
                 | None =>
                     Obj.set groups (Hit.entityId h)
                       {| Group.entityId := Hit.entityId h;
                          Group.entityName := Hit.entityName h;
                          Group.entityType := Hit.entityType h;
                          Group.attributions := [];
                          Group.baseConfidence := Hit.confidenceBase h |}
                 end k = Obj.get groups k).
      { destruct (Obj.get groups (Hit.entityId h)); [reflexivity |].
        now rewrite get_set, Ek. }
      rewrite Hsame. pose proof (Hg k) as Hk.
      destruct (Obj.get groups k) as [g |]; [| assumption].
      destruct Hk as [Ha [h0 [Hin H0]]]. split; [assumption |].
      exists h0. rewrite in_app_iff. auto.
Qed.

Lemma groups_grouped (hits pre : list Hit.t) (groups : Obj.t Group.t) :
  grouped pre groups ->
  grouped (pre ++ hits) (fold_left Attribution.groupStep hits groups).
Proof.
  revert pre groups. induction hits as [| h hits IH]; intros pre groups H; simpl.
  - now rewrite app_nil_r.
  - replace (pre ++ h :: hits) with ((pre ++ [h]) ++ hits)
      by (now rewrite <- app_assoc).
    apply IH. now apply groupStep_grouped.
Qed.

Lemma best_fold (l : list (string * Group.t)) (best : option string * nat) :
  snd best <= snd (fold_left Attribution.bestStep l best)
  /\ (forall e, In e l ->
        length (Group.attributions (snd e))
        <= snd (fold_left Attribution.bestStep l best))
  /\ (fold_left Attribution.bestStep l best = best
      \/ exists e, In e l
           /\ fold_left Attribution.bestStep l best
              = (Some (fst e), length (Group.attributions (snd e)))).
Proof.
  revert best. induction l as [| e l IH]; intros best; simpl.
  - split; [lia |]. split; [intros ? [] | now left].
  - destruct (IH (Attribution.bestStep best e)) as [H1 [H2 H3]].
    assert (Hstep : snd best <= snd (Attribution.bestStep best e)
                    /\ length (Group.attributions (snd e))
                       <= snd (Attribution.bestStep best e)
                    /\ (Attribution.bestStep best e = best
                        \/ Attribution.bestStep best e
                           = (Some (fst e), length (Group.attributions (snd e))))).
    { unfold Attribution.bestStep.
      destruct (Nat.ltb_spec (snd best) (length (Group.attributions (snd e))));
        simpl; repeat split; auto; lia. }
    destruct Hstep as [S1 [S2 S3]].
    split; [lia |]. split.
    + intros e' [<- | Hin]; [lia | now apply H2].
    + destruct H3 as [H3 | [e' [Hin H3]]].
      * destruct S3 as [S3 | S3].
        -- left. congruence.
        -- right. exists e. split; [now left | congruence].
      * right. exists e'. split; [now right | assumption].
Qed.

Lemma add_all_NoDup (l : list string) (s : JsSet.t) :
  NoDup s -> NoDup (JsSet.add_all s l).
Proof.
  unfold JsSet.add_all. revert s.
  induction l as [| a l IH]; intros s H; simpl; [assumption |].
  apply IH. now apply add_NoDup.
Qed.

Lemma grouped_hits (attributions : list Hit.t) :
  grouped attributions (fold_left Attribution.groupStep attributions []).
Proof.
  apply (groups_grouped attributions [] []). split; [constructor |].
  intros k. reflexivity.
Qed.

(** The group the second loop settles on: it is not empty and no group
    holds more hits. *)
Lemma consensus_best (attributions : list Hit.t) (totalAddresses : nat) :
  attributions <> [] ->
  exists k g c,
    Attribution.calculateConsensusAttribution attributions totalAddresses = Ok c
    /\ Consensus.entityId c = k
    /\ Consensus.entityName c = Group.entityName g
    /\ Consensus.entityType c = Group.entityType g
    /\ Consensus.matchedAddresses c
       = JsSet.of_list (map Hit.matchedAddress attributions)
    /\ Obj.get (fold_left Attribution.groupStep attributions []) k = Some g
    /\ 0 < length (Group.attributions g)
    /\ forall k' g',
         Obj.get (fold_left Attribution.groupStep attributions []) k' = Some g' ->
         length (Group.attributions g') <= length (Group.attributions g).
Proof.
  intros Hne. destruct (grouped_hits attributions) as [Hnd Hg].
  set (G := fold_left Attribution.groupStep attributions []) in *.
  destruct (best_fold (Obj.for_in_order G) (None, 0)) as [_ [Hmax Hbest]].
  assert (Hex : exists h0, In h0 attributions).
  { clear - Hne. destruct attributions as [| h0 rest]; [congruence |].
    exists h0. now left. }
  destruct Hex as [h0 Hin0].
  assert (Hf : In h0 (filter (fun h => String.eqb (Hit.entityId h)
                                           (Hit.entityId h0)) attributions)).
  { apply filter_In. split; [assumption | apply String.eqb_refl]. }
  assert (Hpos : 0 < snd (fold_left Attribution.bestStep (Obj.for_in_order G) (None, 0))).
  { pose proof (Hg (Hit.entityId h0)) as H0.
    destruct (Obj.get G (Hit.entityId h0)) as [g0 |] eqn:G0.
    - assert (Hl : 0 < length (Group.attributions g0)).
      { destruct H0 as [H0 _]. rewrite H0.
        destruct (filter _ attributions); [destruct Hf | simpl; lia]. }
      apply get_In in G0. apply for_in_order_In in G0.
      specialize (Hmax _ G0). simpl in Hmax. lia.
    - exfalso. rewrite H0 in Hf. destruct Hf. }
  destruct Hbest as [Hbest | [[k g] [Hin Hbest]]];
    [rewrite Hbest in Hpos; simpl in Hpos; lia |].
  simpl in Hbest.
  assert (Hk : Obj.get G k = Some g).
  { apply In_get; [assumption |]. now apply for_in_order_In. }
  unfold Attribution.calculateConsensusAttribution. fold G.
  rewrite Hbest, Hk. exists k, g. eexists. split; [reflexivity |].
  rewrite Hbest in Hpos, Hmax. simpl in Hpos, Hmax.
  repeat (split; [reflexivity |]). split; [assumption |]. split; [assumption |].
  intros k' g' Hk'. apply get_In in Hk'. apply for_in_order_In in Hk'.
  apply (Hmax _ Hk').
Qed.

(** What the attribution of a cluster needs of the consensus. *)
Lemma consensus_entity (attributions : list Hit.t) (totalAddresses : nat) :
  attributions <> [] ->
  exists c,
    Attribution.calculateConsensusAttribution attributions totalAddresses = Ok c
    /\ (exists h, In h attributions
                  /\ Hit.entityId h = Consensus.entityId c
                  /\ Hit.entityName h = Consensus.entityName c
                  /\ Hit.entityType h = Consensus.entityType c)
    /\ (forall a, In a (Consensus.matchedAddresses c)
                  <-> exists h, In h attributions /\ Hit.matchedAddress h = a).
Proof.
  intros Hne.
  destruct (consensus_best attributions totalAddresses Hne)
    as [k [g [c [Hc [Ek [En [Et [Em [Hk _]]]]]]]]].
  exists c. split; [assumption |]. split.
  - destruct (grouped_hits attributions) as [_ Hg].
    specialize (Hg k). rewrite Hk in Hg.
    destruct Hg as [_ [h [H1 [H2 [H3 H4]]]]]. exists h.
    repeat split; congruence.
  - intros a. rewrite Em, of_list_In, in_map_iff. split.
    + intros [h [E H]]. eauto.
    + intros [h [H E]]. eauto.
Qed.

(** X8 - the consensus names the entity with the most hits.  For a
    non-empty list of hits [calculateConsensusAttribution] returns; the
    entity it names is named by at least one hit and by no fewer hits than
    any other entity; its name and type are those of a hit that names it; and
    the matched addresses are the addresses of the hits, each listed once. *)
Theorem calculateConsensusAttribution_majority
    (attributions : list Hit.t) (totalAddresses : nat) :
  attributions <> [] ->
  exists c,
    Attribution.calculateConsensusAttribution attributions totalAddresses = Ok c
    /\ 0 < hitCount (Consensus.entityId c) attributions
    /\ (forall i, hitCount i attributions
                  <= hitCount (Consensus.entityId c) attributions)
    /\ (exists h, In h attributions
                  /\ Hit.entityId h = Consensus.entityId c
                  /\ Hit.entityName h = Consensus.entityName c
                  /\ Hit.entityType h = Consensus.entityType c)
    /\ NoDup (Consensus.matchedAddresses c)
    /\ (forall a, In a (Consensus.matchedAddresses c)
                  <-> exists h, In h attributions /\ Hit.matchedAddress h = a).
Proof.
  intros Hne.
  destruct (consensus_best attributions totalAddresses Hne)
    as [k [g [c [Hc [Ek [En [Et [Em [Hk [Hpos Hmax]]]]]]]]]].
  destruct (grouped_hits attributions) as [_ Hg].
  assert (Hcount : forall k' g',
             Obj.get (fold_left Attribution.groupStep attributions []) k' = Some g' ->
             length (Group.attributions g') = hitCount k' attributions).
  { intros k' g' Hk'. pose proof (Hg k') as H. rewrite Hk' in H.
    destruct H as [H _]. unfold hitCount. now rewrite H. }
  exists c. split; [assumption |]. rewrite Ek, <- (Hcount _ _ Hk).
  split; [assumption |]. split; [| split; [| split]].
  - intros i.
    destruct (Obj.get (fold_left Attribution.groupStep attributions []) i)
      as [gi |] eqn:Gi.
    + rewrite <- (Hcount _ _ Gi). now apply (Hmax i).
    + pose proof (Hg i) as Hi. rewrite Gi in Hi. unfold hitCount.
      rewrite Hi. simpl. lia.
  - pose proof (Hg k) as H. rewrite Hk in H.
    destruct H as [_ [h [H1 [H2 [H3 H4]]]]]. exists h.
    repeat split; congruence.
  - rewrite Em. apply add_all_NoDup. constructor.
  - intros a. rewrite Em, of_list_In, in_map_iff. split.
    + intros [h [E H]]. eauto.
    + intros [h [H E]]. eauto.
Qed.

Lemma calculateConsensusAttribution_majority_witness :
  exists c,
    Attribution.calculateConsensusAttribution
      [ {| Hit.entityId := "2"; Hit.entityName := "Coinbase";
           Hit.entityType := "Exchange"; Hit.matchedAddress := "0xaaa";
           Hit.confidenceBase := 0.98%Q |} ] 3 = Ok c
    /\ Consensus.entityId c = "2".
Proof.
  destruct (calculateConsensusAttribution_majority
      [ {| Hit.entityId := "2"; Hit.entityName := "Coinbase";
           Hit.entityType := "Exchange"; Hit.matchedAddress := "0xaaa";
           Hit.confidenceBase := 0.98%Q |} ] 3)
    as [c [H1 [_ [_ [[h [Hin [E _]]] _]]]]].
  - discriminate.
  - exists c. split; [assumption |].
    destruct Hin as [<- | []]. symmetry. exact E.
Defined.

(** ** One attribution per cluster *)

Lemma collectHits_complete (st : Store) (l : list Address) (acc hits : list Hit.t) :
  foldM (fun attributions a =>
           bind (findEntityForAddress st a) (fun entity =>
           match entity with
           | Some e => Ok (attributions ++ [Attribution.hitOf e a])
           | None => Ok attributions
           end)) l acc = Ok hits ->
  (forall h, In h acc -> In h hits)
  /\ (forall a, In a l -> exists r, findEntityForAddress st a = Ok r)
  /\ (forall a e, In a l -> findEntityForAddress st a = Ok (Some e) ->
                  In (Attribution.hitOf e a) hits).
Proof.
  revert acc. induction l as [| x l IH]; intros acc; cbn [foldM].
  - intros [= <-]. split; [auto |]. split; [intros ? [] | intros ? ? []].
  - destruct (findEntityForAddress st x) as [[e |] | m] eqn:F; cbn [bind];
      try discriminate; intros H; destruct (IH _ H) as [H1 [H2 H3]].
    + split; [| split].
      * intros h Hh. apply H1. apply in_app_iff. now left.
      * intros a [<- | Ha]; eauto.
      * intros a e' [<- | Ha] Fa; [| eauto].
        rewrite F in Fa. injection Fa as <-. apply H1. apply in_app_iff.
        right. now left.
    + split; [assumption |]. split.
      * intros a [<- | Ha]; eauto.
      * intros a e' [<- | Ha] Fa; [congruence | eauto].
Qed.

Lemma attributeClusters_keys (st : Store) (l : list (string * list Address))
    (acc res : Obj.t ClusterAttribution.t) :
  foldM (Attribution.attributeCluster st) l acc = Ok res ->
  (NoDup (Obj.keys acc) -> NoDup (Obj.keys res))
  /\ forall cid, In cid (Obj.keys res)
                 <-> In cid (Obj.keys acc) \/ In cid (map fst l).
Proof.
  revert acc. induction l as [| [k c] l IH]; intros acc; cbn [foldM].
  - intros [= <-]. simpl. tauto.
  - rewrite attributeCluster_eq.
    destruct (attributionOf st c) as [r0 |]; simpl; [| discriminate].
    intros H. destruct (IH _ H) as [H1 H2]. split.
    + intros Hnd. apply H1. now apply NoDup_set.
    + intros cid. rewrite H2, keys_set.
      destruct (includes (Obj.keys acc) k) eqn:E.
      * apply includes_In in E. split; [tauto |].
        intros [Hc | [<- | Hc]]; auto.
      * rewrite in_app_iff. simpl. tauto.
Qed.

Lemma for_in_order_keys {V} (o : Obj.t V) (k : string) :
  In k (Obj.keys (Obj.for_in_order o)) <-> In k (Obj.keys o).
Proof.
  unfold Obj.keys. rewrite !in_map_iff.
  split; intros [e [E H]]; exists e; (split; [assumption |]);
    now apply for_in_order_In.
Qed.

Lemma attributeClusters_length (st : Store) (clusters : Clusters)
    (res : Obj.t ClusterAttribution.t) :
  NoDup (Obj.keys clusters) ->
  Attribution.attributeClusters st clusters = Ok res ->
  NoDup (Obj.keys res)
  /\ (forall cid, In cid (Obj.keys res) <-> In cid (Obj.keys clusters))
  /\ length res = length clusters.
Proof.
  unfold Attribution.attributeClusters, getEntities. cbn [rethrow bind].
  intros Hnd.
  destruct (foldM _ _ _) as [res' |] eqn:F; simpl; [| discriminate].
  intros [= <-]. apply attributeClusters_keys in F. destruct F as [F1 F2].
  assert (Hk : forall cid, In cid (Obj.keys res') <-> In cid (Obj.keys clusters)).
  { intros cid. rewrite F2. simpl.
    fold (Obj.keys (Obj.for_in_order clusters)). rewrite for_in_order_keys. tauto. }
  assert (Hn : NoDup (Obj.keys res')) by (apply F1; constructor).
  split; [assumption |]. split; [assumption |].
  rewrite <- (length_map fst res'), <- (length_map fst clusters).
  apply Permutation_length. apply NoDup_Permutation; assumption.
Qed.

Lemma attributionOf_spec (st : Store) (cluster : list Address)
    (r : ClusterAttribution.t) :
  attributionOf st cluster = Ok r ->
  ClusterAttribution.addresses r = cluster
  /\ (forall a, In a (ClusterAttribution.matchedAddresses r)
                <-> In a cluster
                    /\ exists e, findEntityForAddress st a = Ok (Some e))
  /\ (ClusterAttribution.entityId r = None
      <-> forall a, In a cluster -> findEntityForAddress st a = Ok None)
  /\ (forall i, ClusterAttribution.entityId r = Some i ->
        exists a e, In a cluster /\ findEntityForAddress st a = Ok (Some e)
                    /\ id e = i /\ ClusterAttribution.entityName r = name e
                    /\ ClusterAttribution.entityType r = type e).
Proof.
  unfold attributionOf.
  destruct (Attribution.collectHits st cluster) as [hits |] eqn:Hc; simpl;
    [| discriminate].
  pose proof (collectHits_from _ _ _ Hc) as Hfrom.
  rewrite Forall_forall in Hfrom.
  unfold Attribution.collectHits in Hc.
  pose proof (collectHits_complete _ _ _ _ Hc) as [_ [Hok Hall]].
  destruct hits as [| h0 hits'] eqn:Eh.
  - simpl. intros [= <-]. simpl. split; [reflexivity |]. split; [| split].
    + intros a. split; [intros [] |]. intros [Ha [e He]].
      apply (Hall a e Ha He).
    + split; [| reflexivity]. intros _ a Ha.
      destruct (Hok a Ha) as [[e |] He]; [| assumption].
      destruct (Hall a e Ha He).
    + discriminate.
  - rewrite <- Eh in *. replace (0 <? length hits)%nat with true
      by (rewrite Eh; reflexivity).
    destruct (consensus_entity hits (length cluster))
      as [c [Hcons [[h [Hin [E1 [E2 E3]]]] Hm]]];
      [rewrite Eh; discriminate |].
    rewrite Hcons. simpl. intros [= <-]. simpl.
    split; [reflexivity |]. split; [| split].
    + intros a. rewrite Hm. split.
      * intros [h' [Hin' <-]]. destruct (Hfrom _ Hin') as [e [a' [-> [Ha' F]]]].
        simpl. eauto.
      * intros [Ha [e He]]. exists (Attribution.hitOf e a). split; [| reflexivity].
        now apply Hall.
    + split; [discriminate |]. intros Hnone. exfalso.
      assert (Hh0 : In h0 hits) by (rewrite Eh; now left).
      destruct (Hfrom _ Hh0) as [e [a [_ [Ha F]]]].
      rewrite (Hnone a Ha) in F. discriminate.
    + intros i [= <-]. destruct (Hfrom _ Hin) as [e [a [-> [Ha F]]]].
      exists a, e. simpl in *. repeat split; auto.
Qed.

(** X9 - [attributeClusters] gives every cluster exactly one entry.  When
    the cluster ids are distinct and the call returns, the result has the
    ids of the clusters and nothing else; the entry of a cluster lists its
    addresses; its matched addresses are the addresses of the cluster the
    store resolves; it names no entity exactly when the store resolves none
    of them; and the entity it names is the one of such an address. *)
Theorem attributeClusters_one_entry_per_cluster
    (st : Store) (clusters : Clusters) (res : Obj.t ClusterAttribution.t) :
  NoDup (Obj.keys clusters) ->
  Attribution.attributeClusters st clusters = Ok res ->
  length res = length clusters
  /\ (forall cid, In cid (Obj.keys res) <-> In cid (Obj.keys clusters))
  /\ forall cid cluster, In (cid, cluster) clusters ->
       exists r,
         Obj.get res cid = Some r
         /\ ClusterAttribution.addresses r = cluster
         /\ (forall a, In a (ClusterAttribution.matchedAddresses r)
                       <-> In a cluster
                           /\ exists e, findEntityForAddress st a = Ok (Some e))
         /\ (ClusterAttribution.entityId r = None
             <-> forall a, In a cluster -> findEntityForAddress st a = Ok None)
         /\ (forall i, ClusterAttribution.entityId r = Some i ->
               exists a e, In a cluster
                           /\ findEntityForAddress st a = Ok (Some e)
                           /\ id e = i
                           /\ ClusterAttribution.entityName r = name e
                           /\ ClusterAttribution.entityType r = type e).
Proof.
  intros Hnd Hrun.
  destruct (attributeClusters_length _ _ _ Hnd Hrun) as [_ [Hk Hl]].
  split; [assumption |]. split; [assumption |].
  intros cid cluster Hin.
  destruct (attributeClusters_entry _ _ _ _ _ Hnd Hrun Hin) as [r [Hg Ha]].
  exists r. split; [assumption |]. now apply attributionOf_spec.
Qed.

Lemma attributeClusters_one_entry_per_cluster_witness :
  exists res, Attribution.attributeClusters initialStore binanceCluster = Ok res
              /\ length res = 1.
Proof.
  destruct (Attribution.attributeClusters initialStore binanceCluster)
    as [res | m] eqn:E; [| vm_compute in E; discriminate].
  exists res. split; [reflexivity |].
  apply (attributeClusters_one_entry_per_cluster initialStore binanceCluster res).
  - simpl. repeat constructor. simpl. tauto.
  - exact E.
Defined.

(** ** Attribution by behaviour and the lookup of one address *)

Local Open Scope Q_scope.

Lemma interactionCount_le (a : Address) (l : list Address)
    (txs : list Transaction) (n : nat) :
  (fold_left
     (fun n tx =>
        if String.eqb (from tx) a && includes l (to tx) then S n
        else if String.eqb (to tx) a && includes l (from tx) then S n
        else n) txs n <= n + length txs)%nat.
Proof.
  revert n. induction txs as [| tx txs IH]; intros n; simpl; [lia |].
  destruct (String.eqb (from tx) a && includes l (to tx));
    [specialize (IH (S n)); lia |].
  destruct (String.eqb (to tx) a && includes l (from tx));
    [specialize (IH (S n)); lia | specialize (IH n); lia].
Qed.

Lemma calculateInteractionScore_range (a : Address) (l : list Address)
    (txs : list Transaction) :
  0 <= Attribution.calculateInteractionScore a l txs
  /\ Attribution.calculateInteractionScore a l txs <= 0.95.
Proof.
  unfold Attribution.calculateInteractionScore. split; [| apply Q.le_min_l].
  apply Q.min_glb; [discriminate |].
  destruct (0 <? length txs)%nat; [| discriminate].
  assert (H : 0 <= Qnat (fold_left
     (fun n tx =>
        if String.eqb (from tx) a && includes l (to tx) then S n
        else if String.eqb (to tx) a && includes l (from tx) then S n
        else n) txs 0%nat) / Qnat (length txs)).
  { apply Qdiv_nonneg; apply Qnat_nonneg. }
  lra.
Qed.

(** What the loop over the entities holds after the entities [seen]. *)
Lemma behavior_fold (a : Address) (txs : list Transaction)
    (l seen : list Entity) (best : option Entity * Q) :
  (match fst best with
   | Some e => In e seen /\ addresses e <> [] /\ snd best = behaviorScore a txs e
               /\ 0.5 < snd best
   | None => snd best = 0
   end) ->
  (forall e, In e seen -> addresses e <> [] ->
             behaviorScore a txs e <= snd best \/ behaviorScore a txs e <= 0.5) ->
  let r := fold_left (Attribution.behaviorStep a txs) l best in
  (match fst r with
   | Some e => In e (seen ++ l) /\ addresses e <> [] /\ snd r = behaviorScore a txs e
               /\ 0.5 < snd r
   | None => snd r = 0
   end)
  /\ (forall e, In e (seen ++ l) -> addresses e <> [] ->
                behaviorScore a txs e <= snd r \/ behaviorScore a txs e <= 0.5).
Proof.
  revert seen best. induction l as [| e l IH]; intros seen best Hb Hs; simpl.
  - now rewrite app_nil_r.
  - replace (seen ++ e :: l) with ((seen ++ [e]) ++ l)
      by (now rewrite <- app_assoc).
    apply IH.
    + unfold Attribution.behaviorStep.
      destruct (addresses e) as [| x xs] eqn:Ea.
      * destruct (fst best) as [e0 |]; [| assumption].
        rewrite in_app_iff. tauto.
      * fold (behaviorScore a txs e) in *.
        assert (Hscore : Attribution.calculateInteractionScore a (x :: xs) txs * 0.7
                         + 0.3 * 0.3 = behaviorScore a txs e)
          by (unfold behaviorScore; now rewrite Ea).
        rewrite Hscore.
        destruct (Qltb (snd best) (behaviorScore a txs e)) eqn:E1; simpl.
        -- destruct (Qltb 0.5 (behaviorScore a txs e)) eqn:E2; simpl.
           ++ apply Qltb_lt in E2. rewrite in_app_iff. simpl.
              repeat split; auto. rewrite Ea. discriminate.
           ++ destruct (fst best) as [e0 |]; [| assumption].
              rewrite in_app_iff. tauto.
        -- destruct (fst best) as [e0 |]; [| assumption].
           rewrite in_app_iff. tauto.
    + intros e' Hin Hne. apply in_app_iff in Hin.
      unfold Attribution.behaviorStep.
      destruct (addresses e) as [| x xs] eqn:Ea.
      * destruct Hin as [Hin | [<- | []]]; [now apply Hs | congruence].
      * assert (Hscore : Attribution.calculateInteractionScore a (x :: xs) txs * 0.7
                         + 0.3 * 0.3 = behaviorScore a txs e)
          by (unfold behaviorScore; now rewrite Ea).
        rewrite Hscore.
        destruct (Qltb (snd best) (behaviorScore a txs e)) eqn:E1; simpl.
        -- apply Qltb_lt in E1.
           destruct (Qltb 0.5 (behaviorScore a txs e)) eqn:E2; simpl.
           ++ destruct Hin as [Hin | [<- | []]].
              ** destruct (Hs _ Hin Hne); [left; lra | now right].
              ** left. apply Qle_refl.
           ++ assert (H5 : behaviorScore a txs e <= 0.5).
              { apply Qnot_lt_le. intros H. apply Qltb_lt in H. congruence. }
              destruct Hin as [Hin | [<- | []]]; [now apply Hs | now right].
        -- assert (H5 : behaviorScore a txs e <= snd best).
           { apply Qnot_lt_le. intros H. apply Qltb_lt in H. congruence. }
           destruct Hin as [Hin | [<- | []]]; [now apply Hs | now left].
Qed.

(** X10 - attribution by behaviour picks the best-scoring entity, if any
    scores above one half.  [attributeByBehavior] always returns.  When it
    names an entity, this is an entity of the store with at least one
    address, the confidence is its score, which lies above 0.5 and at most
    at 0.755, and no entity with addresses scores higher; when it names
    none, no entity with addresses scores above 0.5, which is the case
    whenever there are no transactions. *)
Theorem attributeByBehavior_best_above_half
    (st : Store) (a : Address) (transactions : list Transaction) :
  exists r,
    Attribution.attributeByBehavior st a transactions = Ok r
    /\ match r with
       | Some b =>
           exists e, In e (entities st) /\ addresses e <> []
             /\ AddressAttribution.entityId b = Some (id e)
             /\ AddressAttribution.entityName b = name e
             /\ AddressAttribution.entityType b = type e
             /\ AddressAttribution.confidence b = behaviorScore a transactions e
             /\ 0.5 < AddressAttribution.confidence b
             /\ AddressAttribution.confidence b <= 0.755
             /\ forall e', In e' (entities st) -> addresses e' <> [] ->
                  behaviorScore a transactions e'
                  <= AddressAttribution.confidence b
       | None =>
           forall e', In e' (entities st) -> addresses e' <> [] ->
                      behaviorScore a transactions e' <= 0.5
       end
    /\ (transactions = [] -> r = None).
Proof.
  unfold Attribution.attributeByBehavior, getEntities. cbn [rethrow bind].
  destruct (behavior_fold a transactions (entities st) [] (None, 0))
    as [H1 H2]; [reflexivity | intros e [] |].
  cbn [app] in H1, H2.
  destruct (fold_left _ (entities st) (None, 0)) as [[e |] s];
    cbn [fst snd] in H1, H2.
  - destruct H1 as [Hin [Hne [Hs H5]]].
    eexists. split; [reflexivity |]. split.
    + exists e. simpl. repeat split; auto.
      * rewrite Hs. unfold behaviorScore.
        destruct (calculateInteractionScore_range a (addresses e) transactions).
        lra.
      * intros e' He' Hne'. destruct (H2 _ He' Hne') as [H | H]; [exact H |].
        apply Qle_trans with 0.5; [exact H | now apply Qlt_le_weak].
    + intros ->. exfalso. rewrite Hs in H5. unfold behaviorScore in H5.
      vm_compute in H5. discriminate.
  - eexists. split; [reflexivity |]. split; [| reflexivity].
    intros e' He' Hne'. subst s. destruct (H2 _ He' Hne'); lra.
Qed.

Close Scope Q_scope.

Lemma attributeByBehavior_nil (st : Store) (a : Address) :
  Attribution.attributeByBehavior st a [] = Ok None.
Proof.
  unfold Attribution.attributeByBehavior, getEntities. cbn [rethrow bind].
  destruct (behavior_fold a [] (entities st) [] (None, 0%Q))
    as [H1 _]; [reflexivity | intros e [] |].
  cbn [app] in H1.
  destruct (fold_left _ (entities st) (None, 0%Q)) as [[e |] s];
    cbn [fst snd] in H1; [| reflexivity].
  exfalso. destruct H1 as [_ [_ [Hs H5]]]. rewrite Hs in H5.
  unfold behaviorScore in H5. vm_compute in H5. discriminate.
Qed.

Lemma attributeAddress_no_history (st : Store) (a : Address) :
  findEntityForAddress st a = Ok None ->
  Attribution.attributeAddress st a [] = Ok Attribution.unknownAddress.
Proof.
  intros F. unfold Attribution.attributeAddress. rewrite F.
  cbn [bind Attribution.relatedAddressesOf length Nat.ltb Nat.leb
       Attribution.collectHits foldM].
  now rewrite attributeByBehavior_nil.
Qed.

(** X11 - the three outcomes of [identifyAddressEntity].  An address the
    store resolves is reported with the entity's id, name, type and
    confidence and the method [existing_entry].  An address the store does
    not resolve is reported as unknown with confidence 0 and method [none],
    whether the analysis is requested or not: the analysis runs on an empty
    history and cannot attribute anything.  A failing lookup rejects the
    call. *)
Theorem identifyAddressEntity_outcomes
    (st : Store) (a : Address) (options : Options) :
  (forall e, findEntityForAddress st a = Ok (Some e) ->
     Identification.identifyAddressEntity st a options
     = Ok {| AddressIdentification.address := a;
             AddressIdentification.entityId := Some (id e);
             AddressIdentification.entityName := name e;
             AddressIdentification.entityType := type e;
             AddressIdentification.confidence := confidenceScore e;
             AddressIdentification.method := "existing_entry";
             AddressIdentification.analysisPerformed := false;
             AddressIdentification.transactionsAnalyzed := None;
             AddressIdentification.relatedAddresses := None;
             AddressIdentification.matchedAddresses := None |})
  /\ (findEntityForAddress st a = Ok None ->
      Identification.identifyAddressEntity st a options
      = Ok {| AddressIdentification.address := a;
              AddressIdentification.entityId := None;
              AddressIdentification.entityName := "Unknown";
              AddressIdentification.entityType := "Unknown";
              AddressIdentification.confidence := 0%Q;
              AddressIdentification.method := "none";
              AddressIdentification.analysisPerformed :=
                notStrictlyFalse (performAnalysis options);
              AddressIdentification.transactionsAnalyzed :=
                if notStrictlyFalse (performAnalysis options)
                then Some 0 else None;
              AddressIdentification.relatedAddresses := None;
              AddressIdentification.matchedAddresses := None |})
  /\ (forall m, findEntityForAddress st a = Throw m ->
        Identification.identifyAddressEntity st a options
        = Throw ("Address entity identification failed: " ++ m)).
Proof.
  unfold Identification.identifyAddressEntity.
  split; [| split].
  - intros e ->. reflexivity.
  - intros F. rewrite F. cbn [bind].
    destruct (notStrictlyFalse (performAnalysis options)); [| reflexivity].
    rewrite (attributeAddress_no_history _ _ F). reflexivity.
  - intros m ->. reflexivity.
Qed.

(** ** What an update run reports and what it leaves in the store *)

Section UpdateReport.
Variable uuidv4 : nat -> string.

Lemma reported_updated (r : UpdateResults.t) (x : Updated.t) :
  Permutation (reportedClusters (Attribution.pushUpdated r x))
              (Updated.clusterId x :: reportedClusters r).
Proof.
  unfold reportedClusters, Attribution.pushUpdated. simpl.
  rewrite map_app. simpl. rewrite <- app_assoc. simpl.
  symmetry. apply Permutation_middle.
Qed.

Lemma reported_created (r : UpdateResults.t) (x : Created.t) :
  Permutation (reportedClusters (Attribution.pushCreated r x))
              (Created.clusterId x :: reportedClusters r).
Proof.
  unfold reportedClusters, Attribution.pushCreated. simpl.
  rewrite map_app. simpl. rewrite <- app_assoc. simpl.
  rewrite Permutation_middle. symmetry.
  rewrite Permutation_middle. reflexivity.
Qed.

Lemma reported_skipped (r : UpdateResults.t) (x : Skipped.t) :
  Permutation (reportedClusters (Attribution.pushSkipped r x))
              (Skipped.clusterId x :: reportedClusters r).
Proof.
  unfold reportedClusters, Attribution.pushSkipped. simpl.
  rewrite map_app. simpl. rewrite !app_assoc.
  symmetry. apply Permutation_cons_append.
Qed.

Lemma updateStep_reported (thr : Q) (s : UpdateResults.t * Store)
    (entry : string * ClusterAttribution.t) :
  Permutation (reportedClusters (fst (Attribution.updateStep uuidv4 thr s entry)))
              (fst entry :: reportedClusters (fst s)).
Proof.
  destruct s as [r st], entry as [cid att]. unfold Attribution.updateStep.
  destruct (Qltb _ thr); [apply reported_skipped |].
  assert (Hc : Permutation
            (reportedClusters (fst (Attribution.createOrSkip uuidv4 st r cid att)))
            (cid :: reportedClusters r)).
  { unfold Attribution.createOrSkip.
    destruct (3 <=? length (ClusterAttribution.addresses att))%nat.
    - cbn [createEntity fst]. apply reported_created.
    - apply reported_skipped. }
  destruct (ClusterAttribution.entityId att) as [i |]; [| exact Hc].
  destruct (truthy i); [| exact Hc].
  unfold Attribution.extendEntity.
  destruct (getEntityById st i) as [e | m]; [| apply reported_skipped].
  destruct (filter (fun addr => negb (includes (addresses e) addr))
                   (ClusterAttribution.addresses att)) as [| x xs];
    [apply reported_skipped |].
  destruct (updateEntity st i (addresses e ++ x :: xs)) as [[u | m] st'].
  - apply reported_updated.
  - apply reported_skipped.
Qed.

Lemma updateFold_reported (thr : Q) (l : list (string * ClusterAttribution.t))
    (s : UpdateResults.t * Store) :
  Permutation
    (reportedClusters (fst (fold_left (Attribution.updateStep uuidv4 thr) l s)))
    (map fst l ++ reportedClusters (fst s)).
Proof.
  revert s. induction l as [| x l IH]; intros s; simpl; [reflexivity |].
  rewrite IH, updateStep_reported. symmetry. apply Permutation_middle.
Qed.

Lemma updateEntities_run (st : Store)
    (attributionResults : Obj.t ClusterAttribution.t)
    (confidenceThreshold : option Q) :
  exists u st',
    Attribution.updateEntitiesWithAttributions uuidv4 st attributionResults
      confidenceThreshold = (Ok u, st')
    /\ Permutation (reportedClusters u) (Obj.keys attributionResults).
Proof.
  unfold Attribution.updateEntitiesWithAttributions.
  set (thr := match confidenceThreshold with Some q => q | None => 0.8%Q end).
  pose proof (updateFold_reported thr (Obj.for_in_order attributionResults)
                (Attribution.emptyUpdateResults, st)) as H.
  destruct (fold_left _ _ _) as [u st']. exists u, st'.
  split; [reflexivity |]. simpl in H. rewrite app_nil_r in H.
  rewrite H. unfold Obj.keys. apply Permutation_map. apply for_in_order_perm.
Qed.

Lemma reported_length (u : UpdateResults.t) :
  length (reportedClusters u)
  = length (UpdateResults.updated u) + length (UpdateResults.created u)
    + length (UpdateResults.skipped u).
Proof.
  unfold reportedClusters. rewrite !length_app, !length_map. lia.
Qed.

(** X12 - the report accounts for every cluster exactly once.
    [updateEntitiesWithAttributions] always returns, and the cluster ids of
    its three lists [updated], [created] and [skipped], taken together, are
    the keys of the attribution map, each once; so the three lengths add up
    to the number of clusters. *)
Theorem updateEntities_reports_every_cluster
    (st : Store) (attributionResults : Obj.t ClusterAttribution.t)
    (confidenceThreshold : option Q) :
  exists u st',
    Attribution.updateEntitiesWithAttributions uuidv4 st attributionResults
      confidenceThreshold = (Ok u, st')
    /\ Permutation (reportedClusters u) (Obj.keys attributionResults)
    /\ length (UpdateResults.updated u) + length (UpdateResults.created u)
       + length (UpdateResults.skipped u) = length attributionResults.
Proof.
  destruct (updateEntities_run st attributionResults confidenceThreshold)
    as [u [st' [H Hp]]].
  exists u, st'. split; [assumption |]. split; [assumption |].
  rewrite <- reported_length, (Permutation_length Hp).
  unfold Obj.keys. apply length_map.
Qed.

End UpdateReport.

(** ** An update run only adds *)

Lemma onlyAdds_refl (st : Store) : onlyAdds st st.
Proof.
  intros e He. exists e. split; [assumption |]. split; [now repeat split |].
  apply incl_refl.
Qed.

Lemma onlyAdds_trans (s1 s2 s3 : Store) :
  onlyAdds s1 s2 -> onlyAdds s2 s3 -> onlyAdds s1 s3.
Proof.
  intros H12 H23 e He.
  destruct (H12 e He) as [e2 [He2 [[A1 [A2 [A3 A4]]] A5]]].
  destruct (H23 e2 He2) as [e3 [He3 [[B1 [B2 [B3 B4]]] B5]]].
  exists e3. split; [assumption |]. split.
  - repeat split; congruence.
  - now apply incl_tran with (addresses e2).
Qed.

Lemma replaceEntity_In (i : string) (upd : Entity) (l : list Entity) (e : Entity) :
  In e (replaceEntity i upd l) -> e = upd \/ In e l.
Proof.
  induction l as [| x l IH]; simpl; [tauto |].
  destruct (String.eqb (id x) i); simpl; intuition.
Qed.

Lemma replaceEntity_onlyAdds (i : string) (l : list Entity) (e0 upd : Entity) :
  find (fun e => String.eqb (id e) i) l = Some e0 ->
  sameIdentity e0 upd -> incl (addresses e0) (addresses upd) ->
  forall e, In e l ->
    exists e', In e' (replaceEntity i upd l) /\ sameIdentity e e'
               /\ incl (addresses e) (addresses e').
Proof.
  intros Hf Hsame Hincl. induction l as [| x l IH]; simpl in *; [tauto |].
  destruct (String.eqb (id x) i) eqn:E.
  - injection Hf as <-. intros e [<- | He].
    + exists upd. split; [now left | split; assumption].
    + exists e. split; [now right |]. split; [now repeat split | apply incl_refl].
  - intros e [<- | He].
    + exists x. split; [now left |]. split; [now repeat split | apply incl_refl].
    + destruct (IH Hf e He) as [e' [H1 H2]]. exists e'. split; [now right | assumption].
Qed.

Section UpdateStore.
Variable uuidv4 : nat -> string.

Lemma stepAdds_refl (s : UpdateResults.t * Store) : stepAdds uuidv4 s s.
Proof.
  split; [apply onlyAdds_refl |]. repeat split; auto. intros e He. left. eauto.
Qed.

Lemma stepAdds_trans (s1 s2 s3 : UpdateResults.t * Store) :
  stepAdds uuidv4 s1 s2 -> stepAdds uuidv4 s2 s3 -> stepAdds uuidv4 s1 s3.
Proof.
  intros [A1 [A2 [A3 [A4 [A5 A6]]]]] [B1 [B2 [B3 [B4 [B5 B6]]]]].
  split; [now apply onlyAdds_trans with (snd s2) |].
  split; [auto |]. split; [auto |]. split; [lia |]. split; [lia |].
  intros e He. destruct (B6 e He) as [[e2 [He2 E2]] | Hn]; [| now right].
  destruct (A6 e2 He2) as [[e1 [He1 E1]] | [n Hn]].
  - left. exists e1. split; [assumption | congruence].
  - right. exists n. congruence.
Qed.

Lemma stepAdds_skip (r : UpdateResults.t) (st : Store) (x : Skipped.t) :
  stepAdds uuidv4 (r, st) (Attribution.pushSkipped r x, st).
Proof.
  split; [apply onlyAdds_refl |]. simpl. repeat split; auto.
  - intros y Hy. apply in_app_iff. now left.
  - intros e He. left. eauto.
Qed.

Lemma extendEntity_adds (st : Store) (r : UpdateResults.t)
    (cid i : string) (att : ClusterAttribution.t) :
  stepAdds uuidv4 (r, st) (Attribution.extendEntity st r cid i att).
Proof.
  unfold Attribution.extendEntity.
  destruct (getEntityById st i) as [e | m] eqn:G; [| apply stepAdds_skip].
  destruct (filter (fun addr => negb (includes (addresses e) addr))
                   (ClusterAttribution.addresses att)) as [| x xs];
    [apply stepAdds_skip |].
  apply getEntityById_Ok in G. unfold updateEntity. rewrite G.
  pose proof (find_some _ _ G) as [Hin Hid]. apply String.eqb_eq in Hid.
  split; [| simpl; repeat split; auto].
  - simpl. intros e1 He1.
    apply (replaceEntity_onlyAdds i (entities st) e); auto.
    + repeat split. simpl. assumption.
    + simpl. apply incl_appl. apply incl_refl.
  - intros y Hy. apply in_app_iff. now left.
  - rewrite length_replaceEntity. lia.
  - intros e1 He1. left. apply replaceEntity_In in He1.
    destruct He1 as [-> | He1]; [| eauto].
    exists e. split; [assumption | now rewrite Hid].
Qed.

Lemma createOrSkip_adds (st : Store) (r : UpdateResults.t)
    (cid : string) (att : ClusterAttribution.t) :
  stepAdds uuidv4 (r, st) (Attribution.createOrSkip uuidv4 st r cid att).
Proof.
  unfold Attribution.createOrSkip.
  destruct (3 <=? length (ClusterAttribution.addresses att))%nat;
    [| apply stepAdds_skip].
  cbn [createEntity]. split; [| simpl; repeat split; auto].
  - simpl. intros e He. exists e. split; [apply in_app_iff; now left |].
    split; [now repeat split | apply incl_refl].
  - rewrite !length_app. simpl. lia.
  - rewrite !length_app. simpl. lia.
  - intros e He. apply in_app_iff in He. destruct He as [He | [<- | []]].
    + left. eauto.
    + right. simpl. eauto.
Qed.

Lemma updateStep_adds (thr : Q) (s : UpdateResults.t * Store)
    (entry : string * ClusterAttribution.t) :
  stepAdds uuidv4 s (Attribution.updateStep uuidv4 thr s entry).
Proof.
  destruct s as [r st], entry as [cid att]. unfold Attribution.updateStep.
  destruct (Qltb _ thr); [apply stepAdds_skip |].
  destruct (ClusterAttribution.entityId att) as [i |];
    [| apply createOrSkip_adds].
  destruct (truthy i); [apply extendEntity_adds | apply createOrSkip_adds].
Qed.

Lemma updateFold_adds (thr : Q) (l : list (string * ClusterAttribution.t))
    (s : UpdateResults.t * Store) :
  stepAdds uuidv4 s (fold_left (Attribution.updateStep uuidv4 thr) l s).
Proof.
  revert s. induction l as [| x l IH]; intros s; simpl; [apply stepAdds_refl |].
  eapply stepAdds_trans; [apply updateStep_adds | apply IH].
Qed.

(** X13 - an update run never removes anything from the store.  Every
    entity is still there afterwards with its id, name, type and confidence
    and at least the addresses it had; the store gains exactly one entity,
    and the generator is asked for exactly one identifier, per entry of
    [created]. *)
Theorem updateEntities_only_adds
    (st : Store) (attributionResults : Obj.t ClusterAttribution.t)
    (confidenceThreshold : option Q) :
  exists u st',
    Attribution.updateEntitiesWithAttributions uuidv4 st attributionResults
      confidenceThreshold = (Ok u, st')
    /\ onlyAdds st st'
    /\ length (entities st')
       = length (entities st) + length (UpdateResults.created u)
    /\ uuidsDrawn st' = uuidsDrawn st + length (UpdateResults.created u).
Proof.
  unfold Attribution.updateEntitiesWithAttributions.
  set (thr := match confidenceThreshold with Some q => q | None => 0.8%Q end).
  pose proof (updateFold_adds thr (Obj.for_in_order attributionResults)
                (Attribution.emptyUpdateResults, st)) as H.
  destruct (fold_left _ _ _) as [u st']. exists u, st'.
  destruct H as [H1 [_ [_ [H4 [H5 _]]]]]. simpl in *.
  split; [reflexivity |]. split; [assumption |]. split; lia.
Qed.

(** The loop from an entry on: what the entry leaves is still there at the
    end. *)
Lemma updateFold_entry (thr : Q) (l : list (string * ClusterAttribution.t))
    (entry : string * ClusterAttribution.t) (s : UpdateResults.t * Store) :
  In entry l ->
  exists s0,
    stepAdds uuidv4 s s0
    /\ stepAdds uuidv4 (Attribution.updateStep uuidv4 thr s0 entry)
                (fold_left (Attribution.updateStep uuidv4 thr) l s).
Proof.
  revert s. induction l as [| x l IH]; intros s Hin; [destruct Hin |].
  simpl. destruct Hin as [-> | Hin].
  - exists s. split; [apply stepAdds_refl | apply updateFold_adds].
  - destruct (IH (Attribution.updateStep uuidv4 thr s x) Hin) as [s0 [H1 H2]].
    exists s0. split; [| assumption].
    eapply stepAdds_trans; [apply updateStep_adds | exact H1].
Qed.

(** X14 - a cluster attributed to an entity the store does not hold is
    skipped, and the run goes on.  When an attribution at or above the
    threshold names an identifier that no entity bears and the generator
    never hands out, the report lists the cluster under [skipped] with the
    reason [update_error] and the message of the failed lookup. *)
Theorem updateEntities_unknown_entity_is_skipped
    (st : Store) (attributionResults : Obj.t ClusterAttribution.t)
    (confidenceThreshold : Q) (clusterId entityId : string)
    (attribution : ClusterAttribution.t) :
  In (clusterId, attribution) attributionResults ->
  ClusterAttribution.entityId attribution = Some entityId ->
  truthy entityId = true ->
  ~ (ClusterAttribution.confidence attribution < confidenceThreshold)%Q ->
  (forall e, In e (entities st) -> id e <> entityId) ->
  (forall n, uuidv4 n <> entityId) ->
  exists u st',
    Attribution.updateEntitiesWithAttributions uuidv4 st attributionResults
      (Some confidenceThreshold) = (Ok u, st')
    /\ In (Attribution.skip clusterId (Some entityId) "update_error" None None
             (Some ("Unable to fetch entity: Entity with ID " ++ entityId
                    ++ " not found")%string))
          (UpdateResults.skipped u).
Proof.
  intros Hin Hid Htruthy Hconf Hnone Huuid.
  unfold Attribution.updateEntitiesWithAttributions.
  apply for_in_order_In in Hin.
  destruct (updateFold_entry confidenceThreshold _ _
              (Attribution.emptyUpdateResults, st) Hin) as [[r0 st0] [H0 H1]].
  destruct (fold_left _ _ _) as [u st']. exists u, st'.
  split; [reflexivity |].
  destruct H1 as [_ [_ [Hsk _]]]. apply Hsk. clear Hsk.
  assert (Hnone0 : forall e, In e (entities st0) -> id e <> entityId).
  { destruct H0 as [_ [_ [_ [_ [_ H6]]]]]. simpl in H6.
    intros e He. destruct (H6 e He) as [[e0 [He0 E0]] | [n Hn]].
    - rewrite <- E0. now apply Hnone.
    - rewrite Hn. apply Huuid. }
  unfold Attribution.updateStep.
  replace (Qltb (ClusterAttribution.confidence attribution) confidenceThreshold)
    with false
    by (symmetry; apply not_true_is_false; intros H; apply Qltb_lt in H; tauto).
  rewrite Hid, Htruthy. unfold Attribution.extendEntity, getEntityById.
  destruct (find (fun e => String.eqb (id e) entityId) (entities st0))
    as [e |] eqn:F.
  - apply find_some in F. destruct F as [He E]. apply String.eqb_eq in E.
    exfalso. now apply (Hnone0 e).
  - simpl. apply in_app_iff. right. now left.
Qed.

Lemma find_exists (i : string) (l : list Entity) :
  (exists e, In e l /\ id e = i) ->
  exists e0, find (fun e => String.eqb (id e) i) l = Some e0.
Proof.
  intros [e [He E]].
  destruct (find (fun e => String.eqb (id e) i) l) as [e0 |] eqn:F; [eauto |].
  exfalso. apply (find_none _ _ F) in He. rewrite E, String.eqb_refl in He.
  discriminate.
Qed.

Lemma incl_new_addresses (old l : list Address) :
  incl l (old ++ filter (fun addr => negb (includes old addr)) l).
Proof.
  intros a Ha. apply in_app_iff.
  destruct (includes old a) eqn:E.
  - left. now apply includes_In.
  - right. apply filter_In. split; [assumption | now rewrite E].
Qed.

(** X15 - the addresses of a confidently attributed cluster end with the
    entity.  When an attribution at or above the threshold names an entity
    of the store, then after the run an entity with this id lists every
    address of the cluster, and the report has the cluster under [updated]
    for this entity, or under [skipped] with the reason [no_new_addresses]. *)
Theorem updateEntities_extends_attributed_entity
    (st : Store) (attributionResults : Obj.t ClusterAttribution.t)
    (confidenceThreshold : Q) (clusterId entityId : string)
    (attribution : ClusterAttribution.t) :
  In (clusterId, attribution) attributionResults ->
  ClusterAttribution.entityId attribution = Some entityId ->
  truthy entityId = true ->
  ~ (ClusterAttribution.confidence attribution < confidenceThreshold)%Q ->
  (exists e, In e (entities st) /\ id e = entityId) ->
  exists u st' e',
    Attribution.updateEntitiesWithAttributions uuidv4 st attributionResults
      (Some confidenceThreshold) = (Ok u, st')
    /\ In e' (entities st') /\ id e' = entityId
    /\ incl (ClusterAttribution.addresses attribution) (addresses e')
    /\ ((exists x, In x (UpdateResults.updated u)
                   /\ Updated.clusterId x = clusterId
                   /\ Updated.entityId x = entityId)
        \/ In (Attribution.skip clusterId (Some entityId) "no_new_addresses"
                 None None None)
              (UpdateResults.skipped u)).
Proof.
  intros Hin Hid Htruthy Hconf Hex.
  unfold Attribution.updateEntitiesWithAttributions.
  apply for_in_order_In in Hin.
  destruct (updateFold_entry confidenceThreshold _ _
              (Attribution.emptyUpdateResults, st) Hin) as [[r0 st0] [H0 H1]].
  destruct (fold_left _ _ _) as [u st']. cbn [fst snd] in *.
  assert (Hex0 : exists e, In e (entities st0) /\ id e = entityId).
  { destruct Hex as [e [He E]]. destruct H0 as [H0 _].
    destruct (H0 e He) as [e0 [He0 [[E0 _] _]]]. exists e0. simpl in *.
    split; [assumption | congruence]. }
  destruct (find_exists _ _ Hex0) as [e0 F].
  pose proof (find_some _ _ F) as [He0 E0]. apply String.eqb_eq in E0.
  revert H1. unfold Attribution.updateStep.
  replace (Qltb (ClusterAttribution.confidence attribution) confidenceThreshold)
    with false
    by (symmetry; apply not_true_is_false; intros H; apply Qltb_lt in H; tauto).
  rewrite Hid, Htruthy. unfold Attribution.extendEntity.
  rewrite (proj2 (getEntityById_Ok st0 entityId e0) F).
  pose proof (incl_new_addresses (addresses e0)
                (ClusterAttribution.addresses attribution)) as Hincl.
  destruct (filter (fun addr => negb (includes (addresses e0) addr))
                   (ClusterAttribution.addresses attribution)) as [| x xs].
  - intros [H1 [_ [H3 _]]]. cbn [fst snd] in *.
    destruct (H1 e0 He0) as [e' [He' [[E' _] Ha']]].
    exists u, st', e'. split; [reflexivity |]. split; [assumption |].
    split; [congruence |]. split.
    + rewrite app_nil_r in Hincl. now apply incl_tran with (addresses e0).
    + right. apply H3. simpl. apply in_app_iff. right. now left.
  - unfold updateEntity. rewrite F.
    set (upd := {| id := entityId; name := name e0 |}).
    intros [H1 [H2 _]]. cbn [fst snd entities] in *.
    assert (Hupd : In upd (replaceEntity entityId upd (entities st0))).
    { apply (find_some (fun e => String.eqb (id e) entityId)).
      now apply find_replaceEntity with e0. }
    destruct (H1 upd Hupd) as [e' [He' [[E' _] Ha']]].
    exists u, st', e'. split; [reflexivity |]. split; [assumption |].
    split; [now rewrite <- E' |]. split.
    + now apply incl_tran with (addresses upd).
    + left. eexists. split; [apply H2; simpl; apply in_app_iff; right; now left |].
      split; reflexivity.
Qed.

End UpdateStore.

Lemma updateEntities_unknown_entity_is_skipped_witness :
  exists u st',
    Attribution.updateEntitiesWithAttributions sampleUuid initialStore
      [("cluster_1",
        {| ClusterAttribution.entityId := Some "42";
           ClusterAttribution.entityName := "Gone";
           ClusterAttribution.entityType := "Exchange";
           ClusterAttribution.confidence := 0.9%Q;
           ClusterAttribution.addresses := ["0xa"];
           ClusterAttribution.matchedAddresses := ["0xa"] |})]
      (Some 0.8%Q) = (Ok u, st')
    /\ In (Attribution.skip "cluster_1" (Some "42") "update_error" None None
             (Some "Unable to fetch entity: Entity with ID 42 not found"))
          (UpdateResults.skipped u).
Proof.
  apply (updateEntities_unknown_entity_is_skipped sampleUuid initialStore
           [("cluster_1",
             {| ClusterAttribution.entityId := Some "42";
                ClusterAttribution.entityName := "Gone";
                ClusterAttribution.entityType := "Exchange";
                ClusterAttribution.confidence := 0.9%Q;
                ClusterAttribution.addresses := ["0xa"];
                ClusterAttribution.matchedAddresses := ["0xa"] |})]
           0.8%Q "cluster_1" "42"
           {| ClusterAttribution.entityId := Some "42";
              ClusterAttribution.entityName := "Gone";
              ClusterAttribution.entityType := "Exchange";
              ClusterAttribution.confidence := 0.9%Q;
              ClusterAttribution.addresses := ["0xa"];
              ClusterAttribution.matchedAddresses := ["0xa"] |}).
  - now left.
  - reflexivity.
  - reflexivity.
  - simpl. intros H. vm_compute in H. discriminate.
  - simpl. intros e [<- | [<- | [<- | []]]]; discriminate.
  - intros n. unfold sampleUuid. discriminate.
Defined.

Lemma updateEntities_extends_attributed_entity_witness :
  exists u st' e',
    Attribution.updateEntitiesWithAttributions sampleUuid initialStore
      [("cluster_1",
        {| ClusterAttribution.entityId := Some "1";
           ClusterAttribution.entityName := "Binance";
           ClusterAttribution.entityType := "Exchange";
           ClusterAttribution.confidence := 0.9%Q;
           ClusterAttribution.addresses := ["0xa"; "0xb"];
           ClusterAttribution.matchedAddresses := [] |})]
      (Some 0.8%Q) = (Ok u, st')
    /\ In e' (entities st') /\ id e' = "1"
    /\ incl ["0xa"; "0xb"] (addresses e').
Proof.
  destruct (updateEntities_extends_attributed_entity sampleUuid initialStore
           [("cluster_1",
             {| ClusterAttribution.entityId := Some "1";
                ClusterAttribution.entityName := "Binance";
                ClusterAttribution.entityType := "Exchange";
                ClusterAttribution.confidence := 0.9%Q;
                ClusterAttribution.addresses := ["0xa"; "0xb"];
                ClusterAttribution.matchedAddresses := [] |})]
           0.8%Q "cluster_1" "1"
           {| ClusterAttribution.entityId := Some "1";
              ClusterAttribution.entityName := "Binance";
              ClusterAttribution.entityType := "Exchange";
              ClusterAttribution.confidence := 0.9%Q;
              ClusterAttribution.addresses := ["0xa"; "0xb"];
              ClusterAttribution.matchedAddresses := [] |})
    as [u [st' [e' [H1 [H2 [H3 [H4 _]]]]]]].
  - now left.
  - reflexivity.
  - reflexivity.
  - simpl. intros H. vm_compute in H. discriminate.
  - eexists. split; [left; reflexivity | reflexivity].
  - exists u, st', e'. auto.
Defined.

(** ** The orchestrator *)

Lemma truthy_true (a : string) : truthy a = true <-> a <> "".
Proof.
  unfold truthy. rewrite negb_true_iff. split.
  - intros H ->. discriminate.
  - intros H. apply String.eqb_neq. assumption.
Qed.

Lemma addIfTruthy_In (s : JsSet.t) (a x : string) :
  In x (Identification.addIfTruthy s a) <-> In x s \/ (x = a /\ x <> "").
Proof.
  unfold Identification.addIfTruthy.
  destruct (truthy a) eqn:E.
  - apply truthy_true in E. rewrite add_In. split; [| tauto].
    intros [H | ->]; auto.
  - split; [tauto |]. intros [H | [-> H]]; [assumption |].
    apply truthy_true in H. congruence.
Qed.

Lemma addIfTruthy_NoDup (s : JsSet.t) (a : string) :
  NoDup s -> NoDup (Identification.addIfTruthy s a).
Proof.
  unfold Identification.addIfTruthy. destruct (truthy a); [apply add_NoDup | auto].
Qed.

Lemma addAllTruthy (l : list string) (s : JsSet.t) :
  (NoDup s -> NoDup (fold_left Identification.addIfTruthy l s))
  /\ forall x, In x (fold_left Identification.addIfTruthy l s)
               <-> In x s \/ (In x l /\ x <> "").
Proof.
  revert s. induction l as [| a l IH]; intros s; simpl.
  - split; [auto | intros x; tauto].
  - destruct (IH (Identification.addIfTruthy s a)) as [H1 H2]. split.
    + intros H. apply H1. now apply addIfTruthy_NoDup.
    + intros x. rewrite H2, addIfTruthy_In. split.
      * intros [[H | [-> H]] | [H H']]; auto.
      * intros [H | [[<- | H] H']]; auto.
Qed.

(** X16 - [extractUniqueAddresses] lists every address the transactions
    mention, once.  The result has no duplicates, never holds the empty
    string, and an address is in it exactly when it is not empty and is the
    sender, the recipient, or an input or output address of a transaction
    of the list. *)
Theorem extractUniqueAddresses_spec (transactions : list Transaction) :
  NoDup (Identification.extractUniqueAddresses transactions)
  /\ forall a, In a (Identification.extractUniqueAddresses transactions)
               <-> a <> "" /\ exists tx, In tx transactions /\ mentions tx a.
Proof.
  unfold Identification.extractUniqueAddresses.
  assert (G : forall l s,
    let r := fold_left
      (fun addressSet tx =>
         let s1 := Identification.addIfTruthy addressSet (from tx) in
         let s2 := Identification.addIfTruthy s1 (to tx) in
         let s3 := match inputs tx with
                   | Some ins =>
                       fold_left Identification.addIfTruthy (map address ins) s2
                   | None => s2
                   end in
         match outputs tx with
         | Some outs => fold_left Identification.addIfTruthy (map address outs) s3
         | None => s3
         end) l s in
    (NoDup s -> NoDup r)
    /\ forall a, In a r
                 <-> In a s \/ (a <> "" /\ exists tx, In tx l /\ mentions tx a)).
  { induction l as [| tx l IH]; intros s; simpl.
    - split; [auto |]. intros a. split; [tauto |].
      intros [H | [_ [tx [[] _]]]]. assumption.
    - match goal with |- context [fold_left ?f l ?s0] =>
        destruct (IH s0) as [H1 H2]; set (s' := s0) in * end.
      assert (Hs' : (NoDup s -> NoDup s')
                    /\ forall a, In a s' <-> In a s \/ (a <> "" /\ mentions tx a)).
      { unfold s', mentions.
        destruct (inputs tx) as [ins |], (outputs tx) as [outs |].
        - split.
          + intros H. apply addAllTruthy, addAllTruthy.
            now apply addIfTruthy_NoDup, addIfTruthy_NoDup.
          + intros a.
            rewrite (proj2 (addAllTruthy _ _)), (proj2 (addAllTruthy _ _)),
              !addIfTruthy_In.
            split.
            * intros [[[[H | H] | H] | H] | H]; try tauto.
              -- right. split; [tauto |]. right. right. left. exists ins. tauto.
              -- right. split; [tauto |]. right. right. right. exists outs. tauto.
            * intros [H | [Hne [H | [H | [[i [[= <-] H]] | [o [[= <-] H]]]]]]];
                tauto.
        - split.
          + intros H. apply addAllTruthy.
            now apply addIfTruthy_NoDup, addIfTruthy_NoDup.
          + intros a. rewrite (proj2 (addAllTruthy _ _)), !addIfTruthy_In.
            split.
            * intros [[[H | H] | H] | H]; try tauto.
              right. split; [tauto |]. right. right. left. exists ins. tauto.
            * intros [H | [Hne [H | [H | [[i [[= <-] H]] | [o [[=] H]]]]]]];
                tauto.
        - split.
          + intros H. apply addAllTruthy.
            now apply addIfTruthy_NoDup, addIfTruthy_NoDup.
          + intros a. rewrite (proj2 (addAllTruthy _ _)), !addIfTruthy_In.
            split.
            * intros [[[H | H] | H] | H]; try tauto.
              right. split; [tauto |]. right. right. right. exists outs. tauto.
            * intros [H | [Hne [H | [H | [[i [[=] H]] | [o [[= <-] H]]]]]]];
                tauto.
        - split.
          + intros H. now apply addIfTruthy_NoDup, addIfTruthy_NoDup.
          + intros a. rewrite !addIfTruthy_In. split; [tauto |].
            intros [H | [Hne [H | [H | [[i [[=] H]] | [o [[=] H]]]]]]]; tauto. }
      destruct Hs' as [S1 S2]. split; [auto |].
      intros a. rewrite H2, S2. split.
      + intros [[H | [Hne Hm]] | [Hne [tx' [Hin Hm]]]]; eauto 6.
      + intros [H | [Hne [tx' [[<- | Hin] Hm]]]]; eauto 6. }
  destruct (G transactions []) as [G1 G2]. split; [apply G1; constructor |].
  intros a. rewrite G2. simpl. tauto.
Qed.

Lemma combinedClustering_NoDup (txs : list Transaction) (addrs : list Address)
    (cs : Clusters) :
  combinedClustering txs addrs = Ok cs -> NoDup (Obj.keys cs).
Proof.
  unfold combinedClustering, commonInputClustering, changeAddressIdentification.
  cbn [rethrow bind].
  destruct (change_fold txs txs (fst (commonInputSets txs))) as [[Hnd _] _].
  - auto.
  - apply commonInput_namedKeys.
  - intros id a Hm. apply commonInput_members in Hm.
    destruct Hm as [tx [H1 H2]]. exists tx. tauto.
  - rewrite behavioralClustering_spec.
    match goal with |- context [filter ?f addrs] =>
      destruct (filter f addrs) as [| u rest] end;
      cbn [length Nat.ltb Nat.leb rethrow bind].
    + now intros [= <-].
    + destruct (forallb (String.eqb u) rest); [| discriminate].
      cbn. intros [= <-]. now apply NoDup_set.
Qed.

(** X17 - the counts of an identification report agree.  When
    [identifyEntitiesFromTransactions] returns, the report counts the
    transactions it was given, the cluster ids are distinct, [clusterCount]
    is the number of clusters and of attributions, the attributions carry
    the ids of the clusters, and the three lists of the update report add
    up to [clusterCount]; without an update report the store is the one
    the call started from. *)
Theorem identifyEntities_report_consistent
    (uuidv4 : nat -> string) (st st' : Store)
    (transactions : list Transaction) (options : Options)
    (r : Identification.IdentificationResult) :
  Identification.identifyEntitiesFromTransactions uuidv4 st transactions options
  = (Ok r, st') ->
  Identification.transactionCount r = length transactions
  /\ NoDup (Obj.keys (Identification.clusters r))
  /\ Identification.clusterCount r = length (Identification.clusters r)
  /\ length (Identification.attributions r) = Identification.clusterCount r
  /\ (forall cid, In cid (Obj.keys (Identification.attributions r))
                  <-> In cid (Obj.keys (Identification.clusters r)))
  /\ match Identification.updates r with
     | Some u =>
         length (UpdateResults.updated u) + length (UpdateResults.created u)
         + length (UpdateResults.skipped u) = Identification.clusterCount r
     | None => st' = st /\ updateEntities options = JsBool false
     end.
Proof.
  unfold Identification.identifyEntitiesFromTransactions.
  destruct (combinedClustering transactions _) as [cs | m] eqn:Hc;
    [| discriminate].
  apply combinedClustering_NoDup in Hc.
  destruct (Attribution.attributeClusters st cs) as [res | m] eqn:Ha;
    [| discriminate].
  destruct (attributeClusters_length _ _ _ Hc Ha) as [_ [Hk Hl]].
  assert (Hlen : length (Obj.keys cs) = length cs)
    by (unfold Obj.keys; apply length_map).
  destruct (notStrictlyFalse (updateEntities options)) eqn:Eu.
  - match goal with |- context [Attribution.updateEntitiesWithAttributions
                                  uuidv4 st res ?t] =>
      destruct (updateEntities_run uuidv4 st res t) as [u [st1 [Hrun Hp]]]
    end.
    rewrite Hrun. intros [= <- <-]. simpl.
    repeat split; auto; try (apply Hk); try lia.
    rewrite <- reported_length, (Permutation_length Hp).
    unfold Obj.keys. rewrite !length_map. assumption.
  - intros [= <- <-]. simpl.
    repeat split; auto; try (apply Hk); try lia.
    destruct (updateEntities options) as [| | [|] | |]; try discriminate.
    reflexivity.
Qed.

Lemma identifyEntities_report_consistent_witness :
  exists r st',
    Identification.identifyEntitiesFromTransactions sampleUuid initialStore
      cospendWithBinance noOptions = (Ok r, st')
    /\ Identification.clusterCount r = length (Identification.clusters r)
    /\ length (Identification.attributions r) = Identification.clusterCount r.
Proof.
  destruct (Identification.identifyEntitiesFromTransactions sampleUuid
              initialStore cospendWithBinance noOptions) as [[r | m] st'] eqn:E;
    [| vm_compute in E; discriminate].
  exists r, st'. split; [reflexivity |].
  destruct (identifyEntities_report_consistent sampleUuid initialStore st'
              cospendWithBinance noOptions r E) as [_ [_ [H1 [H2 _]]]].
  split; assumption.
Defined.

(** X18 - a failed identification leaves the store as it was.  The call
    can only be rejected by the clustering or by the attribution of the
    clusters, both of which come before the first write; the message is the
    one of the failing step behind the prefix of the orchestrator. *)
Theorem identifyEntities_failure_keeps_store
    (uuidv4 : nat -> string) (st st' : Store)
    (transactions : list Transaction) (options : Options) (m : string) :
  Identification.identifyEntitiesFromTransactions uuidv4 st transactions options
  = (Throw m, st') ->
  st' = st
  /\ exists m', m = ("Entity identification failed: " ++ m')%string
       /\ (combinedClustering transactions
             (Identification.extractUniqueAddresses transactions) = Throw m'
           \/ exists clusters,
                combinedClustering transactions
                  (Identification.extractUniqueAddresses transactions)
                = Ok clusters
                /\ Attribution.attributeClusters st clusters = Throw m').
Proof.
  unfold Identification.identifyEntitiesFromTransactions.
  destruct (combinedClustering transactions _) as [cs | m0] eqn:Hc.
  - destruct (Attribution.attributeClusters st cs) as [res | m1] eqn:Ha.
    + destruct (notStrictlyFalse (updateEntities options)); [| discriminate].
      match goal with |- context [Attribution.updateEntitiesWithAttributions
                                    uuidv4 st res ?t] =>
        destruct (updateEntities_run uuidv4 st res t) as [u [st1 [Hrun _]]]
      end.
      rewrite Hrun. discriminate.
    + intros [= <- <-]. split; [reflexivity |]. exists m1. eauto.
  - intros [= <- <-]. split; [reflexivity |]. exists m0. auto.
Qed.

Lemma identifyEntities_failure_keeps_store_witness :
  exists m st',
    Identification.identifyEntitiesFromTransactions sampleUuid initialStore
      threeDeposits noOptions = (Throw m, st')
    /\ st' = initialStore.
Proof.
  destruct (Identification.identifyEntitiesFromTransactions sampleUuid
              initialStore threeDeposits noOptions) as [[r | m] st'] eqn:E;
    [vm_compute in E; discriminate |].
  exists m, st'. split; [reflexivity |].
  apply (identifyEntities_failure_keeps_store sampleUuid initialStore st'
           threeDeposits noOptions m E).
Defined.

(** ** Risk scores *)

Local Open Scope Q_scope.

Lemma Qle_bool_false (a b : Q) : Qle_bool a b = false <-> b < a.
Proof.
  split.
  - intros H. apply Qnot_le_lt. intros Hle. apply Qle_bool_iff in Hle. congruence.
  - intros H. destruct (Qle_bool a b) eqn:E; [| reflexivity].
    apply Qle_bool_iff in E. exfalso. now apply (Qlt_not_le b a).
Qed.

(** X19 - a higher score never gets a lower risk level:
    [riskLevelFromScore] is monotone from "Very Low" to "Very High". *)
Theorem riskLevelFromScore_monotone (score1 score2 : Q) :
  score1 <= score2 ->
  (levelRank (Risk.riskLevelFromScore score1)
   <= levelRank (Risk.riskLevelFromScore score2))%nat.
Proof.
  intros H. unfold Risk.riskLevelFromScore.
  destruct (Qle_bool 0.8 score1) eqn:A1, (Qle_bool 0.8 score2) eqn:A2,
           (Qle_bool 0.6 score1) eqn:B1, (Qle_bool 0.6 score2) eqn:B2,
           (Qle_bool 0.4 score1) eqn:C1, (Qle_bool 0.4 score2) eqn:C2,
           (Qle_bool 0.2 score1) eqn:D1, (Qle_bool 0.2 score2) eqn:D2;
    try (vm_compute; lia);
    repeat match goal with
           | H : Qle_bool _ _ = true |- _ => apply Qle_bool_iff in H
           | H : Qle_bool _ _ = false |- _ => apply Qle_bool_false in H
           end; exfalso; lra.
Qed.

Lemma riskLevelFromScore_monotone_witness :
  (levelRank (Risk.riskLevelFromScore 0.3)
   <= levelRank (Risk.riskLevelFromScore 0.7))%nat.
Proof.
  apply (riskLevelFromScore_monotone 0.3 0.7). vm_compute. discriminate.
Defined.

Lemma insertByScore_perm (x : SignificantFactor.t) (l : list SignificantFactor.t) :
  Permutation (Risk.insertByScore x l) (x :: l).
Proof.
  induction l as [| y l IH]; simpl; [reflexivity |].
  destruct (Qle_bool _ _); [reflexivity |].
  rewrite IH. apply perm_swap.
Qed.

Lemma sortByScore_perm (l : list SignificantFactor.t) :
  Permutation (Risk.sortByScore l) l.
Proof.
  unfold Risk.sortByScore. induction l as [| x l IH]; simpl; [reflexivity |].
  rewrite insertByScore_perm. now constructor.
Qed.

Lemma insertByScore_sorted (x : SignificantFactor.t)
    (l : list SignificantFactor.t) :
  StronglySorted scoreNotBelow l ->
  StronglySorted scoreNotBelow (Risk.insertByScore x l).
Proof.
  induction l as [| y l IH]; intros Hs; simpl.
  - constructor; constructor.
  - inversion Hs as [| ? ? Hs' Hy]; subst.
    destruct (Qle_bool (SignificantFactor.score y) (SignificantFactor.score x))
      eqn:E.
    + apply Qle_bool_iff in E. constructor; [assumption |].
      constructor; [exact E |].
      eapply Forall_impl; [| exact Hy]. intros z Hz. unfold scoreNotBelow in *.
      now apply Qle_trans with (SignificantFactor.score y).
    + apply Qle_bool_false in E. constructor; [now apply IH |].
      eapply Permutation_Forall; [symmetry; apply insertByScore_perm |].
      constructor; [| assumption]. unfold scoreNotBelow. now apply Qlt_le_weak.
Qed.

Lemma sortByScore_sorted (l : list SignificantFactor.t) :
  StronglySorted scoreNotBelow (Risk.sortByScore l).
Proof.
  unfold Risk.sortByScore. induction l as [| x l IH]; simpl; [constructor |].
  now apply insertByScore_sorted.
Qed.

Lemma significantFactors_perm (riskFactors : Obj.t RiskFactor.t)
    (entityInfo : EntityInfo.t) :
  Permutation (snd (Risk.calculateRiskScore riskFactors entityInfo))
              (map significantOf riskFactors).
Proof.
  unfold Risk.calculateRiskScore.
  destruct (fold_left _ riskFactors (0, 0)) as [factorScore maxFactorScore].
  cbn [snd]. apply sortByScore_perm.
Qed.

(** X20 - the significant factors are the detected factors, highest score
    first.  The list [calculateRiskScore] returns holds one entry per
    detected factor, with its key, score and description, and no entry has
    a lower score than one that follows it. *)
Theorem calculateRiskScore_factors_sorted
    (riskFactors : Obj.t RiskFactor.t) (entityInfo : EntityInfo.t) :
  Permutation (snd (Risk.calculateRiskScore riskFactors entityInfo))
              (map significantOf riskFactors)
  /\ StronglySorted scoreNotBelow
       (snd (Risk.calculateRiskScore riskFactors entityInfo)).
Proof.
  split; [apply significantFactors_perm |].
  unfold Risk.calculateRiskScore.
  destruct (fold_left _ riskFactors (0, 0)) as [factorScore maxFactorScore].
  cbn [snd]. apply sortByScore_sorted.
Qed.













Close Scope Q_scope.

(** ** Batches *)

Import RiskBulk.

Lemma chunkLoop_spec {A} (array : list A) (c : nat) :
  0 < c ->
  forall fuel i, length array - i <= fuel ->
    concat (chunkLoop fuel array c i) = skipn i array
    /\ Forall (fun chunk => 0 < length chunk <= c) (chunkLoop fuel array c i)
    /\ Forall (fun chunk => length chunk = c)
              (removelast (chunkLoop fuel array c i))
    /\ forall fuel', length array - i <= fuel' ->
         chunkLoop fuel' array c i = chunkLoop fuel array c i.
Proof.
  intros Hc. induction fuel as [| fuel IH]; intros i Hfuel.
  - assert (Hnil : skipn i array = []) by (apply skipn_all2; lia).
    simpl. rewrite Hnil. repeat split; try constructor.
    intros [| fuel'] _; [reflexivity |]. simpl.
    destruct (Nat.ltb_spec i (length array)); [lia | reflexivity].
  - cbn [chunkLoop].
    destruct (Nat.ltb_spec i (length array)) as [Hlt | Hge].
    + destruct (IH (i + c)) as [H1 [H2 [H3 H4]]]; [lia |].
      assert (Hlen : length (slice array i (i + c)) = Nat.min c (length array - i)).
      { unfold slice. rewrite length_firstn, length_skipn.
        replace (i + c - i) with c by lia. reflexivity. }
      split; [| split; [| split]].
      * cbn [concat]. rewrite H1. unfold slice.
        replace (i + c - i) with c by lia.
        replace (i + c) with (c + i) by lia.
        rewrite <- skipn_skipn. apply firstn_skipn.
      * constructor; [lia | assumption].
      * destruct (chunkLoop fuel array c (i + c)) as [| ch rest] eqn:E;
          [constructor |].
        change (removelast (slice array i (i + c) :: ch :: rest))
          with (slice array i (i + c) :: removelast (ch :: rest)).
        constructor; [| assumption].
        destruct fuel as [| fuel0]; [discriminate |]. cbn [chunkLoop] in E.
        destruct (Nat.ltb_spec (i + c) (length array)); [lia | discriminate].
      * intros [| fuel'] Hf'; [lia |]. cbn [chunkLoop].
        destruct (Nat.ltb_spec i (length array)); [| lia].
        f_equal. apply H4. lia.
    + assert (Hnil : skipn i array = []) by (apply skipn_all2; lia).
      rewrite Hnil. repeat split; try constructor.
      intros [| fuel'] _; [reflexivity |]. simpl.
      destruct (Nat.ltb_spec i (length array)); [lia | reflexivity].
Qed.


(** X23 - [chunkArray] cuts an array into consecutive chunks.  For a
    positive chunk size the call returns (the loop ends within
    [array.length] iterations, and more iterations change nothing); the
    chunks put end to end are the array; no chunk is empty or longer than
    the chunk size; and every chunk but the last has exactly that size. *)
Theorem chunkArray_spec {A} (array : list A) (chunkSize : nat) :
  0 < chunkSize ->
  exists chunks,
    chunkArray array chunkSize = Some chunks
    /\ concat chunks = array
    /\ Forall (fun chunk => 0 < length chunk <= chunkSize) chunks
    /\ Forall (fun chunk => length chunk = chunkSize) (removelast chunks)
    /\ forall fuel, length array <= fuel ->
         chunkLoop fuel array chunkSize 0 = chunks.
Proof.
  intros Hc. unfold chunkArray.
  destruct chunkSize as [| c]; [lia |].
  eexists. split; [reflexivity |].
  destruct (chunkLoop_spec array (S c) Hc (length array) 0) as [H1 [H2 [H3 H4]]];
    [lia |].
  split; [exact H1 |]. split; [exact H2 |]. split; [exact H3 |].
  intros fuel Hf. apply H4. lia.
Qed.

Lemma chunkArray_spec_witness :
  exists chunks,
    chunkArray ["a"; "b"; "c"; "d"; "e"] 2 = Some chunks
    /\ concat chunks = ["a"; "b"; "c"; "d"; "e"].
Proof.
  destruct (chunkArray_spec ["a"; "b"; "c"; "d"; "e"] 2) as [chunks [H1 [H2 _]]].
  - lia.
  - exists chunks. auto.
Defined.






(** ** Pattern detection: confidence, thresholds and counts *)

Local Open Scope Q_scope.

Lemma Qdiv_le_compat (a b c : Q) : 0 < c -> a <= b -> a / c <= b / c.
Proof.
  intros Hc Hab. apply Qle_shift_div_l; [assumption |].
  unfold Qdiv. rewrite <- Qmult_assoc, (Qmult_comm (/ c)), Qmult_inv_r, Qmult_1_r.
  - assumption.
  - intros E. rewrite E in Hc. now apply (Qlt_irrefl 0).
Qed.

(** X25 - the confidence formula.  [calculateConfidence] lies between 0
    and 0.95, is 0 for no strength on an empty sample, never decreases when
    the pattern strength or the sample size grows, and reaches the cap 0.95
    as soon as the strength is 9 and the sample holds 20 transactions. *)
Theorem calculateConfidence_range_monotone :
  (forall strength sample,
     0 <= Patterns.calculateConfidence strength sample
     /\ Patterns.calculateConfidence strength sample <= 0.95)
  /\ Patterns.calculateConfidence 0 0 == 0
  /\ (forall strength strength' sample sample',
        (strength <= strength')%nat -> (sample <= sample')%nat ->
        Patterns.calculateConfidence strength sample
        <= Patterns.calculateConfidence strength' sample')
  /\ (forall strength sample,
        (9 <= strength)%nat -> (20 <= sample)%nat ->
        Patterns.calculateConfidence strength sample == 0.95).
Proof.
  unfold Patterns.calculateConfidence.
  split; [| split; [| split]].
  - intros strength sample. split; [| apply Q.le_min_l].
    apply Q.min_glb; [discriminate |].
    assert (H1 : 0 <= Qmin 1 (Qnat sample / 20)).
    { apply Q.min_glb; [discriminate |].
      apply Qdiv_nonneg; [apply Qnat_nonneg | discriminate]. }
    assert (H2 : 0 <= Qmin 1 (Qnat strength / 10)).
    { apply Q.min_glb; [discriminate |].
      apply Qdiv_nonneg; [apply Qnat_nonneg | discriminate]. }
    lra.
  - vm_compute. reflexivity.
  - intros s s' n n' Hs Hn.
    assert (H1 : Qmin 1 (Qnat n / 20) <= Qmin 1 (Qnat n' / 20)).
    { apply Q.min_le_compat_l. apply Qdiv_le_compat; [reflexivity |].
      now apply Qnat_le. }
    assert (H2 : Qmin 1 (Qnat s / 10) <= Qmin 1 (Qnat s' / 10)).
    { apply Q.min_le_compat_l. apply Qdiv_le_compat; [reflexivity |].
      now apply Qnat_le. }
    apply Q.min_le_compat_l. lra.
  - intros s n Hs Hn.
    assert (H1 : Qmin 1 (Qnat n / 20) == 1).
    { apply Q.min_l. apply Qle_shift_div_l; [reflexivity |].
      apply (Qnat_le 20 n) in Hn. unfold Qnat in Hn at 1. simpl in Hn.
      change (inject_Z 20) with 20 in Hn. lra. }
    assert (H2 : 0.9 <= Qmin 1 (Qnat s / 10)).
    { apply Q.min_glb; [discriminate |]. apply Qle_shift_div_l; [reflexivity |].
      apply (Qnat_le 9 s) in Hs. unfold Qnat in Hs at 1. simpl in Hs.
      change (inject_Z 9) with 9 in Hs. lra. }
    apply Q.min_l. rewrite H1. lra.
Qed.

Close Scope Q_scope.

Lemma addPattern_length (c : bool) (k : string) (q : Q) (o : Obj.t Pattern.t) :
  length (Obj.keys (Patterns.addPattern c k q o)) <= S (length (Obj.keys o)).
Proof.
  unfold Patterns.addPattern. destruct c; [| lia].
  rewrite keys_set. destruct (includes (Obj.keys o) k); [lia |].
  rewrite length_app. simpl. lia.
Qed.

Lemma timing_length (a : Address) (txs : list Transaction) :
  length (Obj.keys (Patterns.detectActivityTimingPatterns a txs)) <= 2.
Proof.
  unfold Patterns.detectActivityTimingPatterns.
  eapply Nat.le_trans; [apply addPattern_length |].
  apply le_n_S. eapply Nat.le_trans; [apply addPattern_length |]. simpl. lia.
Qed.

Lemma values_length (a : Address) (txs : list Transaction) :
  length (Obj.keys (Patterns.detectValueDistributionPatterns a txs)) <= 3.
Proof.
  unfold Patterns.detectValueDistributionPatterns.
  match goal with |- context [Patterns.addPattern ?c "recurringValues" ?q ?o] =>
    assert (H2 : length (Obj.keys (Patterns.addPattern c "recurringValues" q o)) <= 2)
  end.
  { eapply Nat.le_trans; [apply addPattern_length |].
    apply le_n_S. eapply Nat.le_trans; [apply addPattern_length |]. simpl. lia. }
  destruct (Patterns.sortAscending _) as [| min rest]; [lia |].
  eapply Nat.le_trans; [apply addPattern_length |]. lia.
Qed.

Lemma counterparties_length (a : Address) (txs : list Transaction) :
  length (Obj.keys (Patterns.detectCounterpartyPatterns a txs)) <= 2.
Proof.
  unfold Patterns.detectCounterpartyPatterns.
  eapply Nat.le_trans; [apply addPattern_length |].
  apply le_n_S. eapply Nat.le_trans; [apply addPattern_length |]. simpl. lia.
Qed.

Lemma periodic_length (a : Address) (txs : list Transaction) :
  length (Obj.keys (Patterns.detectPeriodicPatterns a txs)) <= 3
  /\ (Patterns.detectPeriodicPatterns a txs <> [] -> 6 <= length txs).
Proof.
  unfold Patterns.detectPeriodicPatterns.
  set (intervals := Patterns.intervalsOf _).
  destruct (Nat.ltb_spec (length intervals) 5) as [Hlt | Hge].
  - split; [simpl; lia | congruence].
  - split.
    + eapply Nat.le_trans; [apply addPattern_length |].
      apply le_n_S. eapply Nat.le_trans; [apply addPattern_length |].
      apply le_n_S. eapply Nat.le_trans; [apply addPattern_length |]. simpl. lia.
    + intros _. unfold intervals in Hge.
      rewrite intervalsOf_length, sortedTimes_length, length_map in Hge. lia.
Qed.

Lemma gas_length (a : Address) (txs : list Transaction) :
  length (Obj.keys (Patterns.detectGasUsagePatterns a txs)) <= 2
  /\ (Patterns.detectGasUsagePatterns a txs <> [] -> 5 <= length txs).
Proof.
  unfold Patterns.detectGasUsagePatterns.
  match goal with |- context [filter ?f txs] =>
    pose proof (filter_length_le f txs) as Hf; set (withGas := filter f txs) in *
  end.
  destruct (Nat.ltb_spec (length withGas) 5) as [Hlt | Hge].
  - split; [simpl; lia | congruence].
  - split; [| lia].
    destruct (Qltb 1.5 _);
      (eapply Nat.le_trans; [apply addPattern_length |];
       apply le_n_S; eapply Nat.le_trans; [apply addPattern_length |]; simpl; lia).
Qed.

(** X26 - what a pattern report holds.  [detectAddressPatterns] always
    returns.  With fewer than three transactions the report is empty.
    Otherwise every category of the report holds a pattern at least,
    [patternCount] is the number of patterns of all categories together and
    never exceeds 12, the category [periodicActivity] needs six
    transactions, and [gasUsage] five. *)
Theorem detectAddressPatterns_report
    (a : Address) (transactions : list Transaction) :
  exists r,
    Patterns.detectAddressPatterns a transactions = Ok r
    /\ PatternReport.address r = a
    /\ (length transactions < 3 ->
        PatternReport.patternCount r = 0 /\ PatternReport.patterns r = [])
    /\ (forall category ps, In (category, ps) (PatternReport.patterns r) ->
          ps <> []
          /\ In category ["activityTiming"; "valueDistribution";
                          "counterparties"; "periodicActivity"; "gasUsage"])
    /\ PatternReport.patternCount r
       = length (concat (map snd (PatternReport.patterns r)))
    /\ PatternReport.patternCount r <= 12
    /\ (In "periodicActivity" (Obj.keys (PatternReport.patterns r)) ->
        6 <= length transactions)
    /\ (In "gasUsage" (Obj.keys (PatternReport.patterns r)) ->
        5 <= length transactions).
Proof.
  unfold Patterns.detectAddressPatterns. cbn [rethrow].
  destruct (Nat.ltb_spec (length transactions) 3) as [Hlt | Hge].
  - eexists. split; [reflexivity |]. simpl.
    repeat split; auto; try lia; try tauto.
  - eexists. split; [reflexivity |].
    cbn [PatternReport.address PatternReport.patternCount PatternReport.patterns].
    pose proof (timing_length a transactions) as H1.
    pose proof (values_length a transactions) as H2.
    pose proof (counterparties_length a transactions) as H3.
    destruct (periodic_length a transactions) as [H4 H4'].
    destruct (gas_length a transactions) as [H5 H5'].
    revert H1 H2 H3 H4 H4' H5 H5'.
    generalize (Patterns.detectActivityTimingPatterns a transactions) as p1.
    generalize (Patterns.detectValueDistributionPatterns a transactions) as p2.
    generalize (Patterns.detectCounterpartyPatterns a transactions) as p3.
    generalize (Patterns.detectPeriodicPatterns a transactions) as p4.
    generalize (Patterns.detectGasUsagePatterns a transactions) as p5.
    intros p5 p4 p3 p2 p1 H1 H2 H3 H4 H4' H5 H5'.
    unfold Obj.keys in *. rewrite !length_map in *.
    split; [reflexivity |]. split; [intros; lia |].
    destruct p1 as [| x1 p1], p2 as [| x2 p2], p3 as [| x3 p3],
             p4 as [| x4 p4], p5 as [| x5 p5];
      cbn [filter snd fst length Nat.ltb Nat.leb map concat fold_left Nat.add
           app] in *;
      (split; [intros category ps Hin; simpl in Hin;
               repeat (destruct Hin as [[= <- <-] | Hin];
                       [split; [discriminate | simpl; tauto] |]);
               destruct Hin |]);
      repeat (rewrite ?length_app, ?length_map; cbn [length]);
      (split; [lia |]); (split; [lia |]);
      (split; intros Hk; simpl in Hk;
       repeat (destruct Hk as [Hk | Hk]; [try discriminate Hk |]);
       try (destruct Hk);
       try (apply H4'; discriminate); try (apply H5'; discriminate)).
Qed.

(** ** When a value or counterparty pattern is reported *)


Local Open Scope Q_scope.








Close Scope Q_scope.







(** ** Bursts of activity *)






Local Open Scope Q_scope.






Close Scope Q_scope.

(** ** Large values *)

Local Open Scope Q_scope.













Close Scope Q_scope.
